(** * splatapult: the depth-sorted point / splat rendering pipeline

    A shallow embedding of [src/core/program.cpp], [src/splatrenderer.cpp]
    and [src/pointrenderer.cpp].

    Conventions.
    - [uint32_t], [GLuint] and [size_t] values are integers in [Z]; every
      wrap-around of the C++ arithmetic is written out ([wrap32], [wrap64]).
    - A [float] is modelled by the rational number it denotes.  NaN and the
      infinities have no counterpart, and the rounding of [+], [-] and [*] is
      not modelled.  Multiplying by [65536.0f] is exact in binary floating
      point, so the quantisation step itself loses nothing.
    - OpenGL objects live in a store indexed by their names (the [GLuint]
      handles); every GL call the three files make is an explicit step on
      that store, and the calls are also recorded in order.
    - [std::vector::operator[]] outside the vector is undefined behaviour;
      the model checks the index and stops ([Undefined]). *)

From Stdlib Require Import ZArith QArith Qround List Lia Permutation Sorted Bool Ascii.
From stdpp Require Import gmap strings list pretty.

Local Open Scope Z_scope.

(* ===================================================================== *)
(** ** Machine integers and the float-to-integer conversion              *)
(* ===================================================================== *)

Module Num.

(** [std::numeric_limits<uint32_t>::max()] *)
Definition UINT32_MAX : Z := 4294967295.

Definition wrap32 (z : Z) : Z := z mod 2 ^ 32.
Definition wrap64 (z : Z) : Z := z mod 2 ^ 64.

(** [sizeof(uint32_t)] *)
Definition sizeof_uint32 : Z := 4.

(** Truncation toward zero, the rounding of every C++ float-to-integer
    conversion. *)
Definition Qtrunc (x : Q) : Z := Z.quot (Qnum x) (Z.pos (Qden x)).


(** What the x86-64 compilers emit for [(uint32_t)f]: a 64-bit [cvttss2si]
    (which answers [-2^63] when the value does not fit 64 bits) followed by
    a truncation to the low 32 bits. *)
Definition cvttss2si64 (x : Q) : Z :=
  let t := Qtrunc x in
  if (- 2 ^ 63 <=? t) && (t <? 2 ^ 63) then t else - 2 ^ 63.

Definition float_to_uint32 (x : Q) : Z := wrap32 (cvttss2si64 x).

(** [(uint32_t)i] for a [size_t] [i]. *)
Definition size_to_uint32 (i : Z) : Z := wrap32 i.

End Num.

(* ===================================================================== *)
(** ** The slice of glm the renderers use                                 *)
(* ===================================================================== *)

Module glm.

Record vec3 := mk_vec3 { x3 : Q; y3 : Q; z3 : Q }.
Record vec4 := mk_vec4 { x4 : Q; y4 : Q; z4 : Q; w4 : Q }.

(** Column-major, as glm stores them: [m[k]] is column [k]. *)
Record mat3 := mk_mat3 { m3c0 : vec3; m3c1 : vec3; m3c2 : vec3 }.
Record mat4 := mk_mat4 { m4c0 : vec4; m4c1 : vec4; m4c2 : vec4; m4c3 : vec4 }.

(** [glm::vec3(v)] for a [vec4] [v]: drops [w]. *)
Definition vec3_of_vec4 (v : vec4) : vec3 := mk_vec3 (x4 v) (y4 v) (z4 v).

(** [glm::mat3(m)] for a [mat4] [m]: the upper-left 3x3 block. *)
Definition mat3_of_mat4 (m : mat4) : mat3 :=
  mk_mat3 (vec3_of_vec4 (m4c0 m)) (vec3_of_vec4 (m4c1 m)) (vec3_of_vec4 (m4c2 m)).

Definition sub (a b : vec3) : vec3 :=
  mk_vec3 (x3 a - x3 b)%Q (y3 a - y3 b)%Q (z3 a - z3 b)%Q.

(** [glm::dot]: the products are summed left to right. *)
Definition dot (a b : vec3) : Q :=
  (x3 a * x3 b + y3 a * y3 b + z3 a * z3 b)%Q.

(** [m * v]: the linear combination of the columns. *)
Definition mul_mat3_vec3 (m : mat3) (v : vec3) : vec3 :=
  mk_vec3
    (x3 (m3c0 m) * x3 v + x3 (m3c1 m) * y3 v + x3 (m3c2 m) * z3 v)%Q
    (y3 (m3c0 m) * x3 v + y3 (m3c1 m) * y3 v + y3 (m3c2 m) * z3 v)%Q
    (z3 (m3c0 m) * x3 v + z3 (m3c1 m) * y3 v + z3 (m3c2 m) * z3 v)%Q.

Definition identity4 : mat4 :=
  mk_mat4 (mk_vec4 1 0 0 0) (mk_vec4 0 1 0 0) (mk_vec4 0 0 1 0) (mk_vec4 0 0 0 1).

End glm.

(* ===================================================================== *)
(** ** Depth keys (splatrenderer.cpp:49-57, pointrenderer.cpp:65-67)      *)
(* ===================================================================== *)

Module DepthKey.
Import Num glm.

(** [glm::mat3(cameraMat) * glm::vec3(0.0f, 0.0f, -1.0f)] *)
Definition forward_of (cameraMat : mat4) : vec3 :=
  mul_mat3_vec3 (mat3_of_mat4 cameraMat) (mk_vec3 0 0 (-1)).

(** [glm::vec3(cameraMat[3])] *)
Definition eye_of (cameraMat : mat4) : vec3 := vec3_of_vec4 (m4c3 cameraMat).

(** [glm::dot(positionVec[i] - eye, forward)] *)
Definition depth_of (eye forward p : vec3) : Q := dot (sub p eye) forward.

(** [std::numeric_limits<uint32_t>::max() - (uint32_t)(depth * 65536.0f)] *)
Definition quantize (depth : Q) : Z :=
  wrap32 (UINT32_MAX - float_to_uint32 (depth * 65536)).

Definition key_of (eye forward p : vec3) : Z := quantize (depth_of eye forward p).

End DepthKey.

(* ===================================================================== *)
(** ** The OpenGL state the three files act on                            *)
(* ===================================================================== *)

Module GL.
Import glm.

Inductive shader_type :=
| GL_VERTEX_SHADER | GL_GEOMETRY_SHADER | GL_FRAGMENT_SHADER | GL_COMPUTE_SHADER.

Inductive target :=
| GL_ARRAY_BUFFER | GL_ELEMENT_ARRAY_BUFFER | GL_SHADER_STORAGE_BUFFER
| GL_COPY_READ_BUFFER | GL_COPY_WRITE_BUFFER.

#[global] Instance shader_type_eq_dec : EqDecision shader_type.
Proof. solve_decision. Defined.

#[global] Instance target_eq_dec : EqDecision target.
Proof. solve_decision. Defined.

(** Buffer storage is a sequence of 4-byte cells: a [uint32_t] or a [float]. *)
Inductive cell := U32 (n : Z) | F32 (q : Q).

Definition cell_size : Z := 4.

(** The values [glUniform*] can carry. *)
Inductive uval :=
| UInt (i : Z) | UFloat (f : Q)
| UVec2 (a b : Q) | UVec3 (v : vec3) | UVec4 (v : vec4)
| UMat2 (a b c d : Q) | UMat3 (m : mat3) | UMat4 (m : mat4).

Inductive error := GL_INVALID_VALUE | GL_INVALID_OPERATION.

(** Every call the three files (and the helpers they use) make, with the
    object names it acted on. *)
Inductive call :=
| CreateShader (ty : shader_type) (name : Z)
| ShaderSource (shader : Z) (source : string)
| CompileShaderCall (shader : Z)
| DeleteShader (shader : Z)
| CreateProgram (name : Z)
| AttachShader (prog shader : Z)
| LinkProgram (prog : Z)
| DeleteProgram (prog : Z)
| UseProgram (prog : Z)
| Uniform (loc : Z) (v : uval)
| GenBuffer (name : Z)
| BufferData (buf : Z) (data : list cell) (dynamic : bool)
| BufferSubData (buf : Z) (data : list cell)
| BindBuffer (tgt : target) (buf : Z)
| BindBufferBase (tgt : target) (index : Z) (buf : Z)
| DispatchCompute (gx gy gz : Z)
| MemoryBarrier
| CopyBufferSubData (rd wr : target) (roff woff size : Z)
| RadixSort (keys vals : Z) (count : Z)
| GenTexture (name : Z)
| ActiveTexture (texunit : Z)
| BindTexture (tex : Z)
| DrawElements (elements : Z) (count : Z).

(** A program object: the shaders attached to it and, once linked, the
    sources it was linked from. *)
Record program_object := mk_program_object {
  attached : list Z;
  linked_from : option (list (shader_type * string))
}.

Record World := mk_World {
  next_name : Z;                              (* next unused object name *)
  shaders : gmap Z (shader_type * string);    (* live shader objects *)
  programs : gmap Z program_object;           (* live program objects *)
  buffers : gmap Z (list cell);               (* buffer object storage *)
  uniform_vals : gmap (Z * Z) uval;           (* (program, location) *)
  current_program : Z;
  bound : target -> Z;                        (* glBindBuffer points *)
  ssbo : gmap Z Z;                            (* indexed storage bindings *)
  errors : list error;                        (* GL errors raised so far *)
  calls : list call;                          (* oldest first *)
  log : list string                           (* Log::printf and std::cerr *)
}.

Definition set_next_name (v : Z) (w : World) : World :=
  mk_World v (shaders w) (programs w) (buffers w) (uniform_vals w)
    (current_program w) (bound w) (ssbo w) (errors w) (calls w) (log w).
Definition set_shaders (v : gmap Z (shader_type * string)) (w : World) : World :=
  mk_World (next_name w) v (programs w) (buffers w) (uniform_vals w)
    (current_program w) (bound w) (ssbo w) (errors w) (calls w) (log w).
Definition set_programs (v : gmap Z program_object) (w : World) : World :=
  mk_World (next_name w) (shaders w) v (buffers w) (uniform_vals w)
    (current_program w) (bound w) (ssbo w) (errors w) (calls w) (log w).
Definition set_buffers (v : gmap Z (list cell)) (w : World) : World :=
  mk_World (next_name w) (shaders w) (programs w) v (uniform_vals w)
    (current_program w) (bound w) (ssbo w) (errors w) (calls w) (log w).
Definition set_uniform_vals (v : gmap (Z * Z) uval) (w : World) : World :=
  mk_World (next_name w) (shaders w) (programs w) (buffers w) v
    (current_program w) (bound w) (ssbo w) (errors w) (calls w) (log w).
Definition set_current_program (v : Z) (w : World) : World :=
  mk_World (next_name w) (shaders w) (programs w) (buffers w) (uniform_vals w)
    v (bound w) (ssbo w) (errors w) (calls w) (log w).
Definition set_bound (v : target -> Z) (w : World) : World :=
  mk_World (next_name w) (shaders w) (programs w) (buffers w) (uniform_vals w)
    (current_program w) v (ssbo w) (errors w) (calls w) (log w).
Definition set_ssbo (v : gmap Z Z) (w : World) : World :=
  mk_World (next_name w) (shaders w) (programs w) (buffers w) (uniform_vals w)
    (current_program w) (bound w) v (errors w) (calls w) (log w).
Definition raise (e : error) (w : World) : World :=
  mk_World (next_name w) (shaders w) (programs w) (buffers w) (uniform_vals w)
    (current_program w) (bound w) (ssbo w) (errors w ++ [e]) (calls w) (log w).
Definition record (c : call) (w : World) : World :=
  mk_World (next_name w) (shaders w) (programs w) (buffers w) (uniform_vals w)
    (current_program w) (bound w) (ssbo w) (errors w) (calls w ++ [c]) (log w).
Definition write_log (s : string) (w : World) : World :=
  mk_World (next_name w) (shaders w) (programs w) (buffers w) (uniform_vals w)
    (current_program w) (bound w) (ssbo w) (errors w) (calls w) (log w ++ [s]).

(** A context in which nothing has been created yet. *)
Definition fresh_world : World :=
  mk_World 1 ∅ ∅ ∅ ∅ 0 (fun _ => 0) ∅ [] [] [].

(** *** Running C++ against the GL state

    A computation either returns, stops at a failed [assert] (the process
    aborts), or runs into undefined behaviour. *)
Inductive result (A : Type) :=
| Ok (a : A) (w : World)
| AssertFailed (w : World)
| Undefined.
Arguments Ok {A} a w.
Arguments AssertFailed {A} w.
Arguments Undefined {A}.

Definition M (A : Type) : Type := World -> result A.

Definition ret {A} (a : A) : M A := fun w => Ok a w.

Definition bind {A B} (m : M A) (k : A -> M B) : M B :=
  fun w => match m w with
           | Ok a w' => k a w'
           | AssertFailed w' => AssertFailed w'
           | Undefined => Undefined
           end.

#[global] Instance M_ret : MRet M := @ret.
#[global] Instance M_bind : MBind M := fun A B k m => bind m k.

Definition undefined {A} : M A := fun _ => Undefined.

Definition get {A} (f : World -> A) : M A := fun w => Ok (f w) w.

Definition modify (f : World -> World) : M unit := fun w => Ok tt (f w).

Definition when (b : bool) (m : M unit) : M unit := if b then m else ret tt.

(** The world a computation stopped in, however it stopped. *)
Definition final_world {A} (r : result A) : option World :=
  match r with Ok _ w | AssertFailed w => Some w | Undefined => None end.

(** *** What the model takes from outside the three files

    The build configuration, the file system seen by [LoadFile] and
    [Image::Load], the GLSL compiler and linker of the driver, and the
    [libm] / glm functions whose values only end up in uniforms. *)
Record Env := mk_Env {
  debug_build : bool;                         (* NDEBUG is not defined *)
  files : gmap string string;                 (* readable text files *)
  images : gset string;                       (* readable image files *)
  drv_compile : shader_type -> string -> bool * string;
                                (* GL_COMPILE_STATUS and the info log *)
  drv_link : list (shader_type * string) -> bool * string;
                                (* GL_LINK_STATUS and the info log *)
  drv_active_attribs : list (shader_type * string) -> list (string * Z * Z);
  drv_attrib_location : list (shader_type * string) -> string -> Z;
  drv_active_uniforms : list (shader_type * string) -> list (string * Z * Z);
                                (* name, size, type *)
  drv_uniform_location : list (shader_type * string) -> string -> Z;
  expf : Q -> Q;
  tanf : Q -> Q;
  inverse : mat4 -> mat4;
  perspective : Q -> Q -> Q -> Q -> mat4
}.

(** The GLSL type codes that matter to [glUniform*]. *)
Definition GL_INT : Z := 5124.
Definition GL_FLOAT : Z := 5126.
Definition GL_FLOAT_VEC2 : Z := 35664.
Definition GL_FLOAT_VEC3 : Z := 35665.
Definition GL_FLOAT_VEC4 : Z := 35666.
Definition GL_FLOAT_MAT2 : Z := 35674.
Definition GL_FLOAT_MAT3 : Z := 35675.
Definition GL_FLOAT_MAT4 : Z := 35676.
Definition GL_SAMPLER_2D : Z := 35678.

Definition uval_has_type (v : uval) (ty : Z) : bool :=
  match v with
  | UInt _ => (ty =? GL_INT) || (ty =? GL_SAMPLER_2D)
  | UFloat _ => ty =? GL_FLOAT
  | UVec2 _ _ => ty =? GL_FLOAT_VEC2
  | UVec3 _ => ty =? GL_FLOAT_VEC3
  | UVec4 _ => ty =? GL_FLOAT_VEC4
  | UMat2 _ _ _ _ => ty =? GL_FLOAT_MAT2
  | UMat3 _ => ty =? GL_FLOAT_MAT3
  | UMat4 _ => ty =? GL_FLOAT_MAT4
  end.

Definition as_u32 (c : cell) : option Z :=
  match c with U32 n => Some n | F32 _ => None end.

Definition as_f32 (c : cell) : option Q :=
  match c with F32 q => Some q | U32 _ => None end.

Definition cells_of_u32s (l : list Z) : list cell := U32 <$> l.

Definition cells_of_vec3s (l : list vec3) : list cell :=
  l ≫= (fun v => [F32 (x3 v); F32 (y3 v); F32 (z3 v)]).

Definition cells_of_vec4s (l : list vec4) : list cell :=
  l ≫= (fun v => [F32 (x4 v); F32 (y4 v); F32 (z4 v); F32 (w4 v)]).

Section Driver.
Context (E : Env).

(** [assert(b)]: checked in debug builds only. *)
Definition assert (b : bool) : M unit :=
  fun w => if debug_build E && negb b then AssertFailed w else Ok tt w.

Definition fresh_name : M Z :=
  fun w => Ok (next_name w) (set_next_name (next_name w + 1) w).

(** **** Shader and program objects *)

Definition glCreateShader (ty : shader_type) : M Z :=
  name ← fresh_name;
  modify (fun w => record (CreateShader ty name)
                     (set_shaders (<[name := (ty, EmptyString)]> (shaders w)) w));;
  mret name.

Definition glShaderSource (shader : Z) (source : string) : M unit :=
  modify (fun w => record (ShaderSource shader source)
                     (set_shaders (alter (fun s => (s.1, source)) shader (shaders w)) w)).

Definition glCompileShader (shader : Z) : M unit :=
  modify (record (CompileShaderCall shader)).

Definition compile_outcome (w : World) (shader : Z) : bool * string :=
  match shaders w !! shader with
  | Some (ty, source) => drv_compile E ty source
  | None => (false, EmptyString)
  end.

(** [glGetShaderiv(shader, GL_COMPILE_STATUS, ..)] *)
Definition glGetShader_COMPILE_STATUS (shader : Z) : M bool :=
  get (fun w => (compile_outcome w shader).1).

(** The stored length of an info log counts its terminating NUL; an empty
    log has length 0. *)
Definition info_log_length (s : string) : Z :=
  if String.eqb s EmptyString then 0 else Z.of_nat (String.length s) + 1.

(** [glGetShaderiv(shader, GL_INFO_LOG_LENGTH, ..)] *)
Definition glGetShader_INFO_LOG_LENGTH (shader : Z) : M Z :=
  get (fun w => info_log_length (compile_outcome w shader).2).

Definition glGetShaderInfoLog (shader : Z) : M string :=
  get (fun w => (compile_outcome w shader).2).

(** Deleting name 0 is silently ignored; a name that is no object raises
    [GL_INVALID_VALUE]. *)
Definition glDeleteShader (shader : Z) : M unit :=
  modify (fun w =>
    let w := record (DeleteShader shader) w in
    if shader =? 0 then w
    else match shaders w !! shader with
         | Some _ => set_shaders (delete shader (shaders w)) w
         | None => raise GL_INVALID_VALUE w
         end).

Definition glCreateProgram : M Z :=
  name ← fresh_name;
  modify (fun w => record (CreateProgram name)
                     (set_programs (<[name := mk_program_object [] None]> (programs w)) w));;
  mret name.

Definition glAttachShader (prog shader : Z) : M unit :=
  modify (fun w => record (AttachShader prog shader)
    (set_programs
       (alter (fun o => mk_program_object (attached o ++ [shader]) (linked_from o))
              prog (programs w)) w)).

(** The sources of the shaders attached to [prog]. *)
Definition attached_sources (w : World) (prog : Z) : list (shader_type * string) :=
  match programs w !! prog with
  | Some o => omap (fun s => shaders w !! s) (attached o)
  | None => []
  end.

Definition glLinkProgram (prog : Z) : M unit :=
  modify (fun w =>
    let srcs := attached_sources w prog in
    record (LinkProgram prog)
      (set_programs
         (alter (fun o => mk_program_object (attached o)
                            (if (drv_link E srcs).1 then Some srcs else None))
                prog (programs w)) w)).

Definition linked_sources (w : World) (prog : Z) : option (list (shader_type * string)) :=
  o ← programs w !! prog; linked_from o.

(** [glGetProgramiv(program, GL_LINK_STATUS, ..)] *)
Definition glGetProgram_LINK_STATUS (prog : Z) : M bool :=
  get (fun w => bool_decide (is_Some (linked_sources w prog))).

(** [glGetProgramInfoLog(program, maxLength, &len, buf)]: at most
    [maxLength - 1] characters are written, and [len] counts them. *)
Definition glGetProgramInfoLog (prog : Z) (maxLength : Z) : M (Z * string) :=
  get (fun w =>
    let s := (drv_link E (attached_sources w prog)).2 in
    let s := String.substring 0 (Z.to_nat (maxLength - 1)) s in
    (Z.of_nat (String.length s), s)).

Definition glDeleteProgram (prog : Z) : M unit :=
  modify (fun w =>
    let w := record (DeleteProgram prog) w in
    if prog =? 0 then w
    else match programs w !! prog with
         | Some _ => set_programs (delete prog (programs w)) w
         | None => raise GL_INVALID_VALUE w
         end).

(** [glGetActiveAttrib] for every index below [GL_ACTIVE_ATTRIBUTES]; each
    name is cut to fit a buffer of [bufSize] characters. *)
Definition glGetActiveAttribs (prog : Z) (bufSize : Z) : M (list (string * Z * Z)) :=
  get (fun w =>
    match linked_sources w prog with
    | Some srcs =>
        (fun '(n, sz, ty) => (String.substring 0 (Z.to_nat (bufSize - 1)) n, sz, ty))
          <$> drv_active_attribs E srcs
    | None => []
    end).

Definition glGetAttribLocation (prog : Z) (name : string) : M Z :=
  get (fun w => match linked_sources w prog with
                | Some srcs => drv_attrib_location E srcs name
                | None => -1
                end).

Definition glGetActiveUniforms (prog : Z) (bufSize : Z) : M (list (string * Z * Z)) :=
  get (fun w =>
    match linked_sources w prog with
    | Some srcs =>
        (fun '(n, sz, ty) => (String.substring 0 (Z.to_nat (bufSize - 1)) n, sz, ty))
          <$> drv_active_uniforms E srcs
    | None => []
    end).

Definition glGetUniformLocation (prog : Z) (name : string) : M Z :=
  get (fun w => match linked_sources w prog with
                | Some srcs => drv_uniform_location E srcs name
                | None => -1
                end).

(** [glUseProgram]: 0 unbinds; otherwise the program must be linked. *)
Definition glUseProgram (prog : Z) : M unit :=
  modify (fun w =>
    let w := record (UseProgram prog) w in
    if prog =? 0 then set_current_program 0 w
    else match programs w !! prog with
         | None => raise GL_INVALID_VALUE w
         | Some o => match linked_from o with
                     | Some _ => set_current_program prog w
                     | None => raise GL_INVALID_OPERATION w
                     end
         end).

(** The type of the active uniform of the current program that lives at
    [loc], if there is one. *)
Definition uniform_type_at (w : World) (loc : Z) : option Z :=
  srcs ← linked_sources w (current_program w);
  '(_, _, ty) ← List.find (fun '(n, _, _) => drv_uniform_location E srcs n =? loc)
                          (drv_active_uniforms E srcs);
  Some ty.

(** [glUniform*(loc, ..)]: location -1 is silently ignored; any other
    location must be that of an active uniform of the current program, of
    a type matching the call, or [GL_INVALID_OPERATION] is raised and
    nothing is stored. *)
Definition glUniform (loc : Z) (v : uval) : M unit :=
  modify (fun w =>
    let w := record (Uniform loc v) w in
    if loc =? -1 then w
    else match uniform_type_at w loc with
         | Some ty =>
             if uval_has_type v ty
             then set_uniform_vals (<[(current_program w, loc) := v]> (uniform_vals w)) w
             else raise GL_INVALID_OPERATION w
         | None => raise GL_INVALID_OPERATION w
         end).

End Driver.

End GL.

(* ===================================================================== *)
(** ** core/program.cpp                                                   *)
(* ===================================================================== *)

Module Log.
Import GL.

(** [Log::printf] with its arguments already substituted. *)
Definition printf (s : string) : M unit := modify (write_log s).

(** [std::cerr << ... << std::endl] *)
Definition cerr (s : string) : M unit := modify (write_log s).

End Log.

Module Program.
Import GL.

Definition nl : string := String "010"%char EmptyString.
Definition dq : string := String "034"%char EmptyString.

(** [struct Variable] of program.h *)
Record ProgVariable := mk_Variable { var_size : Z; var_type : Z; loc : Z }.

Record Program := mk_Program {
  program : Z;
  vertShader : Z;
  geomShader : Z;
  fragShader : Z;
  computeShader : Z;
  debugName : string;
  uniforms : gmap string ProgVariable;
  attribs : gmap string ProgVariable
}.

Definition set_program (v : Z) (p : Program) : Program :=
  mk_Program v (vertShader p) (geomShader p) (fragShader p) (computeShader p)
    (debugName p) (uniforms p) (attribs p).
Definition set_vertShader (v : Z) (p : Program) : Program :=
  mk_Program (program p) v (geomShader p) (fragShader p) (computeShader p)
    (debugName p) (uniforms p) (attribs p).
Definition set_geomShader (v : Z) (p : Program) : Program :=
  mk_Program (program p) (vertShader p) v (fragShader p) (computeShader p)
    (debugName p) (uniforms p) (attribs p).
Definition set_fragShader (v : Z) (p : Program) : Program :=
  mk_Program (program p) (vertShader p) (geomShader p) v (computeShader p)
    (debugName p) (uniforms p) (attribs p).
Definition set_computeShader (v : Z) (p : Program) : Program :=
  mk_Program (program p) (vertShader p) (geomShader p) (fragShader p) v
    (debugName p) (uniforms p) (attribs p).
Definition set_debugName (v : string) (p : Program) : Program :=
  mk_Program (program p) (vertShader p) (geomShader p) (fragShader p)
    (computeShader p) v (uniforms p) (attribs p).
Definition set_uniforms (v : gmap string ProgVariable) (p : Program) : Program :=
  mk_Program (program p) (vertShader p) (geomShader p) (fragShader p)
    (computeShader p) (debugName p) v (attribs p).
Definition set_attribs (v : gmap string ProgVariable) (p : Program) : Program :=
  mk_Program (program p) (vertShader p) (geomShader p) (fragShader p)
    (computeShader p) (debugName p) (uniforms p) v.

(** [std::getline] until the stream ends: the text between newlines, and no
    line for what follows the last newline when that is empty. *)
Fixpoint getlines_from (cur : string) (s : string) : list string :=
  match s with
  | EmptyString => if String.eqb cur EmptyString then [] else [cur]
  | String c s' =>
      if Ascii.eqb c "010"%char then cur :: getlines_from EmptyString s'
      else getlines_from (cur +:+ String c EmptyString) s'
  end.

Definition getlines (s : string) : list string := getlines_from EmptyString s.

(** ["%04d"] *)
Definition fmt_04d (i : Z) : string :=
  let d := pretty.pretty i in
  String.concat EmptyString (replicate (4 - String.length d) "0"%string) +:+ d.

Section WithEnv.
Context (E : Env).

(** program.cpp:16-18 *)
Definition WARNINGS_AS_ERRORS : bool := debug_build E.

(** [LoadFile] of util.h: fills [result] and answers [true] when the file
    can be read, leaves [result] as it was otherwise. *)
Definition LoadFile (filename : string) (result : string) : M (bool * string) :=
  mret (match files E !! filename with
        | Some text => (true, text)
        | None => (false, result)
        end).

(** program.cpp:20-31 *)
Fixpoint DumpShaderSource_lines (i : Z) (lines : list string) : M unit :=
  match lines with
  | [] => mret tt
  | line :: rest =>
      Log.printf (fmt_04d i +:+ ": " +:+ line +:+ nl);;
      DumpShaderSource_lines (i + 1) rest
  end.

Definition DumpShaderSource (source : string) : M unit :=
  DumpShaderSource_lines 1 (getlines source);;
  Log.printf nl.

(** program.cpp:33-76.  The second component is [*shaderOut], written only
    on success. *)
Definition CompileShader (type : shader_type) (source : string) (shaderOut : Z)
    (debugName : string) : M (bool * Z) :=
  shader ← glCreateShader type;
  glShaderSource shader source;;
  glCompileShader shader;;
  compiled ← glGetShader_COMPILE_STATUS E shader;
  when (negb compiled)
    (Log.printf ("shader compilation error for " +:+ dq +:+ debugName +:+ dq +:+ "!" +:+ nl));;
  bufferLen ← glGetShader_INFO_LOG_LENGTH E shader;
  when (1 <? bufferLen)
    (when compiled
       (Log.printf ("shader compilation warning for " +:+ dq +:+ debugName +:+ dq +:+ "!" +:+ nl));;
     buffer ← glGetShaderInfoLog E shader;
     Log.printf (buffer +:+ nl);;
     DumpShaderSource source);;
  if (if WARNINGS_AS_ERRORS then negb compiled || (1 <? bufferLen) else negb compiled)
  then mret (false, shaderOut)
  else mret (true, shader).

(** program.cpp:78-80.  [computeShader] is not in the initialiser list, so
    it starts with whatever value [indeterminate] the memory held. *)
Definition new (indeterminate : Z) : Program :=
  mk_Program 0 0 0 0 indeterminate EmptyString ∅ ∅.

(** program.cpp:362-379 *)
Definition Delete (p : Program) : M Program :=
  let p := set_debugName EmptyString p in
  glDeleteShader (vertShader p);;
  let p := set_vertShader 0 p in
  glDeleteShader (geomShader p);;
  let p := set_geomShader 0 p in
  glDeleteShader (fragShader p);;
  let p := set_fragShader 0 p in
  glDeleteShader (computeShader p);;
  let p := set_computeShader 0 p in
  glDeleteProgram (program p);;
  let p := set_program 0 p in
  let p := set_uniforms ∅ p in
  let p := set_attribs ∅ p in
  mret p.

(** program.cpp:381-414 *)
Definition CheckLinkStatus (p : Program) : M bool :=
  linked ← glGetProgram_LINK_STATUS (program p);
  when (negb linked)
    (Log.printf ("Failed to link shaders " +:+ dq +:+ debugName p +:+ dq +:+ nl));;
  let MAX_BUFFER_LEN := 4096 in
  '(bufferLen, buffer) ← glGetProgramInfoLog E (program p) MAX_BUFFER_LEN;
  when (0 <? bufferLen)
    (when linked
       (Log.printf ("Warning during linking shaders " +:+ dq +:+ debugName p +:+ dq +:+ nl));;
     Log.printf (buffer +:+ nl));;
  if (if WARNINGS_AS_ERRORS then negb linked || (1 <? bufferLen) else negb linked)
  then mret false
  else mret true.

Definition MAX_NAME_SIZE : Z := 1028.

(** program.cpp:182-191: the loop over the active attributes. *)
Fixpoint reflect_attribs (prog : Z) (active : list (string * Z * Z))
    (attribs : gmap string ProgVariable) : M (gmap string ProgVariable) :=
  match active with
  | [] => mret attribs
  | (name, sz, ty) :: rest =>
      l ← glGetAttribLocation E prog name;
      reflect_attribs prog rest (<[name := mk_Variable sz ty l]> attribs)
  end.

(** program.cpp:193-203 and 246-256: the loop over the active uniforms. *)
Fixpoint reflect_uniforms (prog : Z) (active : list (string * Z * Z))
    (uniforms : gmap string ProgVariable) : M (gmap string ProgVariable) :=
  match active with
  | [] => mret uniforms
  | (name, sz, ty) :: rest =>
      l ← glGetUniformLocation E prog name;
      reflect_uniforms prog rest (<[name := mk_Variable sz ty l]> uniforms)
  end.

(** program.cpp:92-206 *)
Definition LoadVertGeomFrag (p : Program) (vertFilename geomFilename fragFilename : string)
    : M (bool * Program) :=
  (* Delete old shader/program *)
  p ← Delete p;
  let useGeomShader := negb (String.eqb geomFilename EmptyString) in
  let p := set_debugName
             (if useGeomShader
              then vertFilename +:+ " + " +:+ geomFilename +:+ " + " +:+ fragFilename
              else vertFilename +:+ " + " +:+ fragFilename) p in
  '(ok, vertSource) ← LoadFile vertFilename EmptyString;
  if negb ok then
    Log.printf ("Failed to load vertex shader " +:+ vertFilename +:+ nl);;
    mret (false, p)
  else
  '(ok, geomSource) ← (if useGeomShader then LoadFile geomFilename EmptyString
                       else mret (true, EmptyString));
  if negb ok then
    Log.printf ("Failed to load geometry shader " +:+ geomFilename +:+ nl);;
    mret (false, p)
  else
  '(ok, fragSource) ← LoadFile fragFilename EmptyString;
  if negb ok then
    Log.printf ("Failed to load fragment shader " +:+ dq +:+ fragFilename +:+ dq +:+ nl);;
    mret (false, p)
  else
  '(ok, sh) ← CompileShader GL_VERTEX_SHADER vertSource (vertShader p) vertFilename;
  let p := set_vertShader sh p in
  if negb ok then
    Log.printf ("Failed to compile vertex shader " +:+ dq +:+ vertFilename +:+ dq +:+ nl);;
    mret (false, p)
  else
  '(ok, sh) ← (if useGeomShader
               then CompileShader GL_GEOMETRY_SHADER geomSource (geomShader p) geomFilename
               else mret (true, geomShader p));
  let p := set_geomShader sh p in
  if negb ok then
    Log.printf ("Failed to compile geometry shader " +:+ dq +:+ geomFilename +:+ dq +:+ nl);;
    mret (false, p)
  else
  '(ok, sh) ← CompileShader GL_FRAGMENT_SHADER fragSource (fragShader p) fragFilename;
  let p := set_fragShader sh p in
  if negb ok then
    Log.printf ("Failed to compile fragment shader " +:+ dq +:+ fragFilename +:+ dq +:+ nl);;
    mret (false, p)
  else
  prog ← glCreateProgram;
  let p := set_program prog p in
  glAttachShader (program p) (vertShader p);;
  glAttachShader (program p) (fragShader p);;
  when useGeomShader (glAttachShader (program p) (geomShader p));;
  glLinkProgram E (program p);;
  linked ← CheckLinkStatus p;
  if negb linked then
    Log.printf ("Failed to link program " +:+ dq +:+ debugName p +:+ dq +:+ nl);;
    (* dump shader source for reference *)
    Log.printf nl;;
    Log.printf (vertFilename +:+ " =" +:+ nl);;
    DumpShaderSource vertSource;;
    when useGeomShader
      (Log.printf (geomFilename +:+ " =" +:+ nl);;
       DumpShaderSource geomSource);;
    Log.printf (fragFilename +:+ " =" +:+ nl);;
    DumpShaderSource fragSource;;
    mret (false, p)
  else
  active ← glGetActiveAttribs E (program p) MAX_NAME_SIZE;
  a ← reflect_attribs (program p) active (attribs p);
  let p := set_attribs a p in
  active ← glGetActiveUniforms E (program p) MAX_NAME_SIZE;
  u ← reflect_uniforms (program p) active (uniforms p);
  let p := set_uniforms u p in
  mret (true, p).

(** program.cpp:87-90 *)
Definition LoadVertFrag (p : Program) (vertFilename fragFilename : string)
    : M (bool * Program) :=
  LoadVertGeomFrag p vertFilename EmptyString fragFilename.

(** program.cpp:208-261.  A failed [LoadFile] is logged and the function
    carries on (line 216-219 has no [return]). *)
Definition LoadCompute (p : Program) (computeFilename : string) : M (bool * Program) :=
  (* Delete old shader/program *)
  p ← Delete p;
  let p := set_debugName computeFilename p in
  '(ok, computeSource) ← LoadFile computeFilename EmptyString;
  when (negb ok)
    (Log.printf ("Failed to load compute shader " +:+ computeFilename +:+ nl));;
  '(ok, sh) ← CompileShader GL_COMPUTE_SHADER computeSource (computeShader p) computeFilename;
  let p := set_computeShader sh p in
  if negb ok then
    Log.printf ("Failed to compile compute shader " +:+ computeFilename +:+ nl);;
    mret (false, p)
  else
  prog ← glCreateProgram;
  let p := set_program prog p in
  glAttachShader (program p) (computeShader p);;
  glLinkProgram E (program p);;
  linked ← CheckLinkStatus p;
  if negb linked then
    Log.printf ("Failed to link program " +:+ dq +:+ debugName p +:+ dq +:+ nl);;
    (* dump shader source for reference *)
    Log.printf nl;;
    Log.printf (computeFilename +:+ " =" +:+ nl);;
    DumpShaderSource computeSource;;
    mret (false, p)
  else
  active ← glGetActiveUniforms E (program p) MAX_NAME_SIZE;
  u ← reflect_uniforms (program p) active (uniforms p);
  let p := set_uniforms u p in
  mret (true, p).

(** program.cpp:263-266 *)
Definition Bind (p : Program) : M unit := glUseProgram (program p).

(** program.cpp:268-281.  The [assert] comes before the message. *)
Definition GetUniformLoc (p : Program) (name : string) : M Z :=
  match uniforms p !! name with
  | Some v => mret (loc v)
  | None =>
      assert E false;;
      Log.cerr ("could not find uniform " +:+ name +:+ " for program " +:+ debugName p +:+ nl);;
      mret 0
  end.

(** program.cpp:283-296.  The message comes before the [assert]. *)
Definition GetAttribLoc (p : Program) (name : string) : M Z :=
  match attribs p !! name with
  | Some v => mret (loc v)
  | None =>
      Log.cerr ("could not find attrib " +:+ name +:+ " for program " +:+ debugName p +:+ nl);;
      assert E false;;
      mret 0
  end.

(** program.cpp:298-336: the eight overloads of [SetUniform(int loc, ..)],
    each one [glUniform*] call. *)
Definition SetUniformLoc (loc : Z) (value : uval) : M unit := glUniform E loc value.

(** Modelled from the spec: [SetUniform(name, value)] is a template of
    program.h, which is not among the sources.  Sections 6 and 7 of the
    spec describe it as name resolution followed by the device call: an
    unresolved name asserts in debug builds and otherwise goes on with the
    location the lookup fell back to. *)
Definition SetUniform (p : Program) (name : string) (value : uval) : M unit :=
  l ← GetUniformLoc p name;
  SetUniformLoc l value.

End WithEnv.

End Program.

(* ===================================================================== *)
(** ** Buffers, the sorter and the pre-sort kernel                        *)
(* ===================================================================== *)

Module radix_sort.

(** Modelled from the spec: [rgc::radix_sort::sorter] of radix_sort.hpp is
    not among the sources.  Section 4.2 of the spec gives its contract: the
    [count] key/value pairs come back ascending by key, every value
    following its key; nothing is promised about equal keys.  Any function
    on the pairs that meets the contract is a sorter. *)
Class ParallelSorter := mk_ParallelSorter {
  sort_pairs : list (Z * Z) -> list (Z * Z);
  sort_pairs_perm : forall l, sort_pairs l ≡ₚ l;
  sort_pairs_sorted : forall l, StronglySorted (fun a b => a.1 <= b.1) (sort_pairs l)
}.

(** [sorter(max_count)]: the scratch space is sized once. *)
Record sorter := mk_sorter { max_count : Z }.

End radix_sort.

Module Device.
Import Num glm GL radix_sort.

Definition glGenBuffer : M Z :=
  name ← fresh_name;
  modify (record (GenBuffer name));;
  mret name.

Definition glBufferData (buf : Z) (data : list cell) (dynamic : bool) : M unit :=
  modify (fun w => record (BufferData buf data dynamic)
                     (set_buffers (<[buf := data]> (buffers w)) w)).

Definition bind_point (tgt : target) (buf : Z) (b : target -> Z) : target -> Z :=
  fun t => if decide (t = tgt) then buf else b t.

Definition glBindBuffer (tgt : target) (buf : Z) : M unit :=
  modify (fun w => record (BindBuffer tgt buf) (set_bound (bind_point tgt buf (bound w)) w)).

(** Only [GL_SHADER_STORAGE_BUFFER] is used indexed; the call also sets the
    generic binding point of the target. *)
Definition glBindBufferBase (tgt : target) (index : Z) (buf : Z) : M unit :=
  modify (fun w => record (BindBufferBase tgt index buf)
                     (set_ssbo (<[index := buf]> (ssbo w))
                        (set_bound (bind_point tgt buf (bound w)) w))).

Definition glMemoryBarrier : M unit := modify (record MemoryBarrier).

Definition byte_length (l : list cell) : Z := cell_size * Z.of_nat (length l).

(** [glCopyBufferSubData]: a copy inside the GL, from the buffer bound to
    [rd] into the buffer bound to [wr].  A range outside either buffer, or
    overlapping ranges of one buffer, raise [GL_INVALID_VALUE]; a target
    with no buffer bound raises [GL_INVALID_OPERATION]; nothing is copied
    then.  Storage is kept in 4-byte cells, so ranges that are not
    multiples of 4 are outside the model. *)
Definition glCopyBufferSubData (rd wr : target) (roff woff size : Z) : M unit :=
  fun w =>
    let w := record (CopyBufferSubData rd wr roff woff size) w in
    match buffers w !! bound w rd, buffers w !! bound w wr with
    | Some src, Some dst =>
        if (roff <? 0) || (woff <? 0) || (size <? 0)
           || (byte_length src <? roff + size) || (byte_length dst <? woff + size)
           || ((bound w rd =? bound w wr) && (roff <? woff + size) && (woff <? roff + size))
        then Ok tt (raise GL_INVALID_VALUE w)
        else if (roff mod cell_size =? 0) && (woff mod cell_size =? 0)
                && (size mod cell_size =? 0)
        then
          let n := Z.to_nat (size / cell_size) in
          let ro := Z.to_nat (roff / cell_size) in
          let wo := Z.to_nat (woff / cell_size) in
          Ok tt (set_buffers
                   (<[bound w wr := take wo dst ++ take n (drop ro src) ++ drop (wo + n)%nat dst]>
                      (buffers w)) w)
        else Undefined
    | _, _ => Ok tt (raise GL_INVALID_OPERATION w)
    end.

(** [sorter::sort(key_buf, val_buf, count)].  Sorting more pairs than the
    sorter was sized for, or than the buffers hold, is undefined. *)
Definition sort `{ParallelSorter} (s : sorter) (key_buf val_buf : Z) (count : Z) : M unit :=
  fun w =>
    match buffers w !! key_buf, buffers w !! val_buf with
    | Some kc, Some vc =>
        let n := Z.to_nat count in
        if key_buf =? val_buf then Undefined
        else if (0 <=? count) && (count <=? max_count s)
           && (count <=? Z.of_nat (length kc)) && (count <=? Z.of_nat (length vc))
        then
          match mapM as_u32 (take n kc), mapM as_u32 (take n vc) with
          | Some ks, Some vs =>
              let sorted := sort_pairs (zip ks vs) in
              Ok tt (record (RadixSort key_buf val_buf count)
                       (set_buffers
                          (<[key_buf := cells_of_u32s (sorted.*1) ++ drop n kc]>
                             (<[val_buf := cells_of_u32s (sorted.*2) ++ drop n vc]>
                                (buffers w))) w))
          | _, _ => Undefined
          end
        else Undefined
    | _, _ => Undefined
    end.

(** *** The pre-sort compute kernel *)

Definition LOCAL_SIZE : Z := 256.

(** The [xyz] of element [idx] of a [vec4] array. *)
Definition read_position (pos : list cell) (idx : nat) : option vec3 :=
  x ← pos !! (4 * idx)%nat ≫= as_f32;
  y ← pos !! (4 * idx + 1)%nat ≫= as_f32;
  z ← pos !! (4 * idx + 2)%nat ≫= as_f32;
  Some (mk_vec3 x y z).

(** Modelled from the spec: shader/presort_compute.glsl is not among the
    sources.  Section 4.1 of the spec: each invocation reads one position,
    computes [dot(position - eye, forward)], writes the quantised key and
    its own index as the value; invocations beyond the number of positions
    are guarded and write nothing.  A store outside the key or value buffer
    would be undefined ([None]). *)
Definition presort_invocation (forward eye : vec3) (pos : list cell) (idx : nat)
    (kv : list cell * list cell) : option (list cell * list cell) :=
  if (idx <? length pos / 4)%nat then
    p ← read_position pos idx;
    if (idx <? length kv.1)%nat && (idx <? length kv.2)%nat
    then Some (<[idx := U32 (DepthKey.key_of eye forward p)]> kv.1,
               <[idx := U32 (Z.of_nat idx)]> kv.2)
    else None
  else Some kv.

(** All invocations [idx, idx + 1, .., idx + n - 1] of one dispatch.  They
    are independent of each other, so the order does not matter. *)
Fixpoint presort_invocations (forward eye : vec3) (pos : list cell) (n : nat) (idx : nat)
    (kv : list cell * list cell) : option (list cell * list cell) :=
  match n with
  | O => Some kv
  | S n' =>
      kv' ← presort_invocation forward eye pos idx kv;
      presort_invocations forward eye pos n' (S idx) kv'
  end.

Section Dispatch.
Context (E : Env).

Definition uniform_vec3 (w : World) (name : string) : vec3 :=
  match linked_sources w (current_program w) with
  | Some srcs =>
      match uniform_vals w !! (current_program w, drv_uniform_location E srcs name) with
      | Some (UVec3 v) => v
      | _ => mk_vec3 0 0 0
      end
  | None => mk_vec3 0 0 0
  end.

(** [glDispatchCompute(gx, gy, gz)] with the pre-sort program current: the
    kernel runs [gx * LOCAL_SIZE] invocations along x (it reads only the x
    component of its global id) on the storage buffers bound at 0
    (positions), 1 (keys) and 2 (values). *)
Definition glDispatchCompute (gx gy gz : Z) : M unit :=
  fun w =>
    let w := record (DispatchCompute gx gy gz) w in
    match linked_sources w (current_program w) with
    | None => Ok tt (raise GL_INVALID_OPERATION w)
    | Some srcs =>
        if bool_decide (GL_COMPUTE_SHADER ∈ srcs.*1) then
          if (gx <=? 0) || (gy <=? 0) || (gz <=? 0) then Ok tt w
          else
            match ssbo w !! 0, ssbo w !! 1, ssbo w !! 2 with
            | Some pb, Some kb, Some vb =>
                match buffers w !! pb, buffers w !! kb, buffers w !! vb with
                | Some pos, Some keys, Some vals =>
                    match presort_invocations (uniform_vec3 w "forward") (uniform_vec3 w "eye")
                            pos (Z.to_nat (gx * LOCAL_SIZE)) 0 (keys, vals) with
                    | Some (keys', vals') =>
                        Ok tt (set_buffers (<[kb := keys']> (<[vb := vals']> (buffers w))) w)
                    | None => Undefined
                    end
                | _, _, _ => Undefined
                end
            | _, _, _ => Undefined
            end
        else Ok tt (raise GL_INVALID_OPERATION w)
    end.

End Dispatch.

(** *** [BufferObject] and [VertexArrayObject] *)

(** Modelled from the spec: bufferobject.h is not among the sources.
    Section 4.3 of the spec: [DeviceBuffer(usageHint, hostArray)] creates
    and uploads a buffer sized to the host array, and [update(hostArray)]
    requires the element count of the creation and replaces the content. *)
Record BufferObject := mk_BufferObject {
  bo_target : target;
  obj : Z;
  bo_cells : nat
}.

Definition new_BufferObject (tgt : target) (data : list cell) (isDynamic : bool)
    : M BufferObject :=
  name ← glGenBuffer;
  glBufferData name data isDynamic;;
  mret (mk_BufferObject tgt name (length data)).

Definition GetObj (b : BufferObject) : Z := obj b.

Definition Update (b : BufferObject) (data : list cell) : M unit :=
  fun w =>
    match buffers w !! obj b with
    | Some old =>
        if bool_decide (length data = length old)
        then Ok tt (record (BufferSubData (obj b) data)
                      (set_buffers (<[obj b := data]> (buffers w)) w))
        else Undefined
    | None => Undefined
    end.

(** Modelled from the spec: vertexarrayobject.h is not among the sources.
    Section 4.3 of the spec: the binding ties attribute slots to buffers,
    owns one index buffer, and [drawIndexed] issues exactly one draw call
    over the whole index buffer. *)
Record VertexArrayObject := mk_VertexArrayObject {
  attribBuffers : list (Z * BufferObject);
  elementBuffer : option BufferObject
}.

Definition new_VertexArrayObject : VertexArrayObject := mk_VertexArrayObject [] None.

Definition SetAttribBuffer (vao : VertexArrayObject) (loc : Z) (b : BufferObject)
    : VertexArrayObject :=
  mk_VertexArrayObject (attribBuffers vao ++ [(loc, b)]) (elementBuffer vao).

Definition SetElementBuffer (vao : VertexArrayObject) (b : BufferObject)
    : VertexArrayObject :=
  mk_VertexArrayObject (attribBuffers vao) (Some b).

(** A null [shared_ptr] dereferenced. *)
Definition deref {A} (p : option A) : M A :=
  match p with Some a => mret a | None => undefined end.

Definition DrawElements (vao : VertexArrayObject) : M unit :=
  eb ← deref (elementBuffer vao);
  modify (record (GL.DrawElements (obj eb) (Z.of_nat (bo_cells eb)))).

(** [Image::Load] and [Texture::Texture] of image.h and texture.h, as far
    as the renderers look at them: whether the file loads, and the name of
    the texture made from it. *)
Definition Image_Load (E : Env) (filename : string) : M bool :=
  mret (bool_decide (filename ∈ images E)).

Definition new_Texture : M Z :=
  name ← fresh_name;
  modify (record (GenTexture name));;
  mret name.

Definition glActiveTexture (texunit : Z) : M unit := modify (record (ActiveTexture texunit)).
Definition glBindTexture (tex : Z) : M unit := modify (record (BindTexture tex)).

End Device.

(* ===================================================================== *)
(** ** splatrenderer.cpp                                                  *)
(* ===================================================================== *)

Module SplatRenderer.
Import Num glm GL radix_sort Device.

(** One element of [GaussianCloud::GetGaussianVec()], as far as the
    renderer reads it; [covMat] is the value of [g.ComputeCovMat()]. *)
Record Gaussian := mk_Gaussian {
  position : vec3;
  f_dc : vec3;
  opacity : Q;
  covMat : mat3
}.

Record SplatRenderer := mk_SplatRenderer {
  splatProg : option Program.Program;
  splatVao : option VertexArrayObject;
  positionVec : list vec3;
  depthVec : list Z;
  indexVec : list Z;
  keyBuffer : option BufferObject;
  valBuffer : option BufferObject;
  sorter : option radix_sort.sorter
}.

Definition set_splatProg v (r : SplatRenderer) : SplatRenderer :=
  mk_SplatRenderer v (splatVao r) (positionVec r) (depthVec r) (indexVec r)
    (keyBuffer r) (valBuffer r) (sorter r).
Definition set_splatVao v (r : SplatRenderer) : SplatRenderer :=
  mk_SplatRenderer (splatProg r) v (positionVec r) (depthVec r) (indexVec r)
    (keyBuffer r) (valBuffer r) (sorter r).
Definition set_positionVec v (r : SplatRenderer) : SplatRenderer :=
  mk_SplatRenderer (splatProg r) (splatVao r) v (depthVec r) (indexVec r)
    (keyBuffer r) (valBuffer r) (sorter r).
Definition set_depthVec v (r : SplatRenderer) : SplatRenderer :=
  mk_SplatRenderer (splatProg r) (splatVao r) (positionVec r) v (indexVec r)
    (keyBuffer r) (valBuffer r) (sorter r).
Definition set_indexVec v (r : SplatRenderer) : SplatRenderer :=
  mk_SplatRenderer (splatProg r) (splatVao r) (positionVec r) (depthVec r) v
    (keyBuffer r) (valBuffer r) (sorter r).
Definition set_keyBuffer v (r : SplatRenderer) : SplatRenderer :=
  mk_SplatRenderer (splatProg r) (splatVao r) (positionVec r) (depthVec r) (indexVec r)
    v (valBuffer r) (sorter r).
Definition set_valBuffer v (r : SplatRenderer) : SplatRenderer :=
  mk_SplatRenderer (splatProg r) (splatVao r) (positionVec r) (depthVec r) (indexVec r)
    (keyBuffer r) v (sorter r).
Definition set_sorter v (r : SplatRenderer) : SplatRenderer :=
  mk_SplatRenderer (splatProg r) (splatVao r) (positionVec r) (depthVec r) (indexVec r)
    (keyBuffer r) (valBuffer r) v.

(** splatrenderer.cpp:12-14: every pointer null, every vector empty. *)
Definition new : SplatRenderer := mk_SplatRenderer None None [] [] [] None None None.

(** [v.resize(n)] for a vector of [uint32_t]. *)
Definition resize (n : nat) (v : list Z) : list Z :=
  take n v ++ replicate (n - length v) 0.

Definition SH_C0 : Q := 28209479177387814 # 100000000000000000.

Section WithEnv.
Context (E : Env) `{!ParallelSorter}.

(** splatrenderer.cpp:124-127 *)
Definition color_of (g : Gaussian) : vec4 :=
  let alpha := (1 / (1 + expf E (- opacity g)))%Q in
  mk_vec4 (0.5 + SH_C0 * x3 (f_dc g))%Q (0.5 + SH_C0 * y3 (f_dc g))%Q
          (0.5 + SH_C0 * z3 (f_dc g))%Q alpha.

(** splatrenderer.cpp:101-158 *)
Definition BuildVertexArrayObject (r : SplatRenderer) (gaussianCloud : list Gaussian)
    : M SplatRenderer :=
  let vao := new_VertexArrayObject in
  (* convert gaussianCloud data into buffers *)
  let numPoints := Z.of_nat (length gaussianCloud) in
  let r := set_positionVec (positionVec r ++ (position <$> gaussianCloud)) r in
  let colorVec := color_of <$> gaussianCloud in
  let cov3_col0Vec := (fun g => m3c0 (covMat g)) <$> gaussianCloud in
  let cov3_col1Vec := (fun g => m3c1 (covMat g)) <$> gaussianCloud in
  let cov3_col2Vec := (fun g => m3c2 (covMat g)) <$> gaussianCloud in
  positionBuffer ← new_BufferObject GL_ARRAY_BUFFER (cells_of_vec3s (positionVec r)) false;
  colorBuffer ← new_BufferObject GL_ARRAY_BUFFER (cells_of_vec4s colorVec) false;
  cov3_col0Buffer ← new_BufferObject GL_ARRAY_BUFFER (cells_of_vec3s cov3_col0Vec) false;
  cov3_col1Buffer ← new_BufferObject GL_ARRAY_BUFFER (cells_of_vec3s cov3_col1Vec) false;
  cov3_col2Buffer ← new_BufferObject GL_ARRAY_BUFFER (cells_of_vec3s cov3_col2Vec) false;
  (* build element array *)
  assert E (numPoints <=? UINT32_MAX);;
  let r := set_indexVec (indexVec r ++ seqZ 0 (size_to_uint32 numPoints)) r in
  indexBuffer ← new_BufferObject GL_ELEMENT_ARRAY_BUFFER (cells_of_u32s (indexVec r)) true;
  (* setup vertex array object with buffers *)
  prog ← deref (splatProg r);
  l ← Program.GetAttribLoc E prog "position";
  let vao := SetAttribBuffer vao l positionBuffer in
  l ← Program.GetAttribLoc E prog "color";
  let vao := SetAttribBuffer vao l colorBuffer in
  l ← Program.GetAttribLoc E prog "cov3_col0";
  let vao := SetAttribBuffer vao l cov3_col0Buffer in
  l ← Program.GetAttribLoc E prog "cov3_col1";
  let vao := SetAttribBuffer vao l cov3_col1Buffer in
  l ← Program.GetAttribLoc E prog "cov3_col2";
  let vao := SetAttribBuffer vao l cov3_col2Buffer in
  let vao := SetElementBuffer vao indexBuffer in
  mret (set_splatVao (Some vao) r).

(** splatrenderer.cpp:20-36.  [indeterminate] is the initial content of the
    new program's [computeShader] member. *)
Definition Init (indeterminate : Z) (r : SplatRenderer) (gaussianCloud : list Gaussian)
    : M (bool * SplatRenderer) :=
  '(ok, prog) ← Program.LoadVertGeomFrag E (Program.new indeterminate)
                  "shader/splat_vert.glsl" "shader/splat_geom.glsl" "shader/splat_frag.glsl";
  let r := set_splatProg (Some prog) r in
  if negb ok then
    Log.printf ("Error loading splat shaders!" +:+ Program.nl);;
    mret (false, r)
  else
  r ← BuildVertexArrayObject r gaussianCloud;
  let r := set_depthVec (resize (length gaussianCloud) (depthVec r)) r in
  kb ← new_BufferObject GL_SHADER_STORAGE_BUFFER (cells_of_u32s (depthVec r)) true;
  let r := set_keyBuffer (Some kb) r in
  vb ← new_BufferObject GL_SHADER_STORAGE_BUFFER (cells_of_u32s (indexVec r)) true;
  let r := set_valBuffer (Some vb) r in
  let r := set_sorter (Some (mk_sorter (Z.of_nat (length gaussianCloud)))) r in
  mret (true, r).

(** splatrenderer.cpp:54-59: [n] iterations starting at index [i]. *)
Fixpoint build_vecs_loop (eye forward : vec3) (positionVec : list vec3) (n i : nat)
    (dv iv : list Z) : option (list Z * list Z) :=
  match n with
  | O => Some (dv, iv)
  | S n' =>
      p ← positionVec !! i;
      let depth := DepthKey.depth_of eye forward p in
      if (i <? length dv)%nat && (i <? length iv)%nat
      then build_vecs_loop eye forward positionVec n' (S i)
             (<[i := DepthKey.quantize depth]> dv)
             (<[i := size_to_uint32 (Z.of_nat i)]> iv)
      else None
  end.

(** splatrenderer.cpp:45-60, the block "build vecs" *)
Definition build_vecs (r : SplatRenderer) (cameraMat : mat4) : M SplatRenderer :=
  let numPoints := length (positionVec r) in
  (* transform forward vector into world space *)
  let forward := DepthKey.forward_of cameraMat in
  let eye := DepthKey.eye_of cameraMat in
  match build_vecs_loop eye forward (positionVec r) numPoints 0 (depthVec r) (indexVec r) with
  | Some (dv, iv) => mret (set_depthVec dv (set_indexVec iv r))
  | None => undefined
  end.

(** splatrenderer.cpp:62-67, the block "update buffers" *)
Definition update_buffers (r : SplatRenderer) : M unit :=
  kb ← deref (keyBuffer r);
  Update kb (cells_of_u32s (depthVec r));;
  vb ← deref (valBuffer r);
  Update vb (cells_of_u32s (indexVec r)).

(** splatrenderer.cpp:69-73, the block "sort" *)
Definition sort_block (r : SplatRenderer) (numPoints : Z) : M unit :=
  s ← deref (sorter r);
  kb ← deref (keyBuffer r);
  vb ← deref (valBuffer r);
  Device.sort s (GetObj kb) (GetObj vb) numPoints.

(** splatrenderer.cpp:75-81, the block "copy sorted indices" *)
Definition copy_sorted_indices (r : SplatRenderer) (numPoints : Z) : M unit :=
  vb ← deref (valBuffer r);
  glBindBuffer GL_COPY_READ_BUFFER (GetObj vb);;
  vao ← deref (splatVao r);
  eb ← deref (elementBuffer vao);
  glBindBuffer GL_COPY_WRITE_BUFFER (GetObj eb);;
  glCopyBufferSubData GL_COPY_READ_BUFFER GL_COPY_WRITE_BUFFER 0 0
    (wrap64 (numPoints * sizeof_uint32)).

(** splatrenderer.cpp:83-98, the block "draw" *)
Definition draw (r : SplatRenderer) (cameraMat : mat4) (viewport : vec4) (nearFar : Q * Q)
    (fovy : Q) : M unit :=
  let width := z4 viewport in
  let height := w4 viewport in
  let aspectRatio := (width / height)%Q in
  let viewMat := inverse E cameraMat in
  let projMat := perspective E fovy aspectRatio nearFar.1 nearFar.2 in
  prog ← deref (splatProg r);
  Program.Bind prog;;
  Program.SetUniform E prog "viewMat" (UMat4 viewMat);;
  Program.SetUniform E prog "projMat" (UMat4 projMat);;
  Program.SetUniform E prog "projParams"
    (UVec4 (mk_vec4 (height / tanf E (fovy / 2))%Q nearFar.1 nearFar.2 0));;
  Program.SetUniform E prog "viewport" (UVec4 viewport);;
  vao ← deref (splatVao r);
  DrawElements vao.

(** splatrenderer.cpp:38-99 *)
Definition Render (r : SplatRenderer) (cameraMat : mat4) (viewport : vec4)
    (nearFar : Q * Q) (fovy : Q) : M SplatRenderer :=
  let numPoints := Z.of_nat (length (positionVec r)) in
  r ← build_vecs r cameraMat;
  update_buffers r;;
  sort_block r numPoints;;
  copy_sorted_indices r numPoints;;
  draw r cameraMat viewport nearFar fovy;;
  mret r.

End WithEnv.

End SplatRenderer.

(* ===================================================================== *)
(** ** pointrenderer.cpp                                                  *)
(* ===================================================================== *)

Module PointRenderer.
Import Num glm GL radix_sort Device.

(** One element of [PointCloud::GetPointVec()]: three floats and three
    [uint8_t] colour channels. *)
Record Point := mk_Point {
  position : vec3;
  color : Z * Z * Z
}.

Record PointRenderer := mk_PointRenderer {
  pointTex : option Z;
  pointProg : option Program.Program;
  preSortProg : option Program.Program;
  pointVao : option VertexArrayObject;
  posVec : list vec4;
  depthVec : list Z;
  indexVec : list Z;
  keyBuffer : option BufferObject;
  valBuffer : option BufferObject;
  posBuffer : option BufferObject;
  sorter : option radix_sort.sorter
}.

Definition set_pointTex v (r : PointRenderer) : PointRenderer :=
  mk_PointRenderer v (pointProg r) (preSortProg r) (pointVao r) (posVec r) (depthVec r)
    (indexVec r) (keyBuffer r) (valBuffer r) (posBuffer r) (sorter r).
Definition set_pointProg v (r : PointRenderer) : PointRenderer :=
  mk_PointRenderer (pointTex r) v (preSortProg r) (pointVao r) (posVec r) (depthVec r)
    (indexVec r) (keyBuffer r) (valBuffer r) (posBuffer r) (sorter r).
Definition set_preSortProg v (r : PointRenderer) : PointRenderer :=
  mk_PointRenderer (pointTex r) (pointProg r) v (pointVao r) (posVec r) (depthVec r)
    (indexVec r) (keyBuffer r) (valBuffer r) (posBuffer r) (sorter r).
Definition set_pointVao v (r : PointRenderer) : PointRenderer :=
  mk_PointRenderer (pointTex r) (pointProg r) (preSortProg r) v (posVec r) (depthVec r)
    (indexVec r) (keyBuffer r) (valBuffer r) (posBuffer r) (sorter r).
Definition set_posVec v (r : PointRenderer) : PointRenderer :=
  mk_PointRenderer (pointTex r) (pointProg r) (preSortProg r) (pointVao r) v (depthVec r)
    (indexVec r) (keyBuffer r) (valBuffer r) (posBuffer r) (sorter r).
Definition set_depthVec v (r : PointRenderer) : PointRenderer :=
  mk_PointRenderer (pointTex r) (pointProg r) (preSortProg r) (pointVao r) (posVec r) v
    (indexVec r) (keyBuffer r) (valBuffer r) (posBuffer r) (sorter r).
Definition set_indexVec v (r : PointRenderer) : PointRenderer :=
  mk_PointRenderer (pointTex r) (pointProg r) (preSortProg r) (pointVao r) (posVec r)
    (depthVec r) v (keyBuffer r) (valBuffer r) (posBuffer r) (sorter r).
Definition set_keyBuffer v (r : PointRenderer) : PointRenderer :=
  mk_PointRenderer (pointTex r) (pointProg r) (preSortProg r) (pointVao r) (posVec r)
    (depthVec r) (indexVec r) v (valBuffer r) (posBuffer r) (sorter r).
Definition set_valBuffer v (r : PointRenderer) : PointRenderer :=
  mk_PointRenderer (pointTex r) (pointProg r) (preSortProg r) (pointVao r) (posVec r)
    (depthVec r) (indexVec r) (keyBuffer r) v (posBuffer r) (sorter r).
Definition set_posBuffer v (r : PointRenderer) : PointRenderer :=
  mk_PointRenderer (pointTex r) (pointProg r) (preSortProg r) (pointVao r) (posVec r)
    (depthVec r) (indexVec r) (keyBuffer r) (valBuffer r) v (sorter r).
Definition set_sorter v (r : PointRenderer) : PointRenderer :=
  mk_PointRenderer (pointTex r) (pointProg r) (preSortProg r) (pointVao r) (posVec r)
    (depthVec r) (indexVec r) (keyBuffer r) (valBuffer r) (posBuffer r) v.

(** pointrenderer.cpp:12-14 *)
Definition new : PointRenderer :=
  mk_PointRenderer None None None None [] [] [] None None None None.

(** pointrenderer.cpp:77-78: [((GLuint)numPoints + (LOCAL_SIZE - 1)) /
    LOCAL_SIZE], computed in 32-bit unsigned arithmetic. *)
Definition num_groups (numPoints : Z) : Z :=
  wrap32 (wrap32 numPoints + (LOCAL_SIZE - 1)) / LOCAL_SIZE.

Section WithEnv.
Context (E : Env) `{!ParallelSorter}.

(** pointrenderer.cpp:130-131 *)
Definition pos_of (p : Point) : vec4 :=
  mk_vec4 (x3 (position p)) (y3 (position p)) (z3 (position p)) 1.

Definition color_of (p : Point) : vec4 :=
  let '(cr, cg, cb) := color p in
  mk_vec4 (inject_Z cr / 255)%Q (inject_Z cg / 255)%Q (inject_Z cb / 255)%Q 1.

(** pointrenderer.cpp:118-149 *)
Definition BuildVertexArrayObject (r : PointRenderer) (pointCloud : list Point)
    : M PointRenderer :=
  let vao := new_VertexArrayObject in
  (* convert pointCloud positions and colors into buffers *)
  let numPoints := Z.of_nat (length pointCloud) in
  let r := set_posVec (posVec r ++ (pos_of <$> pointCloud)) r in
  let colorVec := color_of <$> pointCloud in
  positionBuffer ← new_BufferObject GL_ARRAY_BUFFER (cells_of_vec4s (posVec r)) false;
  colorBuffer ← new_BufferObject GL_ARRAY_BUFFER (cells_of_vec4s colorVec) false;
  (* build element array *)
  assert E (numPoints <=? UINT32_MAX);;
  let r := set_indexVec (indexVec r ++ seqZ 0 (size_to_uint32 numPoints)) r in
  indexBuffer ← new_BufferObject GL_ELEMENT_ARRAY_BUFFER (cells_of_u32s (indexVec r)) true;
  (* setup vertex array object with buffers *)
  prog ← deref (pointProg r);
  l ← Program.GetAttribLoc E prog "position";
  let vao := SetAttribBuffer vao l positionBuffer in
  l ← Program.GetAttribLoc E prog "color";
  let vao := SetAttribBuffer vao l colorBuffer in
  let vao := SetElementBuffer vao indexBuffer in
  mret (set_pointVao (Some vao) r).

(** pointrenderer.cpp:20-53.  [ind1] and [ind2] are the initial contents of
    the [computeShader] members of the two new programs. *)
Definition Init (ind1 ind2 : Z) (r : PointRenderer) (pointCloud : list Point)
    : M (bool * PointRenderer) :=
  ok ← Image_Load E "texture/sphere.png";
  if negb ok then
    Log.printf ("Error loading sphere.png" +:+ Program.nl);;
    mret (false, r)
  else
  tex ← new_Texture;
  let r := set_pointTex (Some tex) r in
  '(ok, prog) ← Program.LoadVertGeomFrag E (Program.new ind1)
                  "shader/point_vert.glsl" "shader/point_geom.glsl" "shader/point_frag.glsl";
  let r := set_pointProg (Some prog) r in
  if negb ok then
    Log.printf ("Error loading point shaders!" +:+ Program.nl);;
    mret (false, r)
  else
  '(ok, prog) ← Program.LoadCompute E (Program.new ind2) "shader/presort_compute.glsl";
  let r := set_preSortProg (Some prog) r in
  if negb ok then
    Log.printf ("Error loading point pre-sort compute shader!" +:+ Program.nl);;
    mret (false, r)
  else
  r ← BuildVertexArrayObject r pointCloud;
  let r := set_depthVec (SplatRenderer.resize (length pointCloud) (depthVec r)) r in
  kb ← new_BufferObject GL_SHADER_STORAGE_BUFFER (cells_of_u32s (depthVec r)) true;
  let r := set_keyBuffer (Some kb) r in
  vb ← new_BufferObject GL_SHADER_STORAGE_BUFFER (cells_of_u32s (indexVec r)) true;
  let r := set_valBuffer (Some vb) r in
  pb ← new_BufferObject GL_SHADER_STORAGE_BUFFER (cells_of_vec4s (posVec r)) false;
  let r := set_posBuffer (Some pb) r in
  let r := set_sorter (Some (mk_sorter (Z.of_nat (length pointCloud)))) r in
  mret (true, r).

(** pointrenderer.cpp:62-80, the block "depth compute" *)
Definition depth_compute (r : PointRenderer) (cameraMat : mat4) (numPoints : Z) : M unit :=
  (* transform forward vector into world space *)
  let forward := DepthKey.forward_of cameraMat in
  let eye := DepthKey.eye_of cameraMat in
  prog ← deref (preSortProg r);
  Program.Bind prog;;
  Program.SetUniform E prog "forward" (UVec3 forward);;
  Program.SetUniform E prog "eye" (UVec3 eye);;
  pb ← deref (posBuffer r);
  glBindBufferBase GL_SHADER_STORAGE_BUFFER 0 (GetObj pb);;
  kb ← deref (keyBuffer r);
  glBindBufferBase GL_SHADER_STORAGE_BUFFER 1 (GetObj kb);;
  vb ← deref (valBuffer r);
  glBindBufferBase GL_SHADER_STORAGE_BUFFER 2 (GetObj vb);;
  glDispatchCompute E (num_groups numPoints) 1 1;;
  glMemoryBarrier.

(** pointrenderer.cpp:82-86, the block "sort" *)
Definition sort_block (r : PointRenderer) (numPoints : Z) : M unit :=
  s ← deref (sorter r);
  kb ← deref (keyBuffer r);
  vb ← deref (valBuffer r);
  Device.sort s (GetObj kb) (GetObj vb) numPoints.

(** pointrenderer.cpp:88-94, the block "copy sorted indices" *)
Definition copy_sorted_indices (r : PointRenderer) (numPoints : Z) : M unit :=
  vb ← deref (valBuffer r);
  glBindBuffer GL_COPY_READ_BUFFER (GetObj vb);;
  vao ← deref (pointVao r);
  eb ← deref (elementBuffer vao);
  glBindBuffer GL_COPY_WRITE_BUFFER (GetObj eb);;
  glCopyBufferSubData GL_COPY_READ_BUFFER GL_COPY_WRITE_BUFFER 0 0
    (wrap64 (numPoints * sizeof_uint32)).

(** pointrenderer.cpp:96-115, the block "draw" *)
Definition draw (r : PointRenderer) (cameraMat : mat4) (viewport : vec4) (nearFar : Q * Q)
    (fovy : Q) : M unit :=
  let width := z4 viewport in
  let height := w4 viewport in
  let aspectRatio := (width / height)%Q in
  let modelViewMat := inverse E cameraMat in
  let projMat := perspective E fovy aspectRatio nearFar.1 nearFar.2 in
  prog ← deref (pointProg r);
  Program.Bind prog;;
  Program.SetUniform E prog "modelViewMat" (UMat4 modelViewMat);;
  Program.SetUniform E prog "projMat" (UMat4 projMat);;
  Program.SetUniform E prog "pointSize" (UFloat 0.02);;
  Program.SetUniform E prog "invAspectRatio" (UFloat (1 / aspectRatio));;
  (* use texture unit 0 for colorTexture *)
  glActiveTexture 0;;
  tex ← deref (pointTex r);
  glBindTexture tex;;
  Program.SetUniform E prog "colorTex" (UInt 0);;
  vao ← deref (pointVao r);
  DrawElements vao.

(** pointrenderer.cpp:55-116 *)
Definition Render (r : PointRenderer) (cameraMat : mat4) (viewport : vec4)
    (nearFar : Q * Q) (fovy : Q) : M PointRenderer :=
  let numPoints := Z.of_nat (length (posVec r)) in
  depth_compute r cameraMat numPoints;;
  sort_block r numPoints;;
  copy_sorted_indices r numPoints;;
  draw r cameraMat viewport nearFar fovy;;
  mret r.

End WithEnv.

End PointRenderer.

(* ===================================================================== *)
(** ** A sorter and a scene to run the model on                           *)
(* ===================================================================== *)

Module Scene.
Import Num glm GL radix_sort Device.

(** Insertion sort on the keys: one function that meets the contract of
    [ParallelSorter]. *)
Fixpoint insert_pair (p : Z * Z) (l : list (Z * Z)) : list (Z * Z) :=
  match l with
  | [] => [p]
  | q :: l' => if p.1 <=? q.1 then p :: l else q :: insert_pair p l'
  end.

Definition insertion_sort (l : list (Z * Z)) : list (Z * Z) := foldr insert_pair [] l.

Definition shader_files : gmap string string :=
  list_to_map
    [("shader/splat_vert.glsl", "splat vertex stage");
     ("shader/splat_geom.glsl", "splat geometry stage");
     ("shader/splat_frag.glsl", "splat fragment stage");
     ("shader/point_vert.glsl", "point vertex stage");
     ("shader/point_geom.glsl", "point geometry stage");
     ("shader/point_frag.glsl", "point fragment stage");
     ("shader/presort_compute.glsl", "pre-sort kernel")]%string.

Definition active_uniforms : list (string * Z * Z) :=
  [("viewMat", 1, GL_FLOAT_MAT4); ("projMat", 1, GL_FLOAT_MAT4);
   ("projParams", 1, GL_FLOAT_VEC4); ("viewport", 1, GL_FLOAT_VEC4);
   ("forward", 1, GL_FLOAT_VEC3); ("eye", 1, GL_FLOAT_VEC3);
   ("modelViewMat", 1, GL_FLOAT_MAT4); ("pointSize", 1, GL_FLOAT);
   ("invAspectRatio", 1, GL_FLOAT); ("colorTex", 1, GL_SAMPLER_2D)]%string.

Definition active_attribs : list (string * Z * Z) :=
  [("position", 1, GL_FLOAT_VEC3); ("color", 1, GL_FLOAT_VEC4);
   ("cov3_col0", 1, GL_FLOAT_VEC3); ("cov3_col1", 1, GL_FLOAT_VEC3);
   ("cov3_col2", 1, GL_FLOAT_VEC3)]%string.

(** The position of [name] in a list of active variables, or -1. *)
Fixpoint location_in (name : string) (l : list (string * Z * Z)) (i : Z) : Z :=
  match l with
  | [] => -1
  | (n, _, _) :: l' => if String.eqb name n then i else location_in name l' (i + 1)
  end.

(** A driver that compiles and links whatever it is given without a word,
    even the empty source, and reports the variables above. *)
Definition lenient_driver (debug : bool) (fs : gmap string string) (imgs : gset string) : Env :=
  mk_Env debug fs imgs
    (fun _ _ => (true, EmptyString))
    (fun _ => (true, EmptyString))
    (fun _ => active_attribs) (fun _ n => location_in n active_attribs 0)
    (fun _ => active_uniforms) (fun _ n => location_in n active_uniforms 0)
    (fun q => q) (fun _ => 1%Q) (fun m => m) (fun _ _ _ _ => identity4).

(** A driver that rejects the source [bad] at compile time. *)
Definition strict_driver (bad : string) (debug : bool) (fs : gmap string string)
    (imgs : gset string) : Env :=
  mk_Env debug fs imgs
    (fun _ s => if String.eqb s bad then (false, "error: rejected"%string)
                else (true, EmptyString))
    (fun _ => (true, EmptyString))
    (fun _ => active_attribs) (fun _ n => location_in n active_attribs 0)
    (fun _ => active_uniforms) (fun _ n => location_in n active_uniforms 0)
    (fun q => q) (fun _ => 1%Q) (fun m => m) (fun _ _ _ _ => identity4).

Definition sphere_png : gset string := {["texture/sphere.png"%string]}.

(** The debug build with every file in place. *)
Definition env : Env := lenient_driver true shader_files sphere_png.

Definition unit_cov : mat3 := mk_mat3 (mk_vec3 1 0 0) (mk_vec3 0 1 0) (mk_vec3 0 0 1).

(** A splat on the view axis, [d] in front of a camera at the origin that
    looks down -z. *)
Definition splat_at (d : Q) : SplatRenderer.Gaussian :=
  SplatRenderer.mk_Gaussian (mk_vec3 0 0 (- d)) (mk_vec3 0 0 0) 0 unit_cov.

Definition point_at (d : Q) : PointRenderer.Point :=
  PointRenderer.mk_Point (mk_vec3 0 0 (- d)) (255, 255, 255).

Definition viewport : vec4 := mk_vec4 0 0 800 600.
Definition nearFar : Q * Q := (0.1, 100)%Q.
Definition fovy : Q := 1.

(** The release build of the same. *)
Definition release_env : Env := lenient_driver false shader_files sphere_png.


(** The debug build on a disk that lacks the splat vertex stage. *)
Definition env_without_vert : Env :=
  lenient_driver true (delete "shader/splat_vert.glsl"%string shader_files) sphere_png.

(** The debug build on a driver that rejects the splat fragment stage. *)
Definition env_bad_frag : Env :=
  strict_driver "splat fragment stage" true shader_files sphere_png.

(** The debug build on a driver that compiles every stage and links
    nothing. *)
Definition env_no_link : Env :=
  mk_Env true shader_files sphere_png
    (fun _ _ => (true, EmptyString))
    (fun _ => (false, "error: no entry point"%string))
    (fun _ => active_attribs) (fun _ n => location_in n active_attribs 0)
    (fun _ => active_uniforms) (fun _ n => location_in n active_uniforms 0)
    (fun q => q) (fun _ => 1%Q) (fun m => m) (fun _ _ _ _ => identity4).

(** What a load or an [Init] answered, if it returned. *)
Definition answer {A} (r : result (bool * A)) : option bool :=
  match r with Ok (ok, _) _ => Some ok | _ => None end.

(** What a load or an [Init] left in its object, if it returned. *)
Definition loaded {A} (r : result (bool * A)) : option A :=
  match r with Ok (_, a) _ => Some a | _ => None end.

(** Three primitives on the view axis, the second the farthest. *)
Definition splats : list SplatRenderer.Gaussian := [splat_at 1; splat_at 3; splat_at 2].
Definition points : list PointRenderer.Point := [point_at 1; point_at 3; point_at 2].

(** A camera at the origin looking down -z, and one moved to z = 4. *)
Definition camera : mat4 := identity4.
Definition camera_at_4 : mat4 :=
  mk_mat4 (mk_vec4 1 0 0 0) (mk_vec4 0 1 0 0) (mk_vec4 0 0 1 0) (mk_vec4 0 0 4 1).

(** The renderer and the GL state [Init] leaves behind in a fresh context. *)
Definition after_Init {A} (init : M (bool * A)) (r0 : A) : A * World :=
  match init fresh_world with
  | Ok (_, r) w => (r, w)
  | _ => (r0, fresh_world)
  end.

Definition splat_scene : SplatRenderer.SplatRenderer * World :=
  after_Init (SplatRenderer.Init env 0 SplatRenderer.new splats) SplatRenderer.new.

Definition point_scene : PointRenderer.PointRenderer * World :=
  after_Init (PointRenderer.Init env 0 0 PointRenderer.new points) PointRenderer.new.

Definition empty_splat_scene : SplatRenderer.SplatRenderer * World :=
  after_Init (SplatRenderer.Init env 0 SplatRenderer.new []) SplatRenderer.new.

Definition empty_point_scene : PointRenderer.PointRenderer * World :=
  after_Init (PointRenderer.Init env 0 0 PointRenderer.new []) PointRenderer.new.

Definition release_splat_scene : SplatRenderer.SplatRenderer * World :=
  after_Init (SplatRenderer.Init release_env 0 SplatRenderer.new splats) SplatRenderer.new.

End Scene.

(* ===================================================================== *)
(** * Properties                                                          *)
(* ===================================================================== *)

(** ** Arithmetic of the depth key *)

Module NumFacts.
Import Num.

Lemma wrap32_small z : 0 <= z <= UINT32_MAX -> wrap32 z = z.
Proof. unfold wrap32, UINT32_MAX. intros. apply Z.mod_small. lia. Qed.

Lemma wrap64_small z : 0 <= z < 2 ^ 64 -> wrap64 z = z.
Proof. unfold wrap64. intros. apply Z.mod_small. lia. Qed.






End NumFacts.

Module DepthKeyFacts.
Import Num NumFacts glm DepthKey.




Lemma quantize_bounds d : 0 <= quantize d <= UINT32_MAX.
Proof.
  unfold quantize, wrap32, UINT32_MAX.
  pose proof (Z.mod_pos_bound (4294967295 - float_to_uint32 (d * 65536)) (2 ^ 32)).
  lia.
Qed.

End DepthKeyFacts.

(** ** Sorting facts *)

Module SortFacts.
Import radix_sort Scene.

Lemma insert_pair_perm p l : insert_pair p l ≡ₚ p :: l.
Proof.
  induction l as [|q l IH]; [reflexivity|].
  simpl. destruct (p.1 <=? q.1); [reflexivity|].
  rewrite IH. apply perm_swap.
Qed.

Lemma insertion_sort_perm l : insertion_sort l ≡ₚ l.
Proof.
  induction l as [|p l IH]; [reflexivity|].
  simpl. rewrite insert_pair_perm. now rewrite IH.
Qed.

Lemma insert_pair_sorted p l :
  StronglySorted (fun a b => a.1 <= b.1) l ->
  StronglySorted (fun a b => a.1 <= b.1) (insert_pair p l).
Proof.
  induction 1 as [|q l Hs IH Hq]; simpl.
  - repeat constructor.
  - destruct (Z.leb_spec p.1 q.1) as [Hle | Hgt].
    + constructor; [now constructor|].
      constructor; [exact Hle|].
      eapply Forall_impl; [exact Hq|]. simpl. intros. lia.
    + constructor; [exact IH|].
      rewrite insert_pair_perm. constructor; [lia | exact Hq].
Qed.

Lemma insertion_sort_sorted l : StronglySorted (fun a b => a.1 <= b.1) (insertion_sort l).
Proof.
  induction l as [|p l IH]; simpl; [constructor|]. now apply insert_pair_sorted.
Qed.

Definition insertion_sorter : ParallelSorter :=
  mk_ParallelSorter insertion_sort insertion_sort_perm insertion_sort_sorted.



End SortFacts.

(** ** Running the monad *)

Module Run.
Import Num NumFacts GL radix_sort Device.

Lemma bind_Ok {A B} (m : M A) (k : A -> M B) w a w1 :
  m w = Ok a w1 -> (m ≫= k) w = k a w1.
Proof. intros H. unfold mbind, M_bind, bind. now rewrite H. Qed.

Lemma bind_inv_Ok {A B} (m : M A) (k : A -> M B) w b w2 :
  (m ≫= k) w = Ok b w2 -> exists a w1, m w = Ok a w1 /\ k a w1 = Ok b w2.
Proof.
  unfold mbind, M_bind, bind. destruct (m w) as [a w1| |]; try discriminate. eauto.
Qed.

Lemma bind_ret_l {A B} (a : A) (k : A -> M B) w : (mret a ≫= k) w = k a w.
Proof. reflexivity. Qed.

Lemma bind_assoc {A B C} (m : M A) (k1 : A -> M B) (k2 : B -> M C) w :
  ((m ≫= k1) ≫= k2) w = (m ≫= fun a => k1 a ≫= k2) w.
Proof. unfold mbind, M_bind, bind. destruct (m w); reflexivity. Qed.

Lemma bind_modify {B} f (k : unit -> M B) w : (modify f ≫= k) w = k tt (f w).
Proof. reflexivity. Qed.

Lemma bind_get {A B} (f : World -> A) (k : A -> M B) w : (get f ≫= k) w = k (f w) w.
Proof. reflexivity. Qed.

Ltac norm :=
  repeat first [rewrite bind_assoc | rewrite bind_ret_l | rewrite bind_modify | rewrite bind_get].

(** One step back through a computation that returned. *)
Tactic Notation "inv_bind" hyp(H) "as" ident(a) ident(w1) ident(H1) :=
  apply bind_inv_Ok in H as (a & w1 & H1 & H).

Lemma if_negb_true {A} (a b : A) : (if negb true then a else b) = b.
Proof. reflexivity. Qed.

Lemma if_negb_false {A} (a b : A) : (if negb false then a else b) = a.
Proof. reflexivity. Qed.

(** Follow the branch an [if (!ok)] has taken, leaving the rest of the
    computation as it is written. *)
Ltac take_branch H :=
  cbv beta iota in H; rewrite ?if_negb_true, ?if_negb_false in H.

Lemma mapM_as_u32 (l : list Z) : mapM as_u32 (cells_of_u32s l) = Some l.
Proof.
  unfold cells_of_u32s. induction l as [|z l IH]; [reflexivity|].
  cbn. rewrite IH. reflexivity.
Qed.

Lemma take_cells_of_u32s n l : take n (cells_of_u32s l) = cells_of_u32s (take n l).
Proof. unfold cells_of_u32s. now rewrite fmap_take. Qed.

Lemma length_cells_of_u32s l : length (cells_of_u32s l) = length l.
Proof. unfold cells_of_u32s. apply length_fmap. Qed.

Lemma cells_of_u32s_inj l1 l2 : cells_of_u32s l1 = cells_of_u32s l2 -> l1 = l2.
Proof.
  unfold cells_of_u32s. revert l2.
  induction l1 as [|a l1 IH]; intros [|b l2] H; simpl in H; try discriminate; [reflexivity|].
  injection H as -> H. f_equal. now apply IH.
Qed.

(** [(uint32_t)i] for [i = 0 .. n-1] is [0 .. n-1] as long as [n] fits. *)
Lemma uint32_indices n :
  Z.of_nat n <= UINT32_MAX + 1 ->
  (fun k => size_to_uint32 (Z.of_nat k)) <$> seq 0 n = seqZ 0 (Z.of_nat n).
Proof.
  intros Hn. apply list_eq. intros i. rewrite list_lookup_fmap.
  destruct (decide (i < n)%nat) as [Hi|Hi].
  - rewrite lookup_seq_lt by lia. rewrite lookup_seqZ_lt by lia. simpl. f_equal.
    unfold size_to_uint32. apply wrap32_small. lia.
  - rewrite lookup_seq_ge by lia. rewrite lookup_seqZ_ge by lia. reflexivity.
Qed.

(** The world fields that neither a name lookup nor [glUniform*] touches. *)
Definition same_objects (w w' : World) : Prop :=
  buffers w' = buffers w /\ programs w' = programs w /\ shaders w' = shaders w
  /\ next_name w' = next_name w /\ ssbo w' = ssbo w /\ bound w' = bound w
  /\ current_program w' = current_program w.

Lemma same_objects_refl w : same_objects w w.
Proof. repeat split. Qed.

Lemma same_objects_trans w1 w2 w3 :
  same_objects w1 w2 -> same_objects w2 w3 -> same_objects w1 w3.
Proof.
  unfold same_objects. intros (?&?&?&?&?&?&?) (?&?&?&?&?&?&?).
  repeat split; congruence.
Qed.

Section WithEnv.
Context (E : Env) `{sorter_impl : !ParallelSorter}.

(** A name resolves, or the build has no assertions. *)
Definition resolves (p : Program.Program) (name : string) : Prop :=
  debug_build E = true -> is_Some (Program.uniforms p !! name).

Lemma GetUniformLoc_Ok p name w :
  resolves p name ->
  exists l w', Program.GetUniformLoc E p name w = Ok l w'
    /\ same_objects w w' /\ calls w' = calls w /\ errors w' = errors w
    /\ uniform_vals w' = uniform_vals w.
Proof.
  intros Hres. unfold Program.GetUniformLoc.
  destruct (Program.uniforms p !! name) as [v|] eqn:Hv.
  - exists (Program.loc v), w. repeat split.
  - destruct (debug_build E) eqn:Hdbg.
    + destruct (Hres Hdbg) as [? ?]. congruence.
    + eexists 0, _. unfold GL.assert. rewrite Hdbg. simpl. split; [reflexivity|].
      repeat split.
Qed.

Lemma glUniform_Ok l v w :
  exists w', glUniform E l v w = Ok tt w'
    /\ same_objects w w' /\ calls w' = calls w ++ [Uniform l v].
Proof.
  unfold glUniform, modify. eexists. split; [reflexivity|].
  destruct (l =? -1); [repeat split|].
  simpl. destruct (uniform_type_at E (record (Uniform l v) w) l) as [ty|];
    [destruct (uval_has_type v ty)|]; repeat split.
Qed.

Lemma SetUniform_Ok p name v w :
  resolves p name ->
  exists l w', Program.SetUniform E p name v w = Ok tt w'
    /\ same_objects w w' /\ calls w' = calls w ++ [Uniform l v].
Proof.
  intros Hres. unfold Program.SetUniform, Program.SetUniformLoc.
  destruct (GetUniformLoc_Ok p name w Hres) as (l & w1 & H1 & Hs1 & Hc1 & _).
  destruct (glUniform_Ok l v w1) as (w2 & H2 & Hs2 & Hc2).
  exists l, w2. erewrite bind_Ok by exact H1. split; [exact H2|].
  split; [eapply same_objects_trans; eauto|]. now rewrite Hc2, Hc1.
Qed.

Lemma Bind_Ok p w :
  exists w', Program.Bind p w = Ok tt w'
    /\ buffers w' = buffers w /\ programs w' = programs w /\ shaders w' = shaders w
    /\ next_name w' = next_name w /\ ssbo w' = ssbo w /\ bound w' = bound w
    /\ calls w' = calls w ++ [UseProgram (Program.program p)]
    /\ (is_Some (linked_sources w (Program.program p)) ->
        current_program w' = Program.program p).
Proof.
  unfold Program.Bind, glUseProgram, modify. eexists. split; [reflexivity|].
  destruct (Program.program p =? 0) eqn:H0.
  { apply Z.eqb_eq in H0. rewrite H0. repeat split. }
  unfold linked_sources. simpl.
  destruct (programs w !! Program.program p) as [o|]; simpl;
    [destruct (linked_from o)|]; repeat split;
    first [reflexivity | intros [? ?]; discriminate].
Qed.

Lemma Update_Ok b data old w :
  buffers w !! obj b = Some old -> length data = length old ->
  Update b data w =
    Ok tt (record (BufferSubData (obj b) data) (set_buffers (<[obj b := data]> (buffers w)) w)).
Proof.
  intros Hb Hl. unfold Update. rewrite Hb. now rewrite bool_decide_eq_true_2.
Qed.

Lemma sort_Ok s kb vb n ks vs w :
  kb <> vb -> max_count s = Z.of_nat n ->
  buffers w !! kb = Some (cells_of_u32s ks) -> buffers w !! vb = Some (cells_of_u32s vs) ->
  length ks = n -> length vs = n ->
  Device.sort s kb vb (Z.of_nat n) w =
    Ok tt (record (RadixSort kb vb (Z.of_nat n))
             (set_buffers
                (<[kb := cells_of_u32s ((sort_pairs (zip ks vs)).*1)]>
                   (<[vb := cells_of_u32s ((sort_pairs (zip ks vs)).*2)]> (buffers w))) w)).
Proof.
  intros Hne Hs Hk Hv Hlk Hlv. unfold Device.sort. rewrite Hk, Hv.
  rewrite (proj2 (Z.eqb_neq kb vb) Hne).
  rewrite Hs, !length_cells_of_u32s, Hlk, Hlv, Nat2Z.id.
  replace ((0 <=? Z.of_nat n) && (Z.of_nat n <=? Z.of_nat n) && (Z.of_nat n <=? Z.of_nat n)
           && (Z.of_nat n <=? Z.of_nat n)) with true
    by (symmetry; rewrite !andb_true_iff, !Z.leb_le; lia).
  rewrite !take_cells_of_u32s, !mapM_as_u32.
  rewrite !take_ge, !drop_ge by (rewrite ?length_cells_of_u32s; lia).
  rewrite !app_nil_r. reflexivity.
Qed.

Lemma glCopyBufferSubData_Ok w rb wb src dst n :
  bound w GL_COPY_READ_BUFFER = rb -> bound w GL_COPY_WRITE_BUFFER = wb -> rb <> wb ->
  buffers w !! rb = Some src -> buffers w !! wb = Some dst ->
  length src = n -> length dst = n -> Z.of_nat n <= UINT32_MAX ->
  glCopyBufferSubData GL_COPY_READ_BUFFER GL_COPY_WRITE_BUFFER 0 0
     (wrap64 (Z.of_nat n * sizeof_uint32)) w =
  Ok tt (set_buffers (<[wb := src]> (buffers w))
           (record (CopyBufferSubData GL_COPY_READ_BUFFER GL_COPY_WRITE_BUFFER 0 0
                      (Z.of_nat n * 4)) w)).
Proof.
  intros Hr Hw Hne Hs Hd Hls Hld Hn.
  unfold glCopyBufferSubData, sizeof_uint32.
  rewrite wrap64_small by (unfold UINT32_MAX in Hn; lia).
  simpl buffers. simpl bound. rewrite Hr, Hw, Hs, Hd.
  unfold byte_length, cell_size. rewrite Hls, Hld.
  rewrite (proj2 (Z.eqb_neq rb wb) Hne).
  repeat match goal with
         | |- context [?a <? ?b] => rewrite (proj2 (Z.ltb_ge a b)) by lia
         end.
  simpl orb.
  change (0 `mod` 4) with 0. change (0 `div` 4) with 0.
  rewrite Z_mod_mult, Z.div_mul by lia. rewrite Nat2Z.id.
  change (Z.to_nat 0) with 0%nat. rewrite drop_0, take_0. simpl.
  rewrite take_ge by lia. rewrite drop_ge by lia. rewrite app_nil_r. reflexivity.
Qed.

(** What a sorter does to keys paired with the identity. *)
Lemma sorted_values_perm (keys : list Z) n :
  length keys = n ->
  (sort_pairs (zip keys (seqZ 0 (Z.of_nat n)))).*2 ≡ₚ seqZ 0 (Z.of_nat n).
Proof.
  intros Hl. rewrite (sort_pairs_perm _).
  rewrite snd_zip by (rewrite length_seqZ; lia). reflexivity.
Qed.

Lemma sorted_length (keys : list Z) n :
  length keys = n -> length (sort_pairs (zip keys (seqZ 0 (Z.of_nat n)))) = n.
Proof.
  intros Hl. rewrite (Permutation_length (sort_pairs_perm _)).
  rewrite length_zip_with, length_seqZ. lia.
Qed.

End WithEnv.

End Run.

(** ** The splat renderer, block by block *)

Module SplatFacts.
Import Num NumFacts glm GL radix_sort Device Run SplatRenderer.

(** What the loop of "build vecs" leaves in the two host vectors. *)
Lemma build_vecs_loop_spec eye forward pv n : forall i dv iv,
  (i + n <= length pv)%nat -> (i + n <= length dv)%nat -> (i + n <= length iv)%nat ->
  build_vecs_loop eye forward pv n i dv iv =
  Some (take i dv ++ (DepthKey.key_of eye forward <$> take n (drop i pv)) ++ drop (i + n) dv,
        take i iv ++ ((fun k => size_to_uint32 (Z.of_nat k)) <$> seq i n) ++ drop (i + n) iv).
Proof.
  induction n as [|n IH]; intros i dv iv Hp Hd Hi.
  - simpl. rewrite Nat.add_0_r, !take_drop. reflexivity.
  - simpl build_vecs_loop.
    destruct (lookup_lt_is_Some_2 pv i ltac:(lia)) as [p Hpi]. rewrite Hpi. simpl.
    replace (i <? length dv)%nat with true by (symmetry; apply Nat.ltb_lt; lia).
    replace (i <? length iv)%nat with true by (symmetry; apply Nat.ltb_lt; lia).
    simpl. rewrite IH by (rewrite ?length_insert; lia).
    f_equal. f_equal.
    + rewrite (take_S_r _ _ (DepthKey.quantize (DepthKey.depth_of eye forward p)))
        by (apply list_lookup_insert_eq; lia).
      rewrite take_insert_ge by lia. rewrite <- app_assoc. f_equal.
      rewrite (drop_S _ _ _ Hpi). simpl. f_equal. f_equal.
      rewrite drop_insert_lt by lia. f_equal. lia.
    + rewrite (take_S_r _ _ (size_to_uint32 (Z.of_nat i)))
        by (apply list_lookup_insert_eq; lia).
      rewrite take_insert_ge by lia. rewrite <- app_assoc. f_equal.
      simpl. f_equal. f_equal.
      rewrite drop_insert_lt by lia. f_equal. lia.
Qed.

(** The objects a renderer refers to once [Init] has succeeded. *)
Record Layout := mk_Layout {
  L_prog : Program.Program;
  L_vao : VertexArrayObject;
  L_key : BufferObject;
  L_val : BufferObject;
  L_elem : BufferObject
}.

Definition draw_uniforms : list string :=
  ["viewMat"; "projMat"; "projParams"; "viewport"]%string.

(** The keys one frame computes. *)
Definition frame_keys (r : SplatRenderer) (cameraMat : mat4) : list Z :=
  DepthKey.key_of (DepthKey.eye_of cameraMat) (DepthKey.forward_of cameraMat)
    <$> positionVec r.

(** The host state a frame leaves behind. *)
Definition after_frame (r : SplatRenderer) (cameraMat : mat4) : SplatRenderer :=
  set_depthVec (frame_keys r cameraMat)
    (set_indexVec (seqZ 0 (Z.of_nat (length (positionVec r)))) r).


Section WithEnv.
Context (E : Env) `{sorter_impl : !ParallelSorter}.

(** The blocks of [Render] after the keys are produced. *)
Definition sort_and_draw (r : SplatRenderer) (numPoints : Z) (cameraMat : mat4)
    (viewport : vec4) (nearFar : Q * Q) (fovy : Q) : M SplatRenderer :=
  sort_block r numPoints;;
  copy_sorted_indices r numPoints;;
  draw E r cameraMat viewport nearFar fovy;;
  mret r.

(** The blocks of [Render] before the draw. *)
Definition sort_pass (r : SplatRenderer) (cameraMat : mat4) : M SplatRenderer :=
  let numPoints := Z.of_nat (length (positionVec r)) in
  r ← build_vecs r cameraMat;
  update_buffers r;;
  sort_block r numPoints;;
  copy_sorted_indices r numPoints;;
  mret r.

(** The state between two frames. *)
Record Inv (L : Layout) (r : SplatRenderer) (w : World) : Prop := mk_Inv {
  inv_prog : splatProg r = Some (L_prog L);
  inv_vao : splatVao r = Some (L_vao L);
  inv_elem : elementBuffer (L_vao L) = Some (L_elem L);
  inv_key : keyBuffer r = Some (L_key L);
  inv_val : valBuffer r = Some (L_val L);
  inv_sorter : sorter r = Some (mk_sorter (Z.of_nat (length (positionVec r))));
  inv_count : Z.of_nat (length (positionVec r)) <= UINT32_MAX;
  inv_depthVec : length (depthVec r) = length (positionVec r);
  inv_indexVec : length (indexVec r) = length (positionVec r);
  inv_key_buf : exists ks, buffers w !! obj (L_key L) = Some (cells_of_u32s ks)
                           /\ length ks = length (positionVec r);
  inv_val_buf : exists vs, buffers w !! obj (L_val L) = Some (cells_of_u32s vs)
                           /\ vs ≡ₚ seqZ 0 (Z.of_nat (length (positionVec r)));
  inv_elem_buf : exists es, buffers w !! obj (L_elem L) = Some (cells_of_u32s es)
                           /\ es ≡ₚ seqZ 0 (Z.of_nat (length (positionVec r)));
  inv_elem_cells : bo_cells (L_elem L) = length (positionVec r);
  inv_key_val : obj (L_key L) <> obj (L_val L);
  inv_key_elem : obj (L_key L) <> obj (L_elem L);
  inv_val_elem : obj (L_val L) <> obj (L_elem L);
  inv_attribs : Forall (fun '(_, b) => obj b <> obj (L_key L) /\ obj b <> obj (L_val L)
                                       /\ obj b <> obj (L_elem L))
                       (attribBuffers (L_vao L));
  inv_uniforms : Forall (resolves E (L_prog L)) draw_uniforms
}.

Lemma splat_perm_seqZ_length (l : list Z) n : l ≡ₚ seqZ 0 (Z.of_nat n) -> length l = n.
Proof. intros H. rewrite (Permutation_length H), length_seqZ. lia. Qed.


Lemma Render_split r cam vp nf fv w :
  Render E r cam vp nf fv w =
  (sort_pass r cam ≫= fun r1 => draw E r1 cam vp nf fv;; mret r1) w.
Proof.
  unfold Render, sort_pass, mbind, M_bind, bind.
  destruct (build_vecs r cam w) as [r1 w1| |]; try reflexivity.
  destruct (update_buffers r1 w1) as [[] w2| |]; try reflexivity.
  destruct (sort_block r1 _ w2) as [[] w3| |]; try reflexivity.
  destruct (copy_sorted_indices r1 _ w3) as [[] w4| |]; reflexivity.
Qed.

Lemma build_vecs_spec L r w cam :
  Inv L r w -> build_vecs r cam w = Ok (after_frame r cam) w.
Proof.
  intros I. unfold build_vecs, after_frame, frame_keys.
  pose proof (inv_depthVec _ _ _ I) as Hd. pose proof (inv_indexVec _ _ _ I) as Hi.
  pose proof (inv_count _ _ _ I) as Hc.
  rewrite build_vecs_loop_spec by lia.
  rewrite !(drop_ge (depthVec r)), !(drop_ge (indexVec r)) by lia.
  rewrite drop_0, !take_0, !app_nil_r, firstn_all. simpl.
  rewrite uint32_indices by lia. reflexivity.
Qed.


Lemma sort_pass_spec L r w cam :
  Inv L r w ->
  let n := Z.of_nat (length (positionVec r)) in
  let sorted := sort_pairs (zip (frame_keys r cam) (seqZ 0 n)) in
  exists w',
    sort_pass r cam w = Ok (after_frame r cam) w'
    /\ buffers w' = <[obj (L_elem L) := cells_of_u32s (sorted.*2)]>
                      (<[obj (L_key L) := cells_of_u32s (sorted.*1)]>
                         (<[obj (L_val L) := cells_of_u32s (sorted.*2)]> (buffers w)))
    /\ calls w' = calls w ++
         [BufferSubData (obj (L_key L)) (cells_of_u32s (frame_keys r cam));
          BufferSubData (obj (L_val L)) (cells_of_u32s (seqZ 0 n));
          RadixSort (obj (L_key L)) (obj (L_val L)) n;
          BindBuffer GL_COPY_READ_BUFFER (obj (L_val L));
          BindBuffer GL_COPY_WRITE_BUFFER (obj (L_elem L));
          CopyBufferSubData GL_COPY_READ_BUFFER GL_COPY_WRITE_BUFFER 0 0 (n * 4)]
    /\ errors w' = errors w.
Proof.
  intros I n sorted.
  destruct (inv_key_buf _ _ _ I) as (ks & Hks & Hlks).
  destruct (inv_val_buf _ _ _ I) as (vs & Hvs & Hpvs).
  destruct (inv_elem_buf _ _ _ I) as (es & Hes & Hpes).
  pose proof (splat_perm_seqZ_length _ _ Hpvs) as Hlvs.
  pose proof (splat_perm_seqZ_length _ _ Hpes) as Hles.
  pose proof (inv_key_val _ _ _ I) as Hkv.
  pose proof (inv_key_elem _ _ _ I) as Hke.
  pose proof (inv_val_elem _ _ _ I) as Hve.
  pose proof (inv_count _ _ _ I) as Hc.
  unfold sort_pass.
  erewrite bind_Ok by (eapply build_vecs_spec; eauto).
  unfold update_buffers, sort_block, copy_sorted_indices. simpl.
  rewrite (inv_key _ _ _ I), (inv_val _ _ _ I), (inv_sorter _ _ _ I), (inv_vao _ _ _ I).
  simpl. norm.
  erewrite bind_Ok; cycle 1.
  { eapply Update_Ok; [exact Hks|].
    unfold frame_keys. rewrite !length_cells_of_u32s, length_fmap. lia. }
  norm.
  erewrite bind_Ok; cycle 1.
  { eapply Update_Ok.
    - simpl. rewrite lookup_insert_ne by exact Hkv. exact Hvs.
    - rewrite !length_cells_of_u32s, length_seqZ. lia. }
  norm.
  erewrite bind_Ok; cycle 1.
  { unfold GetObj.
    eapply (sort_Ok _ _ _ (length (positionVec r))); [exact Hkv|reflexivity| | | |].
    - simpl. rewrite lookup_insert_ne by congruence. apply lookup_insert_eq.
    - simpl. apply lookup_insert_eq.
    - apply length_fmap.
    - rewrite length_seqZ. lia. }
  unfold glBindBuffer, GetObj. norm.
  rewrite (inv_elem _ _ _ I). simpl deref. norm.
  erewrite bind_Ok; cycle 1.
  { eapply (glCopyBufferSubData_Ok _ _ _ _ _ (length (positionVec r))).
    - simpl. unfold bind_point. simpl. reflexivity.
    - simpl. unfold bind_point. simpl. reflexivity.
    - exact Hve.
    - simpl. rewrite lookup_insert_ne by exact Hkv. apply lookup_insert_eq.
    - simpl. rewrite !lookup_insert_ne by congruence. exact Hes.
    - rewrite length_cells_of_u32s, length_fmap.
      apply sorted_length. apply length_fmap.
    - rewrite length_cells_of_u32s. exact Hles.
    - exact Hc. }
  norm. eexists. split; [reflexivity|].
  simpl. rewrite <- !app_assoc. simpl. repeat split.
  fold n sorted.
  apply map_eq. intros k. rewrite !lookup_insert.
  repeat case_decide; congruence.
Qed.

Lemma splat_draw_spec L r w cam vp nf fv :
  Inv L r w ->
  exists w' l1 l2 l3 l4,
    draw E r cam vp nf fv w = Ok tt w'
    /\ buffers w' = buffers w
    /\ calls w' = calls w ++
         [UseProgram (Program.program (L_prog L));
          Uniform l1 (UMat4 (inverse E cam));
          Uniform l2 (UMat4 (perspective E fv (z4 vp / w4 vp)%Q nf.1 nf.2));
          Uniform l3 (UVec4 (mk_vec4 (w4 vp / tanf E (fv / 2))%Q nf.1 nf.2 0));
          Uniform l4 (UVec4 vp);
          GL.DrawElements (obj (L_elem L)) (Z.of_nat (length (positionVec r)))].
Proof.
  intros I. unfold draw.
  rewrite (inv_prog _ _ _ I). simpl deref. norm.
  pose proof (inv_uniforms _ _ _ I) as Hu. unfold draw_uniforms in Hu.
  rewrite Forall_forall in Hu.
  destruct (Bind_Ok (L_prog L) w) as (w0 & H0 & Hb0 & _ & _ & _ & _ & _ & Hc0 & _).
  erewrite bind_Ok by exact H0.
  edestruct (SetUniform_Ok E (L_prog L) "viewMat") as (l1 & w1 & H1 & Hs1 & Hc1);
    [apply Hu; set_solver|].
  erewrite bind_Ok by exact H1.
  edestruct (SetUniform_Ok E (L_prog L) "projMat") as (l2 & w2 & H2 & Hs2 & Hc2);
    [apply Hu; set_solver|].
  erewrite bind_Ok by exact H2.
  edestruct (SetUniform_Ok E (L_prog L) "projParams") as (l3 & w3 & H3 & Hs3 & Hc3);
    [apply Hu; set_solver|].
  erewrite bind_Ok by exact H3.
  edestruct (SetUniform_Ok E (L_prog L) "viewport") as (l4 & w4 & H4 & Hs4 & Hc4);
    [apply Hu; set_solver|].
  erewrite bind_Ok by exact H4.
  rewrite (inv_vao _ _ _ I). simpl deref. norm.
  unfold DrawElements. rewrite (inv_elem _ _ _ I). simpl deref. norm.
  eexists _, l1, l2, l3, l4. split; [reflexivity|].
  destruct Hs1 as (Hb1 & _), Hs2 as (Hb2 & _), Hs3 as (Hb3 & _), Hs4 as (Hb4 & _).
  simpl. split; [congruence|].
  rewrite Hc4, Hc3, Hc2, Hc1, Hc0, (inv_elem_cells _ _ _ I), <- !app_assoc. reflexivity.
Qed.

(** The invariant looks at the world through its buffers only. *)
Lemma Inv_frame L r w cam w' :
  Inv L r w ->
  (let n := Z.of_nat (length (positionVec r)) in
   let sorted := sort_pairs (zip (frame_keys r cam) (seqZ 0 n)) in
   buffers w' = <[obj (L_elem L) := cells_of_u32s (sorted.*2)]>
                  (<[obj (L_key L) := cells_of_u32s (sorted.*1)]>
                     (<[obj (L_val L) := cells_of_u32s (sorted.*2)]> (buffers w)))) ->
  Inv L (after_frame r cam) w'.
Proof.
  intros I Hb. simpl in Hb.
  pose proof (inv_key_val _ _ _ I) as Hkv.
  pose proof (inv_key_elem _ _ _ I) as Hke.
  pose proof (inv_val_elem _ _ _ I) as Hve.
  assert (length (frame_keys r cam) = length (positionVec r)) as Hlk
    by (unfold frame_keys; apply length_fmap).
  destruct I. constructor; simpl; try assumption.
  - rewrite length_seqZ. lia.
  - eexists. split.
    + rewrite Hb. rewrite lookup_insert_ne by congruence. apply lookup_insert_eq.
    + rewrite length_fmap. apply sorted_length. exact Hlk.
  - eexists. split.
    + rewrite Hb. rewrite !lookup_insert_ne by congruence. apply lookup_insert_eq.
    + apply sorted_values_perm. exact Hlk.
  - eexists. split.
    + rewrite Hb. apply lookup_insert_eq.
    + apply sorted_values_perm. exact Hlk.
Qed.

Lemma splat_Inv_same_buffers L r w w' : Inv L r w -> buffers w' = buffers w -> Inv L r w'.
Proof. intros I Hb. destruct I. constructor; try assumption; rewrite Hb; assumption. Qed.

(** One frame, start to end. *)
Lemma splat_Render_spec L r w cam vp nf fv :
  Inv L r w ->
  let n := Z.of_nat (length (positionVec r)) in
  let sorted := sort_pairs (zip (frame_keys r cam) (seqZ 0 n)) in
  exists w' l1 l2 l3 l4,
    Render E r cam vp nf fv w = Ok (after_frame r cam) w'
    /\ buffers w' = <[obj (L_elem L) := cells_of_u32s (sorted.*2)]>
                      (<[obj (L_key L) := cells_of_u32s (sorted.*1)]>
                         (<[obj (L_val L) := cells_of_u32s (sorted.*2)]> (buffers w)))
    /\ calls w' = calls w ++
         [BufferSubData (obj (L_key L)) (cells_of_u32s (frame_keys r cam));
          BufferSubData (obj (L_val L)) (cells_of_u32s (seqZ 0 n));
          RadixSort (obj (L_key L)) (obj (L_val L)) n;
          BindBuffer GL_COPY_READ_BUFFER (obj (L_val L));
          BindBuffer GL_COPY_WRITE_BUFFER (obj (L_elem L));
          CopyBufferSubData GL_COPY_READ_BUFFER GL_COPY_WRITE_BUFFER 0 0 (n * 4);
          UseProgram (Program.program (L_prog L));
          Uniform l1 (UMat4 (inverse E cam));
          Uniform l2 (UMat4 (perspective E fv (z4 vp / w4 vp)%Q nf.1 nf.2));
          Uniform l3 (UVec4 (mk_vec4 (w4 vp / tanf E (fv / 2))%Q nf.1 nf.2 0));
          Uniform l4 (UVec4 vp);
          GL.DrawElements (obj (L_elem L)) n]
    /\ Inv L (after_frame r cam) w'.
Proof.
  intros I n sorted.
  destruct (sort_pass_spec L r w cam I) as (w1 & H1 & Hb1 & Hc1 & He1).
  pose proof (Inv_frame L r w cam w1 I Hb1) as I1.
  destruct (splat_draw_spec L (after_frame r cam) w1 cam vp nf fv I1)
    as (w2 & l1 & l2 & l3 & l4 & H2 & Hb2 & Hc2).
  exists w2, l1, l2, l3, l4.
  rewrite Render_split. erewrite bind_Ok by exact H1. erewrite bind_Ok by exact H2.
  split; [reflexivity|]. split; [now rewrite Hb2|]. split.
  - rewrite Hc2, Hc1, <- app_assoc. reflexivity.
  - eapply splat_Inv_same_buffers; eassumption.
Qed.

End WithEnv.

End SplatFacts.

(** ** The point renderer, block by block *)

Module PointFacts.
Import Num NumFacts glm GL radix_sort Device Run PointRenderer.

Lemma length_cells_of_vec4s l : length (cells_of_vec4s l) = (4 * length l)%nat.
Proof.
  unfold cells_of_vec4s. induction l as [|v l IH]; [reflexivity|].
  cbn. cbn in IH. rewrite IH. lia.
Qed.

Lemma lookup_cells_of_vec4s l i v :
  l !! i = Some v ->
  cells_of_vec4s l !! (4 * i)%nat = Some (F32 (x4 v))
  /\ cells_of_vec4s l !! (4 * i + 1)%nat = Some (F32 (y4 v))
  /\ cells_of_vec4s l !! (4 * i + 2)%nat = Some (F32 (z4 v)).
Proof.
  revert i. induction l as [|a l IH]; intros i Hi; [discriminate|].
  destruct i as [|i].
  - injection Hi as ->. repeat split.
  - simpl in Hi. destruct (IH i Hi) as (Hx & Hy & Hz).
    replace (4 * S i)%nat with (S (S (S (S (4 * i))))) by lia.
    repeat split; assumption.
Qed.

Lemma read_position_cells l i v :
  l !! i = Some v -> read_position (cells_of_vec4s l) i = Some (vec3_of_vec4 v).
Proof.
  intros Hi. destruct (lookup_cells_of_vec4s l i v Hi) as (Hx & Hy & Hz).
  unfold read_position. rewrite Hx, Hy, Hz. reflexivity.
Qed.

(** Invocations below the number of positions write one key and one value each. *)
Lemma presort_invocations_below forward eye pv n : forall idx ks vs,
  (idx + n <= length pv)%nat -> (idx + n <= length ks)%nat -> (idx + n <= length vs)%nat ->
  presort_invocations forward eye (cells_of_vec4s pv) n idx (cells_of_u32s ks, cells_of_u32s vs) =
  Some (cells_of_u32s
          (take idx ks ++ (DepthKey.key_of eye forward <$> (vec3_of_vec4 <$> take n (drop idx pv)))
             ++ drop (idx + n) ks),
        cells_of_u32s (take idx vs ++ (Z.of_nat <$> seq idx n) ++ drop (idx + n) vs)).
Proof.
  induction n as [|n IH]; intros idx ks vs Hp Hk Hv.
  - simpl. rewrite Nat.add_0_r, !take_drop. reflexivity.
  - simpl presort_invocations. unfold presort_invocation.
    rewrite length_cells_of_vec4s.
    replace (4 * length pv / 4)%nat with (length pv) by (rewrite Nat.mul_comm, Nat.div_mul; lia).
    replace (idx <? length pv)%nat with true by (symmetry; apply Nat.ltb_lt; lia).
    destruct (lookup_lt_is_Some_2 pv idx ltac:(lia)) as [p Hpi].
    rewrite (read_position_cells _ _ _ Hpi). simpl.
    rewrite !length_cells_of_u32s.
    replace (idx <? length ks)%nat with true by (symmetry; apply Nat.ltb_lt; lia).
    replace (idx <? length vs)%nat with true by (symmetry; apply Nat.ltb_lt; lia).
    simpl. unfold cells_of_u32s at 1 2. rewrite <- !list_fmap_insert.
    fold (cells_of_u32s (<[idx:=DepthKey.key_of eye forward (vec3_of_vec4 p)]> ks)).
    fold (cells_of_u32s (<[idx:=Z.of_nat idx]> vs)).
    rewrite IH by (rewrite ?length_insert; lia).
    f_equal. f_equal.
    + f_equal.
      rewrite (take_S_r _ _ (DepthKey.key_of eye forward (vec3_of_vec4 p)))
        by (apply list_lookup_insert_eq; lia).
      rewrite take_insert_ge by lia. rewrite <- app_assoc. f_equal.
      rewrite (drop_S _ _ _ Hpi). simpl. f_equal. f_equal.
      rewrite drop_insert_lt by lia. f_equal. lia.
    + f_equal.
      rewrite (take_S_r _ _ (Z.of_nat idx)) by (apply list_lookup_insert_eq; lia).
      rewrite take_insert_ge by lia. rewrite <- app_assoc. f_equal.
      simpl. f_equal. f_equal.
      rewrite drop_insert_lt by lia. f_equal. lia.
Qed.

(** Invocations at or beyond the number of positions write nothing. *)
Lemma presort_invocations_beyond forward eye pos n : forall idx kv,
  (length pos / 4 <= idx)%nat ->
  presort_invocations forward eye pos n idx kv = Some kv.
Proof.
  induction n as [|n IH]; intros idx kv Hge; [reflexivity|].
  simpl. unfold presort_invocation.
  replace (idx <? length pos / 4)%nat with false by (symmetry; apply Nat.ltb_ge; lia).
  simpl. apply IH. lia.
Qed.

Lemma presort_invocations_app forward eye pos a b : forall idx kv,
  presort_invocations forward eye pos (a + b) idx kv =
  presort_invocations forward eye pos a idx kv
    ≫= presort_invocations forward eye pos b (idx + a).
Proof.
  induction a as [|a IH]; intros idx kv.
  - simpl. now rewrite Nat.add_0_r.
  - simpl. destruct (presort_invocation forward eye pos idx kv) as [kv'|]; [|reflexivity].
    simpl. rewrite IH. now replace (S idx + a)%nat with (idx + S a)%nat by lia.
Qed.

(** A whole dispatch that covers the positions. *)
Lemma presort_dispatch forward eye pv m ks vs :
  (length pv <= m)%nat -> length ks = length pv -> length vs = length pv ->
  presort_invocations forward eye (cells_of_vec4s pv) m 0 (cells_of_u32s ks, cells_of_u32s vs) =
  Some (cells_of_u32s (DepthKey.key_of eye forward <$> (vec3_of_vec4 <$> pv)),
        cells_of_u32s (seqZ 0 (Z.of_nat (length pv)))).
Proof.
  intros Hm Hk Hv.
  replace m with (length pv + (m - length pv))%nat by lia.
  rewrite presort_invocations_app, presort_invocations_below by lia.
  simpl. rewrite presort_invocations_beyond
    by (rewrite length_cells_of_vec4s, Nat.mul_comm, Nat.div_mul; lia).
  rewrite ?drop_0, ?take_0, (drop_ge ks), (drop_ge vs), ?app_nil_r, ?firstn_all by lia. simpl.
  f_equal. f_equal. f_equal.
  apply list_eq. intros i. rewrite list_lookup_fmap.
  destruct (decide (i < length pv)%nat) as [Hi|Hi].
  - rewrite lookup_seq_lt by lia. rewrite lookup_seqZ_lt by lia. simpl. f_equal; lia.
  - rewrite lookup_seq_ge by lia. rewrite lookup_seqZ_ge by lia. reflexivity.
Qed.

(** The group count of pointrenderer.cpp:78. *)
Lemma num_groups_in_range n :
  0 <= n -> n + 255 <= UINT32_MAX ->
  num_groups n = (n + 255) / 256
  /\ n <= num_groups n * LOCAL_SIZE < n + 256.
Proof.
  intros H0 H1. unfold num_groups, LOCAL_SIZE.
  rewrite (wrap32_small n) by lia. rewrite wrap32_small by lia.
  change (256 - 1) with 255. split; [reflexivity|].
  pose proof (Z.div_mod (n + 255) 256 ltac:(lia)).
  pose proof (Z.mod_pos_bound (n + 255) 256 ltac:(lia)). lia.
Qed.

Lemma num_groups_wrapped n :
  0 <= n <= UINT32_MAX -> UINT32_MAX < n + 255 -> num_groups n = 0.
Proof.
  intros H0 H1. unfold num_groups, LOCAL_SIZE, UINT32_MAX in *.
  rewrite (wrap32_small n) by (unfold UINT32_MAX; lia).
  unfold wrap32. change (256 - 1) with 255.
  replace ((n + 255) mod 2 ^ 32) with (n + 255 - 2 ^ 32).
  - apply Z.div_small. lia.
  - apply Z.mod_unique with (q := 1); lia.
Qed.

Record Layout := mk_Layout {
  L_tex : Z;
  L_prog : Program.Program;
  L_presort : Program.Program;
  L_vao : VertexArrayObject;
  L_key : BufferObject;
  L_val : BufferObject;
  L_elem : BufferObject;
  L_pos : BufferObject
}.

Definition presort_uniforms : list string := ["forward"; "eye"]%string.
Definition draw_uniforms : list string :=
  ["modelViewMat"; "projMat"; "pointSize"; "invAspectRatio"; "colorTex"]%string.

(** The keys the kernel computes from the uniforms [forward] and [eye]. *)
Definition kernel_keys (forward eye : vec3) (r : PointRenderer) : list Z :=
  DepthKey.key_of eye forward <$> (vec3_of_vec4 <$> posVec r).

Section WithEnv.
Context (E : Env) `{sorter_impl : !ParallelSorter}.

Definition sort_and_draw (r : PointRenderer) (numPoints : Z) (cameraMat : mat4)
    (viewport : vec4) (nearFar : Q * Q) (fovy : Q) : M PointRenderer :=
  sort_block r numPoints;;
  copy_sorted_indices r numPoints;;
  draw E r cameraMat viewport nearFar fovy;;
  mret r.

Record Inv (L : Layout) (r : PointRenderer) (w : World) : Prop := mk_Inv {
  inv_tex : pointTex r = Some (L_tex L);
  inv_prog : pointProg r = Some (L_prog L);
  inv_presort : preSortProg r = Some (L_presort L);
  inv_vao : pointVao r = Some (L_vao L);
  inv_elem : elementBuffer (L_vao L) = Some (L_elem L);
  inv_key : keyBuffer r = Some (L_key L);
  inv_val : valBuffer r = Some (L_val L);
  inv_pos : posBuffer r = Some (L_pos L);
  inv_sorter : sorter r = Some (mk_sorter (Z.of_nat (length (posVec r))));
  inv_count : Z.of_nat (length (posVec r)) <= UINT32_MAX;
  inv_key_buf : exists ks, buffers w !! obj (L_key L) = Some (cells_of_u32s ks)
                           /\ length ks = length (posVec r);
  inv_val_buf : exists vs, buffers w !! obj (L_val L) = Some (cells_of_u32s vs)
                           /\ vs ≡ₚ seqZ 0 (Z.of_nat (length (posVec r)));
  inv_elem_buf : exists es, buffers w !! obj (L_elem L) = Some (cells_of_u32s es)
                           /\ es ≡ₚ seqZ 0 (Z.of_nat (length (posVec r)));
  inv_pos_buf : buffers w !! obj (L_pos L) = Some (cells_of_vec4s (posVec r));
  inv_elem_cells : bo_cells (L_elem L) = length (posVec r);
  inv_key_val : obj (L_key L) <> obj (L_val L);
  inv_key_elem : obj (L_key L) <> obj (L_elem L);
  inv_val_elem : obj (L_val L) <> obj (L_elem L);
  inv_pos_key : obj (L_pos L) <> obj (L_key L);
  inv_pos_val : obj (L_pos L) <> obj (L_val L);
  inv_pos_elem : obj (L_pos L) <> obj (L_elem L);
  inv_attribs : Forall (fun '(_, b) => obj b <> obj (L_key L) /\ obj b <> obj (L_val L)
                                       /\ obj b <> obj (L_elem L))
                       (attribBuffers (L_vao L));
  inv_linked : exists srcs, linked_sources w (Program.program (L_presort L)) = Some srcs
                            /\ GL_COMPUTE_SHADER ∈ srcs.*1;
  inv_presort_uniforms : Forall (resolves E (L_presort L)) presort_uniforms;
  inv_uniforms : Forall (resolves E (L_prog L)) draw_uniforms
}.

Lemma point_perm_seqZ_length (l : list Z) n : l ≡ₚ seqZ 0 (Z.of_nat n) -> length l = n.
Proof. intros H. rewrite (Permutation_length H), length_seqZ. lia. Qed.


(** [glDispatchCompute] with the pre-sort program current and the three
    storage buffers bound. *)
Lemma glDispatchCompute_spec w (pv : list vec4) ks vs pb kb vb srcs :
  linked_sources w (current_program w) = Some srcs -> GL_COMPUTE_SHADER ∈ srcs.*1 ->
  ssbo w !! 0 = Some pb -> ssbo w !! 1 = Some kb -> ssbo w !! 2 = Some vb ->
  buffers w !! pb = Some (cells_of_vec4s pv) ->
  buffers w !! kb = Some (cells_of_u32s ks) -> buffers w !! vb = Some (cells_of_u32s vs) ->
  kb <> vb ->
  length ks = length pv -> length vs = length pv ->
  Z.of_nat (length pv) <= UINT32_MAX ->
  let n := Z.of_nat (length pv) in
  exists w' ks' vs',
    glDispatchCompute E (num_groups n) 1 1 w = Ok tt w'
    /\ buffers w' = <[kb := cells_of_u32s ks']> (<[vb := cells_of_u32s vs']> (buffers w))
    /\ calls w' = calls w ++ [DispatchCompute (num_groups n) 1 1]
    /\ programs w' = programs w
    /\ length ks' = length pv
    /\ (vs' = vs \/ vs' = seqZ 0 n)
    /\ (n + 255 <= UINT32_MAX ->
        vs' = seqZ 0 n
        /\ exists forward eye, ks' = DepthKey.key_of eye forward <$> (vec3_of_vec4 <$> pv)).
Proof.
  intros Hl Hcs Hs0 Hs1 Hs2 Hpos Hks Hvs Hkv Hlk Hlv Hc n.
  unfold glDispatchCompute.
  change (linked_sources (record (DispatchCompute (num_groups n) 1 1) w)
            (current_program (record (DispatchCompute (num_groups n) 1 1) w)))
    with (linked_sources w (current_program w)).
  rewrite Hl, bool_decide_eq_true_2 by exact Hcs.
  change (ssbo (record (DispatchCompute (num_groups n) 1 1) w)) with (ssbo w).
  change (buffers (record (DispatchCompute (num_groups n) 1 1) w)) with (buffers w).
  assert (0 <= n) as Hn0 by lia.
  assert (buffers w = <[kb:=cells_of_u32s ks]> (<[vb:=cells_of_u32s vs]> (buffers w))) as Hid.
  { rewrite (insert_id (buffers w) vb) by exact Hvs.
    rewrite insert_id by exact Hks. reflexivity. }
  destruct (Z_le_gt_dec (n + 255) UINT32_MAX) as [Hcover | Hwrap].
  - destruct (num_groups_in_range n Hn0 Hcover) as (Hg & Hg1 & Hg2).
    destruct (Z.leb_spec (num_groups n) 0) as [Hz | Hpos'].
    + assert (length pv = 0%nat) as HN by (unfold LOCAL_SIZE in *; lia).
      simpl orb. eexists _, ks, vs. split; [reflexivity|]. simpl.
      split; [exact Hid|]. split; [reflexivity|]. split; [reflexivity|]. split; [exact Hlk|].
      split; [now left|]. intros _. unfold n. rewrite HN. simpl.
      destruct vs; [|simpl in Hlv; lia]. split; [reflexivity|].
      exists (mk_vec3 0 0 0), (mk_vec3 0 0 0).
      destruct pv; [|discriminate]. destruct ks; [reflexivity|discriminate].
    + simpl orb. rewrite Hs0, Hs1, Hs2, Hpos, Hks, Hvs.
      rewrite presort_dispatch by lia.
      eexists _, _, _. split; [reflexivity|]. simpl.
      split; [reflexivity|]. split; [reflexivity|]. split; [reflexivity|].
      split; [now rewrite !length_fmap|]. split; [now right|].
      intros _. split; [reflexivity|]. eexists _, _. reflexivity.
  - rewrite (num_groups_wrapped n) by lia. simpl orb.
    eexists _, ks, vs. split; [reflexivity|]. simpl.
    split; [exact Hid|]. split; [reflexivity|]. split; [reflexivity|]. split; [exact Hlk|].
    split; [now left|]. intros; lia.
Qed.

(** The block "depth compute". *)
Lemma depth_compute_spec L r w cam :
  Inv L r w ->
  let n := Z.of_nat (length (posVec r)) in
  exists w1 lf le ks vs,
    depth_compute E r cam n w = Ok tt w1
    /\ buffers w1 = <[obj (L_key L) := cells_of_u32s ks]>
                      (<[obj (L_val L) := cells_of_u32s vs]> (buffers w))
    /\ length ks = length (posVec r)
    /\ vs ≡ₚ seqZ 0 n
    /\ (n + 255 <= UINT32_MAX ->
        vs = seqZ 0 n /\ exists forward eye, ks = kernel_keys forward eye r)
    /\ calls w1 = calls w ++
         [UseProgram (Program.program (L_presort L));
          Uniform lf (UVec3 (DepthKey.forward_of cam));
          Uniform le (UVec3 (DepthKey.eye_of cam));
          BindBufferBase GL_SHADER_STORAGE_BUFFER 0 (obj (L_pos L));
          BindBufferBase GL_SHADER_STORAGE_BUFFER 1 (obj (L_key L));
          BindBufferBase GL_SHADER_STORAGE_BUFFER 2 (obj (L_val L));
          DispatchCompute (num_groups n) 1 1;
          MemoryBarrier]
    /\ programs w1 = programs w.
Proof.
  intros I n.
  destruct (inv_key_buf _ _ _ I) as (ks & Hks & Hlks).
  destruct (inv_val_buf _ _ _ I) as (vs & Hvs & Hpvs).
  pose proof (point_perm_seqZ_length _ _ Hpvs) as Hlvs.
  pose proof (inv_pos_buf _ _ _ I) as Hpos.
  destruct (inv_linked _ _ _ I) as (srcs & Hlinked & Hcomp).
  pose proof (inv_key_val _ _ _ I) as Hkv.
  pose proof (inv_count _ _ _ I) as Hc.
  pose proof (inv_presort_uniforms _ _ _ I) as Hu. unfold presort_uniforms in Hu.
  rewrite Forall_forall in Hu.
  unfold depth_compute.
  rewrite (inv_presort _ _ _ I). simpl deref. norm.
  destruct (Bind_Ok (L_presort L) w) as (w0 & H0 & Hb0 & Hp0 & _ & _ & Hsb0 & _ & Hc0 & Hcur0).
  erewrite bind_Ok by exact H0.
  edestruct (SetUniform_Ok E (L_presort L) "forward") as (lf & w1 & Hrun1 & Hs1 & Hc1);
    [apply Hu, list_elem_of_In; simpl; tauto|].
  erewrite bind_Ok by exact Hrun1.
  edestruct (SetUniform_Ok E (L_presort L) "eye") as (le & w2 & Hrun2 & Hs2 & Hc2);
    [apply Hu, list_elem_of_In; simpl; tauto|].
  erewrite bind_Ok by exact Hrun2.
  rewrite (inv_pos _ _ _ I), (inv_key _ _ _ I), (inv_val _ _ _ I). simpl deref.
  unfold glBindBufferBase, glMemoryBarrier, GetObj. norm.
  destruct Hs1 as (Hb1 & Hp1 & _ & _ & Hsb1 & _ & Hcur1).
  destruct Hs2 as (Hb2 & Hp2 & _ & _ & Hsb2 & _ & Hcur2).
  assert (current_program w2 = Program.program (L_presort L)) as Hcur
    by (rewrite Hcur2, Hcur1; apply Hcur0; rewrite Hlinked; eauto).
  assert (programs w2 = programs w) as Hprogs by congruence.
  assert (buffers w2 = buffers w) as Hbufs by congruence.
  edestruct (glDispatchCompute_spec) as (w3 & ks' & vs' & H3 & Hb3 & Hc3 & Hp3 & Hlk3 & Hv3 & Hcov3);
    cycle -1.
  { erewrite bind_Ok by exact H3. norm.
    eexists _, lf, le, ks', vs'. split; [reflexivity|]. simpl.
    split. { rewrite Hb3. simpl. rewrite Hbufs. reflexivity. }
    split; [exact Hlk3|].
    split. { destruct Hv3 as [-> | ->]; [exact Hpvs|reflexivity]. }
    split. { intros Hcover. destruct (Hcov3 Hcover) as (-> & fwd & eye & ->).
             split; [reflexivity|]. exists fwd, eye. reflexivity. }
    split. { rewrite Hc3. simpl. rewrite Hc2, Hc1, Hc0, <- !app_assoc. reflexivity. }
    rewrite Hp3. simpl. exact Hprogs. }
  - unfold linked_sources in *. simpl. rewrite Hcur, Hprogs. exact Hlinked.
  - exact Hcomp.
  - simpl. rewrite !lookup_insert_ne by lia. apply lookup_insert_eq.
  - simpl. rewrite lookup_insert_ne by lia. apply lookup_insert_eq.
  - simpl. apply lookup_insert_eq.
  - simpl. rewrite Hbufs. exact Hpos.
  - simpl. rewrite Hbufs. exact Hks.
  - simpl. rewrite Hbufs. exact Hvs.
  - exact Hkv.
  - exact Hlks.
  - exact Hlvs.
  - exact Hc.
Qed.

Lemma point_Render_after_keys r cam vp nf fv w :
  Render E r cam vp nf fv w =
  (depth_compute E r cam (Z.of_nat (length (posVec r))) ≫=
     fun _ => sort_and_draw r (Z.of_nat (length (posVec r))) cam vp nf fv) w.
Proof. reflexivity. Qed.

Lemma point_draw_spec L r w cam vp nf fv :
  Inv L r w ->
  exists w' l1 l2 l3 l4 l5,
    draw E r cam vp nf fv w = Ok tt w'
    /\ buffers w' = buffers w /\ programs w' = programs w
    /\ calls w' = calls w ++
         [UseProgram (Program.program (L_prog L));
          Uniform l1 (UMat4 (inverse E cam));
          Uniform l2 (UMat4 (perspective E fv (z4 vp / w4 vp)%Q nf.1 nf.2));
          Uniform l3 (UFloat 0.02);
          Uniform l4 (UFloat (1 / (z4 vp / w4 vp)));
          ActiveTexture 0;
          BindTexture (L_tex L);
          Uniform l5 (UInt 0);
          GL.DrawElements (obj (L_elem L)) (Z.of_nat (length (posVec r)))].
Proof.
  intros I. unfold draw.
  rewrite (inv_prog _ _ _ I). simpl deref. norm.
  pose proof (inv_uniforms _ _ _ I) as Hu. unfold draw_uniforms in Hu.
  rewrite Forall_forall in Hu.
  destruct (Bind_Ok (L_prog L) w) as (w0 & H0 & Hb0 & Hp0 & _ & _ & _ & _ & Hc0 & _).
  erewrite bind_Ok by exact H0.
  edestruct (SetUniform_Ok E (L_prog L) "modelViewMat") as (l1 & w1 & Hrun1 & Hs1 & Hc1);
    [apply Hu, list_elem_of_In; simpl; tauto|].
  erewrite bind_Ok by exact Hrun1.
  edestruct (SetUniform_Ok E (L_prog L) "projMat") as (l2 & w2 & Hrun2 & Hs2 & Hc2);
    [apply Hu, list_elem_of_In; simpl; tauto|].
  erewrite bind_Ok by exact Hrun2.
  edestruct (SetUniform_Ok E (L_prog L) "pointSize") as (l3 & w3 & Hrun3 & Hs3 & Hc3);
    [apply Hu, list_elem_of_In; simpl; tauto|].
  erewrite bind_Ok by exact Hrun3.
  edestruct (SetUniform_Ok E (L_prog L) "invAspectRatio") as (l4 & w4 & Hrun4 & Hs4 & Hc4);
    [apply Hu, list_elem_of_In; simpl; tauto|].
  erewrite bind_Ok by exact Hrun4.
  unfold glActiveTexture, glBindTexture. norm.
  rewrite (inv_tex _ _ _ I). simpl deref. norm.
  edestruct (SetUniform_Ok E (L_prog L) "colorTex") as (l5 & w5 & Hrun5 & Hs5 & Hc5);
    [apply Hu, list_elem_of_In; simpl; tauto|].
  erewrite bind_Ok by exact Hrun5.
  rewrite (inv_vao _ _ _ I). simpl deref. norm.
  unfold DrawElements. rewrite (inv_elem _ _ _ I). simpl deref. norm.
  eexists _, l1, l2, l3, l4, l5. split; [reflexivity|].
  destruct Hs1 as (Hb1 & Hp1 & _), Hs2 as (Hb2 & Hp2 & _), Hs3 as (Hb3 & Hp3 & _),
    Hs4 as (Hb4 & Hp4 & _), Hs5 as (Hb5 & Hp5 & _).
  simpl in *. split; [congruence|]. split; [congruence|].
  rewrite Hc5. simpl. rewrite Hc4, Hc3, Hc2, Hc1, Hc0, (inv_elem_cells _ _ _ I), <- !app_assoc.
  reflexivity.
Qed.

(** The invariant looks at the world through its buffers and programs only. *)
Lemma point_Inv_same_buffers L r w w' :
  Inv L r w -> buffers w' = buffers w -> programs w' = programs w -> Inv L r w'.
Proof.
  intros I Hb Hp. destruct I. constructor; try assumption; try (rewrite Hb; assumption).
  unfold linked_sources in *. rewrite Hp. assumption.
Qed.

Lemma sorted_values_perm' (ks vs : list Z) n :
  length ks = n -> vs ≡ₚ seqZ 0 (Z.of_nat n) ->
  (sort_pairs (zip ks vs)).*2 ≡ₚ seqZ 0 (Z.of_nat n).
Proof.
  intros Hl Hp. rewrite (sort_pairs_perm _).
  rewrite snd_zip by (rewrite (point_perm_seqZ_length _ _ Hp); lia). exact Hp.
Qed.

Lemma sorted_length' (ks vs : list Z) n :
  length ks = n -> length vs = n -> length (sort_pairs (zip ks vs)) = n.
Proof.
  intros Hk Hv. rewrite (Permutation_length (sort_pairs_perm _)).
  rewrite length_zip_with. lia.
Qed.

(** One frame, start to end.  [ks] and [vs] are what the sort starts from. *)
Lemma point_Render_spec L r w cam vp nf fv :
  Inv L r w ->
  let n := Z.of_nat (length (posVec r)) in
  exists w' lf le l1 l2 l3 l4 l5 ks vs,
    let sorted := sort_pairs (zip ks vs) in
    Render E r cam vp nf fv w = Ok r w'
    /\ length ks = length (posVec r)
    /\ vs ≡ₚ seqZ 0 n
    /\ (n + 255 <= UINT32_MAX ->
        vs = seqZ 0 n /\ exists forward eye, ks = kernel_keys forward eye r)
    /\ buffers w' = <[obj (L_elem L) := cells_of_u32s (sorted.*2)]>
                      (<[obj (L_key L) := cells_of_u32s (sorted.*1)]>
                         (<[obj (L_val L) := cells_of_u32s (sorted.*2)]> (buffers w)))
    /\ calls w' = calls w ++
         [UseProgram (Program.program (L_presort L));
          Uniform lf (UVec3 (DepthKey.forward_of cam));
          Uniform le (UVec3 (DepthKey.eye_of cam));
          BindBufferBase GL_SHADER_STORAGE_BUFFER 0 (obj (L_pos L));
          BindBufferBase GL_SHADER_STORAGE_BUFFER 1 (obj (L_key L));
          BindBufferBase GL_SHADER_STORAGE_BUFFER 2 (obj (L_val L));
          DispatchCompute (num_groups n) 1 1;
          MemoryBarrier;
          RadixSort (obj (L_key L)) (obj (L_val L)) n;
          BindBuffer GL_COPY_READ_BUFFER (obj (L_val L));
          BindBuffer GL_COPY_WRITE_BUFFER (obj (L_elem L));
          CopyBufferSubData GL_COPY_READ_BUFFER GL_COPY_WRITE_BUFFER 0 0 (n * 4);
          UseProgram (Program.program (L_prog L));
          Uniform l1 (UMat4 (inverse E cam));
          Uniform l2 (UMat4 (perspective E fv (z4 vp / w4 vp)%Q nf.1 nf.2));
          Uniform l3 (UFloat 0.02);
          Uniform l4 (UFloat (1 / (z4 vp / w4 vp)));
          ActiveTexture 0;
          BindTexture (L_tex L);
          Uniform l5 (UInt 0);
          GL.DrawElements (obj (L_elem L)) n]
    /\ Inv L r w'.
Proof.
  intros I n.
  destruct (depth_compute_spec L r w cam I)
    as (w1 & lf & le & ks & vs & Hrun1 & Hb1 & Hlks & Hpvs & Hcov & Hc1 & Hp1).
  destruct (inv_elem_buf _ _ _ I) as (es & Hes & Hpes).
  pose proof (point_perm_seqZ_length _ _ Hpvs) as Hlvs.
  pose proof (point_perm_seqZ_length _ _ Hpes) as Hles.
  pose proof (inv_key_val _ _ _ I) as Hkv.
  pose proof (inv_key_elem _ _ _ I) as Hke.
  pose proof (inv_val_elem _ _ _ I) as Hve.
  pose proof (inv_pos_key _ _ _ I) as Hpk.
  pose proof (inv_pos_val _ _ _ I) as Hpv.
  pose proof (inv_pos_elem _ _ _ I) as Hpe.
  pose proof (inv_count _ _ _ I) as Hc.
  set (sorted := sort_pairs (zip ks vs)).
  assert (exists wa, sort_block r n w1 = Ok tt wa
    /\ buffers wa = <[obj (L_key L) := cells_of_u32s (sorted.*1)]>
                      (<[obj (L_val L) := cells_of_u32s (sorted.*2)]> (buffers w1))
    /\ programs wa = programs w1
    /\ calls wa = calls w1 ++ [RadixSort (obj (L_key L)) (obj (L_val L)) n])
    as (wa & Hruna & Hba & Hpa & Hca).
  { unfold sort_block.
    rewrite (inv_sorter _ _ _ I), (inv_key _ _ _ I), (inv_val _ _ _ I).
    simpl deref. norm. unfold GetObj.
    erewrite (sort_Ok _ _ _ (length (posVec r))); [|exact Hkv|reflexivity| | | |]; cycle 1.
    - rewrite Hb1. apply lookup_insert_eq.
    - rewrite Hb1. rewrite lookup_insert_ne by congruence. apply lookup_insert_eq.
    - exact Hlks.
    - exact Hlvs.
    - eexists. split; [reflexivity|]. repeat split. }
  assert (exists w2, copy_sorted_indices r n wa = Ok tt w2
    /\ buffers w2 = <[obj (L_elem L) := cells_of_u32s (sorted.*2)]> (buffers wa)
    /\ programs w2 = programs wa
    /\ calls w2 = calls wa ++
         [BindBuffer GL_COPY_READ_BUFFER (obj (L_val L));
          BindBuffer GL_COPY_WRITE_BUFFER (obj (L_elem L));
          CopyBufferSubData GL_COPY_READ_BUFFER GL_COPY_WRITE_BUFFER 0 0 (n * 4)])
    as (w2 & Hrun2 & Hb2 & Hp2 & Hc2).
  { unfold copy_sorted_indices.
    rewrite (inv_val _ _ _ I), (inv_vao _ _ _ I). simpl deref.
    unfold glBindBuffer, GetObj. norm.
    rewrite (inv_elem _ _ _ I). simpl deref. norm.
    erewrite glCopyBufferSubData_Ok with (n := length (posVec r)); cycle 1.
    - simpl. unfold bind_point. simpl. reflexivity.
    - simpl. unfold bind_point. simpl. reflexivity.
    - exact Hve.
    - simpl. rewrite Hba. rewrite lookup_insert_ne by exact Hkv. apply lookup_insert_eq.
    - simpl. rewrite Hba, Hb1, !lookup_insert_ne by congruence. exact Hes.
    - rewrite length_cells_of_u32s, length_fmap. now apply sorted_length'.
    - rewrite length_cells_of_u32s. exact Hles.
    - exact Hc.
    - eexists. split; [reflexivity|]. simpl. rewrite <- !app_assoc. repeat split. }
  assert (buffers w2 = <[obj (L_elem L) := cells_of_u32s (sorted.*2)]>
                      (<[obj (L_key L) := cells_of_u32s (sorted.*1)]>
                         (<[obj (L_val L) := cells_of_u32s (sorted.*2)]> (buffers w)))) as Hb2'.
  { rewrite Hb2, Hba, Hb1.
    apply map_eq. intros k. rewrite !lookup_insert.
    repeat case_decide; congruence. }
  assert (Inv L r w2) as I2.
  { destruct I. constructor; try assumption.
    - eexists. split.
      + rewrite Hb2'. rewrite lookup_insert_ne by congruence. apply lookup_insert_eq.
      + rewrite length_fmap. now apply sorted_length'.
    - eexists. split.
      + rewrite Hb2'. rewrite !lookup_insert_ne by congruence. apply lookup_insert_eq.
      + now apply sorted_values_perm'.
    - eexists. split.
      + rewrite Hb2'. apply lookup_insert_eq.
      + now apply sorted_values_perm'.
    - rewrite Hb2'. rewrite !lookup_insert_ne by congruence. assumption.
    - unfold linked_sources in *. rewrite Hp2, Hpa, Hp1. assumption. }
  destruct (point_draw_spec L r w2 cam vp nf fv I2)
    as (w3 & l1 & l2 & l3 & l4 & l5 & Hrun3 & Hb3 & Hp3 & Hc3).
  exists w3, lf, le, l1, l2, l3, l4, l5, ks, vs.
  split.
  { rewrite point_Render_after_keys. erewrite bind_Ok by exact Hrun1.
    unfold sort_and_draw.
    erewrite bind_Ok by exact Hruna. erewrite bind_Ok by exact Hrun2.
    erewrite bind_Ok by exact Hrun3. reflexivity. }
  split; [exact Hlks|]. split; [exact Hpvs|]. split; [exact Hcov|].
  split; [now rewrite Hb3|]. split.
  - rewrite Hc3, Hc2, Hca, Hc1, <- !app_assoc. reflexivity.
  - eapply point_Inv_same_buffers; eassumption.
Qed.
End WithEnv.

End PointFacts.

(** ** Frame after frame *)

Module Frames.
Import Num glm GL radix_sort Device Run.

Section WithEnv.
Context (E : Env) `{sorter_impl : !ParallelSorter}.

(** The application's frame loop: one [Render] per camera pose. *)
Fixpoint splat_frames (cams : list mat4) (vp : vec4) (nf : Q * Q) (fv : Q)
    (r : SplatRenderer.SplatRenderer) : M SplatRenderer.SplatRenderer :=
  match cams with
  | [] => mret r
  | cam :: cams' =>
      r' ← SplatRenderer.Render E r cam vp nf fv;
      splat_frames cams' vp nf fv r'
  end.

Fixpoint point_frames (cams : list mat4) (vp : vec4) (nf : Q * Q) (fv : Q)
    (r : PointRenderer.PointRenderer) : M PointRenderer.PointRenderer :=
  match cams with
  | [] => mret r
  | cam :: cams' =>
      r' ← PointRenderer.Render E r cam vp nf fv;
      point_frames cams' vp nf fv r'
  end.

Lemma splat_frames_Inv L cams vp nf fv : forall r w,
  SplatFacts.Inv E L r w ->
  exists r' w',
    splat_frames cams vp nf fv r w = Ok r' w'
    /\ SplatFacts.Inv E L r' w'
    /\ SplatRenderer.positionVec r' = SplatRenderer.positionVec r.
Proof.
  induction cams as [|cam cams IH]; intros r w I.
  - exists r, w. split; [reflexivity|]. split; [exact I | reflexivity].
  - destruct (SplatFacts.splat_Render_spec E L r w cam vp nf fv I)
      as (w1 & _ & _ & _ & _ & Hrun & _ & _ & I1).
    destruct (IH _ _ I1) as (r' & w' & Hrest & I' & Hpos).
    exists r', w'. simpl. erewrite bind_Ok by exact Hrun.
    split; [exact Hrest|]. split; [exact I'|]. exact Hpos.
Qed.

Lemma point_frames_Inv L cams vp nf fv : forall r w,
  PointFacts.Inv E L r w ->
  exists w', point_frames cams vp nf fv r w = Ok r w' /\ PointFacts.Inv E L r w'.
Proof.
  induction cams as [|cam cams IH]; intros r w I.
  - exists w. split; [reflexivity | exact I].
  - destruct (PointFacts.point_Render_spec E L r w cam vp nf fv I)
      as (w1 & _ & _ & _ & _ & _ & _ & _ & _ & _ & Hrun & _ & _ & _ & _ & _ & I1).
    destruct (IH _ _ I1) as (w' & Hrest & I').
    exists w'. simpl. erewrite bind_Ok by exact Hrun. split; assumption.
Qed.

End WithEnv.

End Frames.

(** ** Loading programs *)

Module ProgramFacts.
Import Num NumFacts GL Run Program.

(** Computations that only read the GL state or write to the log: they
    create, change and delete no object and make no GL call. *)
Definition quiet {A} (m : M A) : Prop :=
  forall w a w', m w = Ok a w' -> same_objects w w' /\ calls w' = calls w.

Lemma quiet_ret {A} (a : A) : quiet (mret a).
Proof. intros w a' w' [= _ <-]. split; [apply same_objects_refl|reflexivity]. Qed.

Lemma quiet_get {A} (f : World -> A) : quiet (get f).
Proof. intros w a' w' [= _ <-]. split; [apply same_objects_refl|reflexivity]. Qed.

Lemma quiet_bind {A B} (m : M A) (k : A -> M B) :
  quiet m -> (forall a, quiet (k a)) -> quiet (m ≫= k).
Proof.
  intros Hm Hk w b w' H. inv_bind H as a w1 H1.
  destruct (Hm _ _ _ H1) as [Hs1 Hc1], (Hk _ _ _ _ H) as [Hs2 Hc2].
  split; [eapply same_objects_trans; eassumption|congruence].
Qed.

Lemma quiet_printf s : quiet (Log.printf s).
Proof. intros w a w' [= _ <-]. repeat split. Qed.

Lemma quiet_when b m : quiet m -> quiet (when b m).
Proof. intros Hm. destruct b; [exact Hm|apply quiet_ret]. Qed.

Lemma quiet_DumpShaderSource_lines lines : forall i, quiet (DumpShaderSource_lines i lines).
Proof.
  induction lines as [|l lines IH]; intros i; simpl.
  - apply quiet_ret.
  - apply quiet_bind; [apply quiet_printf|intros _; apply IH].
Qed.

Lemma quiet_DumpShaderSource s : quiet (DumpShaderSource s).
Proof.
  apply quiet_bind; [apply quiet_DumpShaderSource_lines|intros _; apply quiet_printf].
Qed.

(** The GL calls [w'] has seen since [w]. *)
Definition calls_since (w w' : World) (cs : list call) : Prop := calls w' = calls w ++ cs.

Lemma calls_since_trans w1 w2 w3 cs1 cs2 :
  calls_since w1 w2 cs1 -> calls_since w2 w3 cs2 -> calls_since w1 w3 (cs1 ++ cs2).
Proof. unfold calls_since. intros H1 H2. now rewrite H2, H1, app_assoc. Qed.

(** A handle that does not name an object of an earlier load. *)
Definition null_or_new (w : World) (h : Z) : Prop := h = 0 \/ next_name w <= h.

Definition handles_new (w : World) (p : Program) : Prop :=
  null_or_new w (program p) /\ null_or_new w (vertShader p) /\ null_or_new w (geomShader p)
  /\ null_or_new w (fragShader p) /\ null_or_new w (computeShader p).

Definition no_reflection (p : Program) : Prop := uniforms p = ∅ /\ attribs p = ∅.

(** The five calls of [Delete]. *)
Definition delete_calls (p : Program) : list call :=
  [DeleteShader (vertShader p); DeleteShader (geomShader p); DeleteShader (fragShader p);
   DeleteShader (computeShader p); DeleteProgram (program p)].

(** Computations that only add to the trace of GL calls. *)
Definition monotone {A} (m : M A) : Prop :=
  forall w a w', m w = Ok a w' -> exists cs, calls_since w w' cs.

Lemma monotone_quiet {A} (m : M A) : quiet m -> monotone m.
Proof.
  intros Hq w a w' H. exists []. destruct (Hq _ _ _ H) as [_ Hc].
  unfold calls_since. now rewrite app_nil_r.
Qed.

Lemma monotone_modify_record c f :
  (forall w, calls (f w) = calls w) -> monotone (modify (fun w => f (record c w))).
Proof.
  intros Hf w a w' [= _ <-]. exists [c]. unfold calls_since. now rewrite Hf.
Qed.

Lemma monotone_bind {A B} (m : M A) (k : A -> M B) :
  monotone m -> (forall a, monotone (k a)) -> monotone (m ≫= k).
Proof.
  intros Hm Hk w b w' H. inv_bind H as a w1 H1.
  destruct (Hm _ _ _ H1) as [cs1 Hc1], (Hk _ _ _ _ H) as [cs2 Hc2].
  exists (cs1 ++ cs2). eapply calls_since_trans; eassumption.
Qed.

Lemma monotone_when b m : monotone m -> monotone (when b m).
Proof. intros Hm. destruct b; [exact Hm|apply monotone_quiet, quiet_ret]. Qed.

Section WithEnv.
Context (E : Env).

Lemma quiet_reflect_uniforms prog active : forall u, quiet (reflect_uniforms E prog active u).
Proof.
  induction active as [|[[n sz] ty] active IH]; intros u; simpl.
  - apply quiet_ret.
  - apply quiet_bind; [apply quiet_get|intros l; apply IH].
Qed.

Lemma quiet_reflect_attribs prog active : forall u, quiet (reflect_attribs E prog active u).
Proof.
  induction active as [|[[n sz] ty] active IH]; intros u; simpl.
  - apply quiet_ret.
  - apply quiet_bind; [apply quiet_get|intros l; apply IH].
Qed.

Lemma quiet_CheckLinkStatus p : quiet (CheckLinkStatus E p).
Proof.
  unfold CheckLinkStatus.
  apply quiet_bind; [apply quiet_get|intros linked].
  apply quiet_bind; [apply quiet_when, quiet_printf|intros _].
  apply quiet_bind; [apply quiet_get|intros [bufferLen buffer]].
  apply quiet_bind.
  - apply quiet_when, quiet_bind; [apply quiet_when, quiet_printf|intros _; apply quiet_printf].
  - intros _. destruct (if WARNINGS_AS_ERRORS E then _ else _); apply quiet_ret.
Qed.

(** [CheckLinkStatus] answers [true] only for a linked program. *)
Lemma CheckLinkStatus_true p w w' :
  CheckLinkStatus E p w = Ok true w' -> is_Some (linked_sources w (program p)).
Proof.
  unfold CheckLinkStatus. intros H.
  inv_bind H as linked w1 H1. injection H1 as <- <-.
  inv_bind H as u1 w2 H2. inv_bind H as bl w3 H3. destruct bl as [bufferLen buffer].
  inv_bind H as u2 w4 H4.
  destruct (bool_decide (is_Some (linked_sources w (program p)))) eqn:Hl.
  - now apply bool_decide_eq_true in Hl.
  - simpl in H. destruct (WARNINGS_AS_ERRORS E); discriminate.
Qed.

(** What [CompileShader] does to the GL state, whatever it answers: one
    shader object is created and given the source, and [*shaderOut] is
    written only on success. *)
Lemma CompileShader_inv ty src out dbg w ok sh w' :
  CompileShader E ty src out dbg w = Ok (ok, sh) w' ->
  shaders w' = <[next_name w := (ty, src)]> (shaders w)
  /\ next_name w' = next_name w + 1
  /\ programs w' = programs w /\ buffers w' = buffers w
  /\ sh = (if ok then next_name w else out)
  /\ calls_since w w' [CreateShader ty (next_name w); ShaderSource (next_name w) src;
                       CompileShaderCall (next_name w)].
Proof.
  unfold CompileShader. intros H.
  inv_bind H as s w1 H1. injection H1 as <- <-.
  inv_bind H as u1 w2 H2. injection H2 as _ <-.
  inv_bind H as u2 w3 H3. injection H3 as _ <-.
  inv_bind H as compiled w4 H4. injection H4 as <- <-.
  inv_bind H as u3 w5 H5. apply quiet_when in H5; [|apply quiet_printf].
  inv_bind H as bufferLen w6 H6. injection H6 as <- <-.
  inv_bind H as u4 w7 H7.
  apply quiet_when in H7.
  2:{ apply quiet_bind; [apply quiet_when, quiet_printf|intros _].
      apply quiet_bind; [apply quiet_get|intros b].
      apply quiet_bind; [apply quiet_printf|intros _; apply quiet_DumpShaderSource]. }
  destruct H5 as ((Hb5 & Hp5 & Hs5 & Hn5 & _) & Hc5), H7 as ((Hb7 & Hp7 & Hs7 & Hn7 & _) & Hc7).
  assert (w' = w7 /\ sh = (if ok then next_name w else out)) as [-> ->].
  { destruct (if WARNINGS_AS_ERRORS E then _ else _); injection H as <- <- <-; auto. }
  unfold calls_since.
  rewrite Hs7, Hs5, Hn7, Hn5, Hp7, Hp5, Hb7, Hb5, Hc7, Hc5. simpl.
  rewrite alter_insert_eq, <- !app_assoc. repeat split.
Qed.

Lemma glCreateProgram_inv w prog w' :
  glCreateProgram w = Ok prog w' ->
  prog = next_name w
  /\ programs w' = <[prog := mk_program_object [] None]> (programs w)
  /\ shaders w' = shaders w /\ next_name w' = next_name w + 1 /\ buffers w' = buffers w
  /\ calls_since w w' [CreateProgram prog].
Proof. intros [= <- <-]. repeat split. Qed.

Lemma glAttachShader_inv prog s w u w' :
  glAttachShader prog s w = Ok u w' ->
  programs w' = alter (fun o => mk_program_object (attached o ++ [s]) (linked_from o))
                      prog (programs w)
  /\ shaders w' = shaders w /\ next_name w' = next_name w /\ buffers w' = buffers w.
Proof. intros [= _ <-]. repeat split. Qed.

Lemma glLinkProgram_inv prog w u w' :
  glLinkProgram E prog w = Ok u w' ->
  programs w' = alter (fun o => mk_program_object (attached o)
                        (if (drv_link E (attached_sources w prog)).1
                         then Some (attached_sources w prog) else None))
                      prog (programs w)
  /\ shaders w' = shaders w /\ next_name w' = next_name w /\ buffers w' = buffers w.
Proof. intros [= _ <-]. repeat split. Qed.

Lemma glDeleteShader_inv sh w u w' :
  glDeleteShader sh w = Ok u w' ->
  calls_since w w' [DeleteShader sh] /\ next_name w' = next_name w
  /\ programs w' = programs w /\ buffers w' = buffers w.
Proof.
  unfold glDeleteShader. intros [= _ <-]. cbv zeta.
  destruct (sh =? 0); [repeat split|].
  simpl. destruct (shaders w !! sh); repeat split.
Qed.

Lemma glDeleteProgram_inv prog w u w' :
  glDeleteProgram prog w = Ok u w' ->
  calls_since w w' [DeleteProgram prog] /\ next_name w' = next_name w
  /\ buffers w' = buffers w
  /\ (prog <> 0 -> programs w' !! prog = None).
Proof.
  unfold glDeleteProgram. intros [= _ <-]. cbv zeta.
  destruct (prog =? 0) eqn:H0.
  { repeat split. intros Hne. apply Z.eqb_eq in H0. contradiction. }
  simpl. destruct (programs w !! prog) eqn:Hp; repeat split; intros _; simpl;
    [apply lookup_delete_eq|exact Hp].
Qed.

(** [Delete] forgets every handle and both reflection tables, creates
    nothing, and takes the program object out of the context. *)
Lemma Delete_inv p w p0 w0 :
  Delete p w = Ok p0 w0 ->
  p0 = mk_Program 0 0 0 0 0 EmptyString ∅ ∅
  /\ next_name w0 = next_name w /\ buffers w0 = buffers w
  /\ calls_since w w0 (delete_calls p)
  /\ (program p <> 0 -> programs w0 !! program p = None).
Proof.
  unfold Delete. cbv zeta. intros H.
  inv_bind H as u1 w1 H1. apply glDeleteShader_inv in H1 as (Hc1 & Hn1 & _ & Hb1).
  inv_bind H as u2 w2 H2. apply glDeleteShader_inv in H2 as (Hc2 & Hn2 & _ & Hb2).
  inv_bind H as u3 w3 H3. apply glDeleteShader_inv in H3 as (Hc3 & Hn3 & _ & Hb3).
  inv_bind H as u4 w4 H4. apply glDeleteShader_inv in H4 as (Hc4 & Hn4 & _ & Hb4).
  inv_bind H as u5 w5 H5. apply glDeleteProgram_inv in H5 as (Hc5 & Hn5 & Hb5 & Hp5).
  injection H as <- <-. simpl in *.
  split; [reflexivity|]. split; [congruence|]. split; [congruence|].
  split; [|exact Hp5].
  unfold calls_since, delete_calls in *. rewrite Hc5, Hc4, Hc3, Hc2, Hc1.
  now rewrite <- !app_assoc.
Qed.

Lemma LoadFile_inv file r w ok text w' :
  LoadFile E file r w = Ok (ok, text) w' ->
  w' = w /\ (ok, text) = match files E !! file with
                         | Some t => (true, t)
                         | None => (false, r)
                         end.
Proof. intros [= <- <-]. split; reflexivity. Qed.

(** A compute program that [LoadCompute] reports as loaded is linked from
    one compute shader. *)
Lemma LoadCompute_linked p file w p' w' :
  LoadCompute E p file w = Ok (true, p') w' ->
  exists src, linked_sources w' (program p') = Some [(GL_COMPUTE_SHADER, src)].
Proof.
  unfold LoadCompute. intros H.
  inv_bind H as p0 w0 H0. inv_bind H as lf w1 H1. destruct lf as [ok src].
  inv_bind H as u1 w2 H2. inv_bind H as cs w3 H3. destruct cs as [ok' sh].
  apply CompileShader_inv in H3 as (Hs3 & Hn3 & Hp3 & _ & Hsh & _).
  destruct ok'; take_branch H.
  2:{ inv_bind H as u w4 H4. discriminate. }
  inv_bind H as prog w4 H4. apply glCreateProgram_inv in H4 as (Hprog & Hp4 & Hs4 & _).
  inv_bind H as u2 w5 H5. apply glAttachShader_inv in H5 as (Hp5 & Hs5 & _).
  inv_bind H as u3 w6 H6. apply glLinkProgram_inv in H6 as (Hp6 & _).
  inv_bind H as linked w7 H7.
  destruct linked; take_branch H.
  2:{ do 4 (apply bind_inv_Ok in H as (? & ? & _ & H)). discriminate. }
  pose proof (CheckLinkStatus_true _ _ _ H7) as Hl.
  apply quiet_CheckLinkStatus in H7 as ((_ & Hp7 & _) & _).
  inv_bind H as active w8 H8. injection H8 as _ <-.
  inv_bind H as u w9 H9. apply quiet_reflect_uniforms in H9 as ((_ & Hp9 & _) & _).
  injection H as <- <-. exists src. simpl in Hl, Hp5, Hp6 |- *. subst prog sh.
  assert (attached_sources w5 (next_name w3) = [(GL_COMPUTE_SHADER, src)]) as Hsrc.
  { unfold attached_sources. rewrite Hp5, Hp4, alter_insert_eq, lookup_insert_eq. simpl.
    now rewrite Hs5, Hs4, Hs3, lookup_insert_eq. }
  rewrite Hsrc in Hp6.
  unfold linked_sources in *. rewrite Hp9, Hp7. rewrite Hp6 in Hl |- *.
  rewrite Hp5, Hp4, !alter_insert_eq, lookup_insert_eq in Hl |- *. simpl in *.
  destruct (drv_link E _).1; [reflexivity|]. destruct Hl; discriminate.
Qed.

Lemma LoadCompute_failed p file w p' w' :
  LoadCompute E p file w = Ok (false, p') w' -> no_reflection p' /\ handles_new w p'.
Proof.
  unfold LoadCompute. intros H.
  inv_bind H as p0 w0 H0. apply Delete_inv in H0 as (Hp0 & Hn0 & _).
  inv_bind H as lf w1 H1. destruct lf as [ok src]. apply LoadFile_inv in H1 as (-> & _).
  inv_bind H as u1 w2 H2.
  apply quiet_when in H2 as ((_ & _ & _ & Hn2 & _) & _); [|apply quiet_printf].
  inv_bind H as cs w3 H3. destruct cs as [ok' sh].
  apply CompileShader_inv in H3 as (_ & Hn3 & _ & _ & Hsh & _).
  unfold no_reflection, handles_new, null_or_new.
  destruct ok'; take_branch H.
  2:{ inv_bind H as u w4 H4. injection H as <- <-. subst p0 sh. simpl. tauto. }
  inv_bind H as prog w4 H4. apply glCreateProgram_inv in H4 as (Hprog & _).
  inv_bind H as u2 w5 H5. inv_bind H as u3 w6 H6. inv_bind H as linked w7 H7.
  destruct linked; take_branch H.
  - inv_bind H as active w8 H8. inv_bind H as u w9 H9. discriminate.
  - do 4 (apply bind_inv_Ok in H as (? & ? & _ & H)). injection H as <- <-.
    subst p0 sh prog. simpl. repeat split; auto; right; lia.
Qed.

Lemma LoadVertGeomFrag_failed p vf gf ff w p' w' :
  LoadVertGeomFrag E p vf gf ff w = Ok (false, p') w' -> no_reflection p' /\ handles_new w p'.
Proof.
  unfold LoadVertGeomFrag. intros H. cbv zeta in H.
  inv_bind H as p0 w0 H0. apply Delete_inv in H0 as (Hp0 & Hn0 & _).
  unfold no_reflection, handles_new, null_or_new.
  inv_bind H as lf w1 H1. destruct lf as [ok vsrc]. apply LoadFile_inv in H1 as (-> & _).
  destruct ok; take_branch H.
  2:{ inv_bind H as u w4 H4. injection H as <- <-. subst p0. simpl. tauto. }
  inv_bind H as lf w1 H1. destruct lf as [ok gsrc].
  assert (w1 = w0) as ->.
  { destruct (negb (String.eqb gf "")); [now apply LoadFile_inv in H1|now injection H1]. }
  destruct ok; take_branch H.
  2:{ inv_bind H as u w4 H4. injection H as <- <-. subst p0. simpl. tauto. }
  inv_bind H as lf w1 H2. destruct lf as [ok fsrc]. apply LoadFile_inv in H2 as (-> & _).
  destruct ok; take_branch H.
  2:{ inv_bind H as u w4 H4. injection H as <- <-. subst p0. simpl. tauto. }
  inv_bind H as cs w2 H3. destruct cs as [ok shv].
  apply CompileShader_inv in H3 as (_ & Hn3 & _ & _ & Hshv & _).
  destruct ok; take_branch H.
  2:{ inv_bind H as u w4 H4. injection H as <- <-. subst p0 shv. simpl. tauto. }
  inv_bind H as cs w3 H4. destruct cs as [ok shg].
  assert (next_name w2 <= next_name w3
          /\ (shg = 0 \/ next_name w <= shg)) as [Hn4 Hg].
  { destruct (negb (String.eqb gf "")).
    - apply CompileShader_inv in H4 as (_ & Hn4 & _ & _ & -> & _).
      split; [lia|]. subst p0. destruct ok; simpl; [right; lia|tauto].
    - injection H4 as _ <- <-. subst p0. simpl. split; [lia|tauto]. }
  destruct ok; take_branch H.
  2:{ inv_bind H as u w4 H5. injection H as <- <-. subst p0 shv. simpl.
      repeat split; auto; right; lia. }
  inv_bind H as cs w4 H5. destruct cs as [ok shf].
  apply CompileShader_inv in H5 as (_ & Hn5 & _ & _ & Hshf & _).
  destruct ok; take_branch H.
  2:{ inv_bind H as u w5 H6. injection H as <- <-. subst p0 shv shf. simpl.
      repeat split; auto; right; lia. }
  inv_bind H as prog w5 H6. apply glCreateProgram_inv in H6 as (Hprog & _).
  do 4 (apply bind_inv_Ok in H as (? & ? & _ & H)).
  inv_bind H as linked w6 H7.
  destruct linked; take_branch H.
  - do 4 (apply bind_inv_Ok in H as (? & ? & _ & H)). discriminate.
  - do 7 (apply bind_inv_Ok in H as (? & ? & _ & H)). injection H as <- <-.
    subst p0 shv shf prog. simpl.
    repeat split; auto; right; lia.
Qed.

Lemma monotone_CompileShader ty src out dbg : monotone (CompileShader E ty src out dbg).
Proof.
  intros w [ok sh] w' H. apply CompileShader_inv in H as (_ & _ & _ & _ & _ & Hc). eauto.
Qed.

Lemma monotone_glCreateProgram : monotone glCreateProgram.
Proof. intros w a w' H. apply glCreateProgram_inv in H as (_ & _ & _ & _ & _ & Hc). eauto. Qed.

Lemma monotone_glAttachShader prog s : monotone (glAttachShader prog s).
Proof. intros w a w' [= _ <-]. eexists [_]. reflexivity. Qed.

Lemma monotone_glLinkProgram prog : monotone (glLinkProgram E prog).
Proof. intros w a w' [= _ <-]. eexists [_]. reflexivity. Qed.

Ltac mono :=
  repeat first
    [ apply monotone_CompileShader | apply monotone_glCreateProgram
    | apply monotone_glAttachShader | apply monotone_glLinkProgram
    | apply monotone_when
    | apply monotone_quiet;
      first [ apply quiet_ret | apply quiet_get | apply quiet_printf
            | apply quiet_CheckLinkStatus | apply quiet_reflect_uniforms
            | apply quiet_reflect_attribs | apply quiet_DumpShaderSource ]
    | match goal with
      | |- monotone (let '(_, _) := ?x in _) => destruct x
      | |- monotone (if ?b then _ else _) => destruct b
      | |- monotone (LoadFile _ _ _) => apply monotone_quiet, quiet_ret
      | |- monotone (_ ≫= _) => apply monotone_bind; [|intros ?]
      end ].

(** Every load starts with the five calls of [Delete]. *)
Lemma LoadCompute_deletes_first p file w r w' :
  LoadCompute E p file w = Ok r w' ->
  exists rest, calls_since w w' (delete_calls p ++ rest).
Proof.
  unfold LoadCompute. intros H.
  inv_bind H as p0 w0 H0. apply Delete_inv in H0 as (_ & _ & _ & Hc0 & _).
  match type of H with
  | ?m _ = _ => assert (monotone m) as Hm by (cbv zeta; mono)
  end.
  destruct (Hm _ _ _ H) as [rest Hrest]. exists rest.
  eapply calls_since_trans; eassumption.
Qed.

Lemma LoadVertGeomFrag_deletes_first p vf gf ff w r w' :
  LoadVertGeomFrag E p vf gf ff w = Ok r w' ->
  exists rest, calls_since w w' (delete_calls p ++ rest).
Proof.
  unfold LoadVertGeomFrag. intros H.
  inv_bind H as p0 w0 H0. apply Delete_inv in H0 as (_ & _ & _ & Hc0 & _).
  match type of H with
  | ?m _ = _ => assert (monotone m) as Hm by (cbv zeta; mono)
  end.
  destruct (Hm _ _ _ H) as [rest Hrest]. exists rest.
  eapply calls_since_trans; eassumption.
Qed.
End WithEnv.
End ProgramFacts.

(** ** What [Init] establishes *)

Module InitFacts.
Import Num NumFacts glm GL radix_sort Device Run.

Lemma new_BufferObject_inv tgt data dyn w b w' :
  new_BufferObject tgt data dyn w = Ok b w' ->
  b = mk_BufferObject tgt (next_name w) (length data)
  /\ buffers w' = <[next_name w := data]> (buffers w)
  /\ next_name w' = next_name w + 1
  /\ programs w' = programs w.
Proof. intros [= <- <-]. repeat split. Qed.

Lemma resize_nil n : SplatRenderer.resize n [] = replicate n 0.
Proof. unfold SplatRenderer.resize. rewrite take_nil. simpl. now rewrite Nat.sub_0_r. Qed.

Section WithEnv.
Context (E : Env) `{sorter_impl : !ParallelSorter}.

Lemma GetAttribLoc_inv p name w l w' :
  Program.GetAttribLoc E p name w = Ok l w' -> same_objects w w'.
Proof.
  unfold Program.GetAttribLoc. destruct (Program.attribs p !! name) as [v|].
  - intros [= _ <-]. apply same_objects_refl.
  - unfold Log.cerr. rewrite bind_modify. unfold GL.assert, mbind, M_bind, bind.
    destruct (debug_build E); simpl; [discriminate|].
    intros [= _ <-]. repeat split.
Qed.

Lemma assert_inv b w u w' : GL.assert E b w = Ok u w' -> w' = w.
Proof. unfold GL.assert. destruct (_ && _); [discriminate|]. now intros [= _ <-]. Qed.

(** What [BuildVertexArrayObject] leaves behind when it returns. *)
Lemma splat_BuildVertexArrayObject_inv r cloud prog w r' w' :
  SplatRenderer.positionVec r = [] -> SplatRenderer.indexVec r = [] ->
  SplatRenderer.splatProg r = Some prog ->
  Z.of_nat (length cloud) <= UINT32_MAX ->
  SplatRenderer.BuildVertexArrayObject E r cloud w = Ok r' w' ->
  let b := next_name w in
  let n := length cloud in
  exists vao,
    r' = SplatRenderer.set_splatVao (Some vao)
           (SplatRenderer.set_indexVec (seqZ 0 (Z.of_nat n))
              (SplatRenderer.set_positionVec (SplatRenderer.position <$> cloud) r))
    /\ elementBuffer vao = Some (mk_BufferObject GL_ELEMENT_ARRAY_BUFFER (b + 5) n)
    /\ Forall (fun '(_, bo) => b <= obj bo < b + 5) (attribBuffers vao)
    /\ buffers w' !! (b + 5) = Some (cells_of_u32s (seqZ 0 (Z.of_nat n)))
    /\ (forall k, k < b -> buffers w' !! k = buffers w !! k)
    /\ next_name w' = b + 6
    /\ programs w' = programs w.
Proof.
  intros Hpos Hidx Hprog Hn Hrun b n.
  unfold SplatRenderer.BuildVertexArrayObject in Hrun. cbv zeta in Hrun.
  inv_bind Hrun as b0 w0 H. inv_bind Hrun as b1 w1 H0. inv_bind Hrun as b2 w2 H1.
  inv_bind Hrun as b3 w3 H2. inv_bind Hrun as b4 w5 H3. inv_bind Hrun as u w6 H4.
  inv_bind Hrun as b5 w7 H5. inv_bind Hrun as pr w8 H6.
  simpl in H5, H6. rewrite Hprog in H6. injection H6 as <- <-.
  inv_bind Hrun as l0 w9 H7. inv_bind Hrun as l1 w10 H8. inv_bind Hrun as l2 w11 H9.
  inv_bind Hrun as l3 w12 H10. inv_bind Hrun as l4 w13 H11.
  injection Hrun as <- <-.
  apply new_BufferObject_inv in H as (-> & Hb0 & Hn0 & Hp0).
  apply new_BufferObject_inv in H0 as (-> & Hb1 & Hn1 & Hp1).
  apply new_BufferObject_inv in H1 as (-> & Hb2 & Hn2 & Hp2).
  apply new_BufferObject_inv in H2 as (-> & Hb3 & Hn3 & Hp3).
  apply new_BufferObject_inv in H3 as (-> & Hb4 & Hn4 & Hp4).
  apply assert_inv in H4 as ->.
  apply new_BufferObject_inv in H5 as (-> & Hb5 & Hn5 & Hp5).
  apply GetAttribLoc_inv in H7 as (Hb6 & Hp6 & _ & Hn6 & _).
  apply GetAttribLoc_inv in H8 as (Hb7 & Hp7 & _ & Hn7 & _).
  apply GetAttribLoc_inv in H9 as (Hb8 & Hp8 & _ & Hn8 & _).
  apply GetAttribLoc_inv in H10 as (Hb9 & Hp9 & _ & Hn9 & _).
  apply GetAttribLoc_inv in H11 as (Hb10 & Hp10 & _ & Hn10 & _).
  rewrite Hpos, Hidx. simpl app.
  unfold size_to_uint32. rewrite wrap32_small by (fold n; lia).
  eexists. split; [reflexivity|]. simpl.
  rewrite length_cells_of_u32s, length_seqZ, Nat2Z.id.
  replace (next_name w5) with (b + 5) by (subst b; lia).
  replace (next_name w3) with (b + 4) by (subst b; lia).
  replace (next_name w2) with (b + 3) by (subst b; lia).
  replace (next_name w1) with (b + 2) by (subst b; lia).
  replace (next_name w0) with (b + 1) by (subst b; lia).
  split; [reflexivity|].
  split; [repeat constructor; simpl; fold b; lia|].
  split. { rewrite Hb10, Hb9, Hb8, Hb7, Hb6, Hb5. 
           replace (next_name w5) with (b + 5) by (subst b; lia).
           simpl. rewrite Hidx. unfold size_to_uint32. rewrite wrap32_small by (fold n; lia).
           apply lookup_insert_eq. }
  split. { intros k Hk. rewrite Hb10, Hb9, Hb8, Hb7, Hb6, Hb5, Hb4, Hb3, Hb2, Hb1, Hb0.
           rewrite !lookup_insert_ne by (subst b; lia). reflexivity. }
  split; [subst b; lia|]. congruence.
Qed.

Lemma splat_Init_establishes ind cloud w r w' :
  Z.of_nat (length cloud) <= UINT32_MAX ->
  SplatRenderer.Init E ind SplatRenderer.new cloud w = Ok (true, r) w' ->
  (forall prog, SplatRenderer.splatProg r = Some prog ->
                Forall (resolves E prog) SplatFacts.draw_uniforms) ->
  exists L, SplatFacts.Inv E L r w'
            /\ SplatRenderer.positionVec r = SplatRenderer.position <$> cloud.
Proof.
  intros Hn Hrun Hres. unfold SplatRenderer.Init in Hrun.
  inv_bind Hrun as a w0 H. destruct a as [ok prog].
  destruct ok; take_branch Hrun.
  2:{ apply bind_inv_Ok in Hrun as (? & ? & _ & Hrun). discriminate. }
  inv_bind Hrun as r1 w1 H0. inv_bind Hrun as kb w2 H1. inv_bind Hrun as vb w3 H2.
  injection Hrun as <- <-.
  apply splat_BuildVertexArrayObject_inv with (prog := prog) in H0; [|reflexivity..|exact Hn].
  destruct H0 as (vao & -> & He & Ha & Hbe & Hbk & Hnn & Hp).
  simpl in H1, H2.
  apply new_BufferObject_inv in H1 as (-> & Hb1 & Hn1 & Hp1).
  apply new_BufferObject_inv in H2 as (-> & Hb2 & Hn2 & Hp2).
  specialize (Hres prog eq_refl).
  set (b := next_name w0) in *.
  replace (next_name w1) with (b + 6) in *.
  replace (next_name w2) with (b + 7) in * by lia.
  exists (SplatFacts.mk_Layout prog vao
            (mk_BufferObject GL_SHADER_STORAGE_BUFFER (b + 6)
               (length (cells_of_u32s (SplatRenderer.resize (length cloud) []))))
            (mk_BufferObject GL_SHADER_STORAGE_BUFFER (b + 7)
               (length (cells_of_u32s (seqZ 0 (Z.of_nat (length cloud))))))
            (mk_BufferObject GL_ELEMENT_ARRAY_BUFFER (b + 5) (length cloud))).
  split; [|reflexivity].
  assert (length (SplatRenderer.position <$> cloud) = length cloud) as Hlen
    by apply length_fmap.
  constructor; simpl; rewrite ?Hlen; try reflexivity; try lia; try assumption.
  - rewrite resize_nil. apply length_replicate.
  - rewrite length_seqZ. lia.
  - exists (replicate (length cloud) 0). rewrite Hb2, Hb1, resize_nil.
    rewrite lookup_insert_ne by lia. rewrite lookup_insert_eq.
    split; [reflexivity|apply length_replicate].
  - exists (seqZ 0 (Z.of_nat (length cloud))). rewrite Hb2, lookup_insert_eq.
    split; reflexivity.
  - exists (seqZ 0 (Z.of_nat (length cloud))). rewrite Hb2, Hb1.
    rewrite !lookup_insert_ne by lia. split; [exact Hbe|reflexivity].
  - eapply Forall_impl; [exact Ha|]. intros [l bo]. lia.
Qed.

Lemma point_BuildVertexArrayObject_inv r cloud prog w r' w' :
  PointRenderer.posVec r = [] -> PointRenderer.indexVec r = [] ->
  PointRenderer.pointProg r = Some prog ->
  Z.of_nat (length cloud) <= UINT32_MAX ->
  PointRenderer.BuildVertexArrayObject E r cloud w = Ok r' w' ->
  let b := next_name w in
  let n := length cloud in
  exists vao,
    r' = PointRenderer.set_pointVao (Some vao)
           (PointRenderer.set_indexVec (seqZ 0 (Z.of_nat n))
              (PointRenderer.set_posVec (PointRenderer.pos_of <$> cloud) r))
    /\ elementBuffer vao = Some (mk_BufferObject GL_ELEMENT_ARRAY_BUFFER (b + 2) n)
    /\ Forall (fun '(_, bo) => b <= obj bo < b + 2) (attribBuffers vao)
    /\ buffers w' !! (b + 2) = Some (cells_of_u32s (seqZ 0 (Z.of_nat n)))
    /\ next_name w' = b + 3
    /\ programs w' = programs w.
Proof.
  intros Hpos Hidx Hprog Hn Hrun b n.
  unfold PointRenderer.BuildVertexArrayObject in Hrun. cbv zeta in Hrun.
  inv_bind Hrun as b0 w0 H. inv_bind Hrun as b1 w1 H0. inv_bind Hrun as u w6 H4.
  inv_bind Hrun as b5 w7 H5. inv_bind Hrun as pr w8 H6.
  simpl in H5, H6. rewrite Hprog in H6. injection H6 as <- <-.
  inv_bind Hrun as l0 w9 H7. inv_bind Hrun as l1 w10 H8.
  injection Hrun as <- <-.
  apply new_BufferObject_inv in H as (-> & Hb0 & Hn0 & Hp0).
  apply new_BufferObject_inv in H0 as (-> & Hb1 & Hn1 & Hp1).
  apply assert_inv in H4 as ->.
  apply new_BufferObject_inv in H5 as (-> & Hb5 & Hn5 & Hp5).
  apply GetAttribLoc_inv in H7 as (Hb6 & Hp6 & _ & Hn6 & _).
  apply GetAttribLoc_inv in H8 as (Hb7 & Hp7 & _ & Hn7 & _).
  rewrite Hpos, Hidx. simpl app.
  unfold size_to_uint32. rewrite wrap32_small by (fold n; lia).
  eexists. split; [reflexivity|]. simpl.
  rewrite length_cells_of_u32s, length_seqZ, Nat2Z.id.
  replace (next_name w1) with (b + 2) by (subst b; lia).
  replace (next_name w0) with (b + 1) by (subst b; lia).
  split; [reflexivity|].
  split; [repeat constructor; simpl; fold b; lia|].
  split. { rewrite Hb7, Hb6, Hb5.
           replace (next_name w1) with (b + 2) by (subst b; lia).
           simpl. rewrite Hidx. unfold size_to_uint32. rewrite wrap32_small by (fold n; lia).
           apply lookup_insert_eq. }
  split; [subst b; lia|]. congruence.
Qed.

Lemma point_Init_establishes ind1 ind2 cloud w r w' :
  Z.of_nat (length cloud) <= UINT32_MAX ->
  PointRenderer.Init E ind1 ind2 PointRenderer.new cloud w = Ok (true, r) w' ->
  (forall prog, PointRenderer.pointProg r = Some prog ->
                Forall (resolves E prog) PointFacts.draw_uniforms) ->
  (forall prog, PointRenderer.preSortProg r = Some prog ->
                Forall (resolves E prog) PointFacts.presort_uniforms) ->
  exists L, PointFacts.Inv E L r w'
            /\ PointRenderer.posVec r = PointRenderer.pos_of <$> cloud.
Proof.
  intros Hn Hrun Hres Hres'. unfold PointRenderer.Init in Hrun.
  inv_bind Hrun as ok w0 H. apply ProgramFacts.quiet_ret in H as ((_ & _ & _ & Hnn0 & _) & _).
  destruct ok; take_branch Hrun.
  2:{ apply bind_inv_Ok in Hrun as (? & ? & _ & Hrun). discriminate. }
  inv_bind Hrun as tex w1 H0.
  inv_bind Hrun as a w2 H1. destruct a as [ok prog].
  destruct ok; take_branch Hrun.
  2:{ apply bind_inv_Ok in Hrun as (? & ? & _ & Hrun). discriminate. }
  inv_bind Hrun as a w3 H2. destruct a as [ok presort].
  destruct ok; take_branch Hrun.
  2:{ apply bind_inv_Ok in Hrun as (? & ? & _ & Hrun). discriminate. }
  apply ProgramFacts.LoadCompute_linked in H2 as (src & Hlinked).
  inv_bind Hrun as r1 w4 H3. inv_bind Hrun as kb w5 H4. inv_bind Hrun as vb w6 H5.
  inv_bind Hrun as pb w7 H6.
  injection Hrun as <- <-.
  apply point_BuildVertexArrayObject_inv with (prog := prog) in H3; [|reflexivity..|exact Hn].
  destruct H3 as (vao & -> & He & Ha & Hbe & Hnn & Hp).
  simpl in H4, H5, H6.
  apply new_BufferObject_inv in H4 as (-> & Hb1 & Hn1 & Hp1).
  apply new_BufferObject_inv in H5 as (-> & Hb2 & Hn2 & Hp2).
  apply new_BufferObject_inv in H6 as (-> & Hb3 & Hn3 & Hp3).
  specialize (Hres prog eq_refl). specialize (Hres' presort eq_refl).
  set (b := next_name w3) in *.
  replace (next_name w4) with (b + 3) in *.
  replace (next_name w5) with (b + 4) in * by lia.
  replace (next_name w6) with (b + 5) in * by lia.
  exists (PointFacts.mk_Layout tex prog presort vao
            (mk_BufferObject GL_SHADER_STORAGE_BUFFER (b + 3)
               (length (cells_of_u32s (SplatRenderer.resize (length cloud) []))))
            (mk_BufferObject GL_SHADER_STORAGE_BUFFER (b + 4)
               (length (cells_of_u32s (seqZ 0 (Z.of_nat (length cloud))))))
            (mk_BufferObject GL_ELEMENT_ARRAY_BUFFER (b + 2) (length cloud))
            (mk_BufferObject GL_SHADER_STORAGE_BUFFER (b + 5)
               (length (cells_of_vec4s (PointRenderer.pos_of <$> cloud))))).
  split; [|reflexivity].
  assert (length (PointRenderer.pos_of <$> cloud) = length cloud) as Hlen
    by apply length_fmap.
  constructor; simpl; rewrite ?Hlen; try reflexivity; try lia; try assumption.
  - exists (replicate (length cloud) 0). rewrite Hb3, Hb2, Hb1, resize_nil.
    rewrite !lookup_insert_ne by lia. rewrite lookup_insert_eq.
    split; [reflexivity|apply length_replicate].
  - exists (seqZ 0 (Z.of_nat (length cloud))). rewrite Hb3, Hb2.
    rewrite !lookup_insert_ne by lia. rewrite lookup_insert_eq.
    split; reflexivity.
  - exists (seqZ 0 (Z.of_nat (length cloud))). rewrite Hb3, Hb2, Hb1.
    rewrite !lookup_insert_ne by lia. split; [exact Hbe|reflexivity].
  - rewrite Hb3. apply lookup_insert_eq.
  - eapply Forall_impl; [exact Ha|]. intros [l bo]. lia.
  - exists [(GL_COMPUTE_SHADER, src)]. split; [|simpl; set_solver].
    unfold linked_sources in *. rewrite Hp3, Hp2, Hp1, Hp. exact Hlinked.
Qed.
End WithEnv.
End InitFacts.

(** ** The scenes of [Scene], initialised *)

Module SceneFacts.
Import Num NumFacts glm GL radix_sort Device Run Scene.

#[local] Existing Instance SortFacts.insertion_sorter.

Lemma splat_scene_Init :
  SplatRenderer.Init env 0 SplatRenderer.new splats fresh_world
  = Ok (true, splat_scene.1) splat_scene.2.
Proof. vm_compute. reflexivity. Qed.

Lemma env_resolves_all (E : Env) (p : Program.Program) (names : list string) :
  forallb (fun n => bool_decide (is_Some (Program.uniforms p !! n))) names = true ->
  Forall (resolves E p) names.
Proof.
  intros H. apply Forall_forall. intros n Hn _.
  rewrite forallb_forall in H. apply list_elem_of_In in Hn.
  specialize (H n Hn). now apply bool_decide_eq_true in H.
Qed.

Lemma splat_scene_Inv :
  exists L, SplatFacts.Inv env L splat_scene.1 splat_scene.2
            /\ SplatRenderer.positionVec splat_scene.1 = SplatRenderer.position <$> splats.
Proof.
  apply (InitFacts.splat_Init_establishes env 0 splats fresh_world).
  - vm_compute. discriminate.
  - exact splat_scene_Init.
  - intros prog Hp. apply env_resolves_all.
    vm_compute in Hp. injection Hp as <-. vm_compute. reflexivity.
Qed.

Lemma point_scene_Init :
  PointRenderer.Init env 0 0 PointRenderer.new points fresh_world
  = Ok (true, point_scene.1) point_scene.2.
Proof. vm_compute. reflexivity. Qed.

Lemma point_scene_Inv :
  exists L, PointFacts.Inv env L point_scene.1 point_scene.2
            /\ PointRenderer.posVec point_scene.1 = PointRenderer.pos_of <$> points.
Proof.
  apply (InitFacts.point_Init_establishes env 0 0 points fresh_world).
  - vm_compute. discriminate.
  - exact point_scene_Init.
  - intros prog Hp. apply env_resolves_all.
    vm_compute in Hp. injection Hp as <-. vm_compute. reflexivity.
  - intros prog Hp. apply env_resolves_all.
    vm_compute in Hp. injection Hp as <-. vm_compute. reflexivity.
Qed.

Lemma empty_splat_scene_Init :
  SplatRenderer.Init env 0 SplatRenderer.new [] fresh_world
  = Ok (true, empty_splat_scene.1) empty_splat_scene.2.
Proof. vm_compute. reflexivity. Qed.

Lemma empty_splat_scene_Inv :
  exists L, SplatFacts.Inv env L empty_splat_scene.1 empty_splat_scene.2
            /\ SplatRenderer.positionVec empty_splat_scene.1 = [].
Proof.
  apply (InitFacts.splat_Init_establishes env 0 [] fresh_world).
  - vm_compute. discriminate.
  - exact empty_splat_scene_Init.
  - intros prog Hp. apply env_resolves_all.
    vm_compute in Hp. injection Hp as <-. vm_compute. reflexivity.
Qed.

Lemma empty_point_scene_Init :
  PointRenderer.Init env 0 0 PointRenderer.new [] fresh_world
  = Ok (true, empty_point_scene.1) empty_point_scene.2.
Proof. vm_compute. reflexivity. Qed.

Lemma empty_point_scene_Inv :
  exists L, PointFacts.Inv env L empty_point_scene.1 empty_point_scene.2
            /\ PointRenderer.posVec empty_point_scene.1 = [].
Proof.
  apply (InitFacts.point_Init_establishes env 0 0 [] fresh_world).
  - vm_compute. discriminate.
  - exact empty_point_scene_Init.
  - intros prog Hp. apply env_resolves_all.
    vm_compute in Hp. injection Hp as <-. vm_compute. reflexivity.
  - intros prog Hp. apply env_resolves_all.
    vm_compute in Hp. injection Hp as <-. vm_compute. reflexivity.
Qed.

End SceneFacts.

Module LoadFacts.
Import Num NumFacts GL Run Program ProgramFacts.

(** Computations that return whatever the GL state: no assertion on the
    way, nothing undefined. *)
Definition returns {A} (m : M A) : Prop := forall w, exists a w', m w = Ok a w'.

Lemma returns_ret {A} (a : A) : returns (mret a).
Proof. intros w. now exists a, w. Qed.

Lemma returns_get {A} (f : World -> A) : returns (get f).
Proof. intros w. now exists (f w), w. Qed.

Lemma returns_modify f : returns (modify f).
Proof. intros w. now exists tt, (f w). Qed.

Lemma returns_bind {A B} (m : M A) (k : A -> M B) :
  returns m -> (forall a, returns (k a)) -> returns (m ≫= k).
Proof.
  intros Hm Hk w. destruct (Hm w) as (a & w1 & H1), (Hk a w1) as (b & w2 & H2).
  exists b, w2. now erewrite bind_Ok by exact H1.
Qed.

Lemma returns_when b m : returns m -> returns (when b m).
Proof. intros Hm. destruct b; [exact Hm|apply returns_ret]. Qed.

Lemma returns_DumpShaderSource_lines lines : forall i, returns (DumpShaderSource_lines i lines).
Proof.
  induction lines as [|l lines IH]; intros i; simpl.
  - apply returns_ret.
  - apply returns_bind; [apply returns_modify|intros _; apply IH].
Qed.

(** [Log::printf] called once per string, in order. *)
Definition write_logs (ls : list string) (w : World) : World :=
  foldl (fun w s => write_log s w) w ls.

Lemma write_logs_app l1 l2 w : write_logs (l1 ++ l2) w = write_logs l2 (write_logs l1 w).
Proof. apply foldl_app. Qed.

Lemma write_logs_same l w :
  same_objects w (write_logs l w) /\ calls (write_logs l w) = calls w
  /\ errors (write_logs l w) = errors w /\ uniform_vals (write_logs l w) = uniform_vals w
  /\ log (write_logs l w) = log w ++ l.
Proof.
  revert w. induction l as [|s l IH]; intros w.
  - simpl. rewrite app_nil_r. repeat split.
  - simpl. destruct (IH (write_log s w)) as ((?&?&?&?&?&?&?) & ? & ? & ? & Hl).
    unfold same_objects. rewrite Hl. simpl. rewrite <- app_assoc. repeat split; assumption.
Qed.

(** Computations whose only effect is on the log. *)
Definition logs_only {A} (m : M A) : Prop :=
  forall w a w', m w = Ok a w' -> exists ls, w' = write_logs ls w.

Lemma logs_only_ret {A} (a : A) : logs_only (mret a).
Proof. intros w a' w' [= _ <-]. now exists []. Qed.

Lemma logs_only_get {A} (f : World -> A) : logs_only (get f).
Proof. intros w a' w' [= _ <-]. now exists []. Qed.

Lemma logs_only_printf s : logs_only (Log.printf s).
Proof. intros w a' w' [= _ <-]. now exists [s]. Qed.

Lemma logs_only_bind {A B} (m : M A) (k : A -> M B) :
  logs_only m -> (forall a, logs_only (k a)) -> logs_only (m ≫= k).
Proof.
  intros Hm Hk w b w' H. inv_bind H as a w1 H1.
  destruct (Hm _ _ _ H1) as [l1 ->], (Hk _ _ _ _ H) as [l2 ->].
  exists (l1 ++ l2). now rewrite write_logs_app.
Qed.

Lemma logs_only_when b m : logs_only m -> logs_only (when b m).
Proof. intros Hm. destruct b; [exact Hm|apply logs_only_ret]. Qed.





Section WithEnv.
Context (E : Env).

Lemma returns_reflect_uniforms prog active : forall u, returns (reflect_uniforms E prog active u).
Proof.
  induction active as [|[[n sz] ty] active IH]; intros u; simpl.
  - apply returns_ret.
  - apply returns_bind; [apply returns_get|intros l; apply IH].
Qed.

Lemma returns_reflect_attribs prog active : forall u, returns (reflect_attribs E prog active u).
Proof.
  induction active as [|[[n sz] ty] active IH]; intros u; simpl.
  - apply returns_ret.
  - apply returns_bind; [apply returns_get|intros l; apply IH].
Qed.

Ltac returns_tac :=
  repeat first
    [ apply returns_ret | apply returns_get | apply returns_modify
    | apply returns_when | apply returns_DumpShaderSource_lines
    | apply returns_reflect_uniforms | apply returns_reflect_attribs
    | match goal with
      | |- returns (let '(_, _) := ?x in _) => destruct x
      | |- returns (if ?b then _ else _) => destruct b
      | |- returns (_ ≫= _) => apply returns_bind; [|intros ?]
      end ].

Lemma returns_CompileShader ty src out dbg : returns (CompileShader E ty src out dbg).
Proof.
  unfold CompileShader, glCreateShader, fresh_name, glShaderSource, glCompileShader,
    glGetShader_COMPILE_STATUS, glGetShader_INFO_LOG_LENGTH, glGetShaderInfoLog,
    DumpShaderSource, Log.printf.
  returns_tac. intros w. eauto.
Qed.

Lemma returns_CheckLinkStatus p : returns (CheckLinkStatus E p).
Proof.
  unfold CheckLinkStatus, glGetProgram_LINK_STATUS, glGetProgramInfoLog, Log.printf.
  cbv zeta. returns_tac.
Qed.

Lemma returns_Delete p : returns (Delete p).
Proof. unfold Delete, glDeleteShader, glDeleteProgram. cbv zeta. returns_tac. Qed.

Lemma returns_LoadCompute p file : returns (LoadCompute E p file).
Proof.
  unfold LoadCompute.
  apply returns_bind; [apply returns_Delete|intros p0].
  apply returns_bind; [apply returns_ret|intros [ok src]].
  apply returns_bind; [apply returns_when, returns_modify|intros _].
  apply returns_bind; [apply returns_CompileShader|intros [ok' sh]].
  destruct (negb ok').
  { apply returns_bind; [apply returns_modify|intros _; apply returns_ret]. }
  apply returns_bind; [|intros prog].
  { unfold glCreateProgram, fresh_name. returns_tac. intros w. eauto. }
  apply returns_bind; [apply returns_modify|intros _].
  apply returns_bind; [apply returns_modify|intros _].
  apply returns_bind; [apply returns_CheckLinkStatus|intros linked].
  unfold DumpShaderSource, Log.printf, glGetActiveUniforms. returns_tac.
Qed.

Lemma returns_LoadVertGeomFrag p vf gf ff : returns (LoadVertGeomFrag E p vf gf ff).
Proof.
  unfold LoadVertGeomFrag. cbv zeta.
  apply returns_bind; [apply returns_Delete|intros p0].
  apply returns_bind; [apply returns_ret|intros [ok vsrc]].
  destruct (negb ok).
  { apply returns_bind; [apply returns_modify|intros _; apply returns_ret]. }
  apply returns_bind; [destruct (negb _); apply returns_ret|intros [ok1 gsrc]].
  destruct (negb ok1).
  { apply returns_bind; [apply returns_modify|intros _; apply returns_ret]. }
  apply returns_bind; [apply returns_ret|intros [ok2 fsrc]].
  destruct (negb ok2).
  { apply returns_bind; [apply returns_modify|intros _; apply returns_ret]. }
  apply returns_bind; [apply returns_CompileShader|intros [ok3 shv]].
  destruct (negb ok3).
  { apply returns_bind; [apply returns_modify|intros _; apply returns_ret]. }
  apply returns_bind;
    [destruct (negb _); [apply returns_CompileShader|apply returns_ret]|intros [ok4 shg]].
  destruct (negb ok4).
  { apply returns_bind; [apply returns_modify|intros _; apply returns_ret]. }
  apply returns_bind; [apply returns_CompileShader|intros [ok5 shf]].
  destruct (negb ok5).
  { apply returns_bind; [apply returns_modify|intros _; apply returns_ret]. }
  apply returns_bind; [|intros prog].
  { unfold glCreateProgram, fresh_name. returns_tac. intros w. eauto. }
  apply returns_bind; [apply returns_modify|intros _].
  apply returns_bind; [apply returns_modify|intros _].
  apply returns_bind; [apply returns_when, returns_modify|intros _].
  apply returns_bind; [apply returns_modify|intros _].
  apply returns_bind; [apply returns_CheckLinkStatus|intros linked].
  unfold DumpShaderSource, Log.printf, glGetActiveUniforms, glGetActiveAttribs. returns_tac.
Qed.

(** The answer of [CompileShader]: the driver's verdict and, in a debug
    build, no info log. *)
Definition compile_answer (ty : shader_type) (src : string) : bool :=
  (drv_compile E ty src).1
  && negb (WARNINGS_AS_ERRORS E && (1 <? info_log_length (drv_compile E ty src).2)).

Lemma CompileShader_answer ty src out dbg w ok sh w' :
  CompileShader E ty src out dbg w = Ok (ok, sh) w' -> ok = compile_answer ty src.
Proof.
  unfold CompileShader. intros H.
  inv_bind H as s w1 H1. injection H1 as <- <-.
  inv_bind H as u1 w2 H2. injection H2 as _ <-.
  inv_bind H as u2 w3 H3. injection H3 as _ <-.
  inv_bind H as compiled w4 H4. injection H4 as <- <-.
  inv_bind H as u3 w5 H5. apply quiet_when in H5; [|apply quiet_printf].
  inv_bind H as bufferLen w6 H6. injection H6 as <- <-.
  inv_bind H as u4 w7 H7.
  destruct H5 as ((_ & _ & Hs5 & _) & _).
  unfold compile_outcome in *. rewrite Hs5 in H. simpl in H.
  rewrite alter_insert_eq, lookup_insert_eq in H. simpl in H.
  unfold compile_answer.
  destruct (drv_compile E ty src) as [c l]. simpl in *.
  destruct (WARNINGS_AS_ERRORS E), c, (1 <? info_log_length l);
    simpl in H; injection H as <- _ _; reflexivity.
Qed.

(** The answer of [CheckLinkStatus]: the program is linked and, in a debug
    build, the info log has at most one character. *)
Definition link_answer (w : World) (prog : Z) : bool :=
  bool_decide (is_Some (linked_sources w prog))
  && negb (WARNINGS_AS_ERRORS E
           && (1 <? Z.of_nat (String.length
                       (String.substring 0 4095 (drv_link E (attached_sources w prog)).2)))).

Lemma CheckLinkStatus_answer p w ok w' :
  CheckLinkStatus E p w = Ok ok w' -> ok = link_answer w (program p).
Proof.
  unfold CheckLinkStatus. intros H.
  inv_bind H as linked w1 H1. injection H1 as <- <-.
  inv_bind H as u1 w2 H2. apply quiet_when in H2 as ((_ & Hp2 & Hs2 & _) & _);
    [|apply quiet_printf].
  inv_bind H as bl w3 H3. destruct bl as [bufferLen buffer].
  injection H3 as <- <- <-.
  inv_bind H as u2 w4 H4. unfold link_answer.
  assert (attached_sources w2 (program p) = attached_sources w (program p)) as Ha
    by (unfold attached_sources; now rewrite Hp2, Hs2).
  rewrite Ha in H.
  change (Z.to_nat (4096 - 1)) with 4095%nat in H.
  destruct (bool_decide _), (WARNINGS_AS_ERRORS E), (1 <? _);
    simpl in H; injection H as <- _; reflexivity.
Qed.

Lemma logs_only_CheckLinkStatus p : logs_only (CheckLinkStatus E p).
Proof.
  unfold CheckLinkStatus.
  apply logs_only_bind; [apply logs_only_get|intros linked].
  apply logs_only_bind; [apply logs_only_when, logs_only_printf|intros _].
  apply logs_only_bind; [apply logs_only_get|intros [bufferLen buffer]].
  apply logs_only_bind.
  - apply logs_only_when, logs_only_bind;
      [apply logs_only_when, logs_only_printf|intros _; apply logs_only_printf].
  - intros _. destruct (if WARNINGS_AS_ERRORS E then _ else _); apply logs_only_ret.
Qed.

End WithEnv.
End LoadFacts.

Module ReflectFacts.
Import Num NumFacts GL Run Program ProgramFacts LoadFacts.

Section WithEnv.
Context (E : Env).

(** What [glGetUniformLocation] and [glGetAttribLocation] answer in [w]. *)
Definition uniform_location (w : World) (prog : Z) (name : string) : Z :=
  match linked_sources w prog with
  | Some srcs => drv_uniform_location E srcs name
  | None => -1
  end.

Definition attrib_location (w : World) (prog : Z) (name : string) : Z :=
  match linked_sources w prog with
  | Some srcs => drv_attrib_location E srcs name
  | None => -1
  end.

(** The table a reflection loop builds from the active variables. *)
Definition reflected (location : string -> Z) (active : list (string * Z * Z))
    (table : gmap string ProgVariable) : gmap string ProgVariable :=
  foldl (fun m '(n, sz, ty) => <[n := mk_Variable sz ty (location n)]> m) table active.

Lemma reflect_uniforms_spec prog active : forall u w,
  reflect_uniforms E prog active u w
  = Ok (reflected (uniform_location w prog) active u) w.
Proof.
  induction active as [|[[n sz] ty] active IH]; intros u w; [reflexivity|].
  simpl. unfold glGetUniformLocation. rewrite bind_get. apply IH.
Qed.

Lemma reflect_attribs_spec prog active : forall u w,
  reflect_attribs E prog active u w
  = Ok (reflected (attrib_location w prog) active u) w.
Proof.
  induction active as [|[[n sz] ty] active IH]; intros u w; [reflexivity|].
  simpl. unfold glGetAttribLocation. rewrite bind_get. apply IH.
Qed.

End WithEnv.

(** Every name the loop has seen, and every name the table held with the
    right location, ends up with the location the driver gives it. *)
Lemma reflected_lookup location active : forall table name,
  name ∈ active.*1.*1
  \/ (exists v, table !! name = Some v /\ loc v = location name) ->
  loc <$> reflected location active table !! name = Some (location name).
Proof.
  induction active as [|[[n sz] ty] active IH]; intros table name H.
  - destruct H as [H|(v & Hv & Hl)]; [inversion H|].
    simpl. now rewrite Hv, <- Hl.
  - simpl. apply IH.
    destruct (decide (name ∈ active.*1.*1)) as [Hin|Hnin]; [now left|right].
    destruct (decide (n = name)) as [->|Hne].
    + eexists. rewrite lookup_insert_eq. split; reflexivity.
    + destruct H as [H|(v & Hv & Hl)].
      * simpl in H. apply elem_of_cons in H as [H|H]; [congruence|contradiction].
      * exists v. now rewrite lookup_insert_ne.
Qed.

Lemma reflected_lookup_None location active : forall table name,
  name ∉ active.*1.*1 -> table !! name = None ->
  reflected location active table !! name = None.
Proof.
  induction active as [|[[n sz] ty] active IH]; intros table name Hnin Ht; [exact Ht|].
  simpl in *. apply not_elem_of_cons in Hnin as [Hne Hnin].
  apply IH; [exact Hnin|]. now rewrite lookup_insert_ne.
Qed.


Section Loaded.
Context (E : Env).

(** The names [glGetActiveUniform] and [glGetActiveAttrib] hand to the
    loops of a load: the driver's, cut to fit the buffer of 1028. *)
Definition active_uniform_names (srcs : list (shader_type * string)) : list string :=
  (fun '(n, _, _) => String.substring 0 1027 n) <$> drv_active_uniforms E srcs.

Definition active_attrib_names (srcs : list (shader_type * string)) : list string :=
  (fun '(n, _, _) => String.substring 0 1027 n) <$> drv_active_attribs E srcs.

Lemma active_names_fmap {A B} (f : string -> string) (l : list (string * A * B)) :
  ((fun '(n, sz, ty) => (f n, sz, ty)) <$> l).*1.*1 = (fun '(n, _, _) => f n) <$> l.
Proof. induction l as [|[[n a] b] l IH]; [reflexivity|]. cbn. f_equal. exact IH. Qed.

(** A compute program that [LoadCompute] reports as loaded: what it is
    linked from and what its uniform table holds. *)
Lemma LoadCompute_loaded p file w p' w' :
  LoadCompute E p file w = Ok (true, p') w' ->
  let src := default EmptyString (files E !! file) in
  let srcs := [(GL_COMPUTE_SHADER, src)] in
  linked_sources w' (program p') = Some srcs
  /\ (forall name, name ∈ active_uniform_names srcs ->
        loc <$> uniforms p' !! name = Some (drv_uniform_location E srcs name))
  /\ (forall name, name ∉ active_uniform_names srcs -> uniforms p' !! name = None)
  /\ attribs p' = ∅
  /\ debugName p' = file.
Proof.
  unfold LoadCompute. intros H.
  inv_bind H as p0 w0 H0. apply Delete_inv in H0 as (Hp0 & _).
  inv_bind H as lf w1 H1. destruct lf as [ok src0].
  apply LoadFile_inv in H1 as (-> & Hsrc0).
  inv_bind H as u1 w2 H2. inv_bind H as cs w3 H3. destruct cs as [ok' sh].
  apply CompileShader_inv in H3 as (Hs3 & Hn3 & Hp3 & _ & Hsh & _).
  destruct ok'; take_branch H.
  2:{ inv_bind H as u w4 H4. discriminate. }
  inv_bind H as prog w4 H4. apply glCreateProgram_inv in H4 as (Hprog & Hp4 & Hs4 & _).
  inv_bind H as u2 w5 H5. apply glAttachShader_inv in H5 as (Hp5 & Hs5 & _).
  inv_bind H as u3 w6 H6. apply glLinkProgram_inv in H6 as (Hp6 & _).
  inv_bind H as linked w7 H7.
  destruct linked; take_branch H.
  2:{ do 4 (apply bind_inv_Ok in H as (? & ? & _ & H)). discriminate. }
  pose proof (CheckLinkStatus_true _ _ _ _ H7) as Hl.
  apply quiet_CheckLinkStatus in H7 as ((_ & Hp7 & _) & _).
  inv_bind H as active w8 H8. injection H8 as <- <-.
  inv_bind H as u w9 H9. rewrite reflect_uniforms_spec in H9. injection H9 as <- <-.
  injection H as <- <-. simpl in Hl, Hp5, Hp6 |- *. subst prog sh p0.
  assert (src0 = default EmptyString (files E !! file)) as ->
    by (destruct (files E !! file); now injection Hsrc0).
  set (src := default EmptyString (files E !! file)) in *.
  assert (attached_sources w5 (next_name w3) = [(GL_COMPUTE_SHADER, src)]) as Hsrc.
  { unfold attached_sources. rewrite Hp5, Hp4, alter_insert_eq, lookup_insert_eq. simpl.
    now rewrite Hs5, Hs4, Hs3, lookup_insert_eq. }
  rewrite Hsrc in Hp6.
  assert (linked_sources w7 (next_name w3) = Some [(GL_COMPUTE_SHADER, src)]) as Hlinked.
  { unfold linked_sources in *. rewrite Hp7. rewrite Hp6 in Hl |- *.
    rewrite Hp5, Hp4, !alter_insert_eq, lookup_insert_eq in Hl |- *. simpl in *.
    destruct (drv_link E _).1; [reflexivity|]. destruct Hl; discriminate. }
  split; [exact Hlinked|].
  unfold uniform_location. rewrite Hlinked. simpl.
  change (Z.to_nat (MAX_NAME_SIZE - 1)) with 1027%nat.
  split; [|split; [|split; reflexivity]].
  - intros name Hin. apply reflected_lookup. left.
    now rewrite active_names_fmap.
  - intros name Hnin. apply reflected_lookup_None; [|apply lookup_empty].
    now rewrite active_names_fmap.
Qed.

(** The stages a graphics program is linked from, in the order they are
    attached: vertex, fragment, then geometry when there is one. *)
Definition stages (vf gf ff : string) : list (shader_type * string) :=
  let src f := default EmptyString (files E !! f) in
  [(GL_VERTEX_SHADER, src vf); (GL_FRAGMENT_SHADER, src ff)]
  ++ (if String.eqb gf EmptyString then [] else [(GL_GEOMETRY_SHADER, src gf)]).

Lemma LoadVertGeomFrag_loaded p vf gf ff w p' w' :
  LoadVertGeomFrag E p vf gf ff w = Ok (true, p') w' ->
  let srcs := stages vf gf ff in
  is_Some (files E !! vf) /\ is_Some (files E !! ff)
  /\ (gf <> EmptyString -> is_Some (files E !! gf))
  /\ linked_sources w' (program p') = Some srcs
  /\ (forall name, name ∈ active_uniform_names srcs ->
        loc <$> uniforms p' !! name = Some (drv_uniform_location E srcs name))
  /\ (forall name, name ∉ active_uniform_names srcs -> uniforms p' !! name = None)
  /\ (forall name, name ∈ active_attrib_names srcs ->
        loc <$> attribs p' !! name = Some (drv_attrib_location E srcs name))
  /\ (forall name, name ∉ active_attrib_names srcs -> attribs p' !! name = None)
  /\ (gf = EmptyString -> geomShader p' = 0).
Proof.
  unfold LoadVertGeomFrag, stages. intros H. cbv zeta in H.
  inv_bind H as p0 w0 H0. apply Delete_inv in H0 as (Hp0 & _).
  inv_bind H as lf w1 H1. destruct lf as [ok vsrc0]. apply LoadFile_inv in H1 as (-> & Hv).
  destruct ok; take_branch H.
  2:{ inv_bind H as u w4 H4. discriminate. }
  inv_bind H as lf w1 H1. destruct lf as [ok gsrc0].
  assert (w1 = w0 /\ (ok, gsrc0) = if String.eqb gf EmptyString then (true, EmptyString)
                                   else match files E !! gf with
                                        | Some t => (true, t)
                                        | None => (false, EmptyString)
                                        end) as [-> Hg].
  { destruct (String.eqb gf EmptyString); simpl in H1;
      [now injection H1 as <- <- <-|now apply LoadFile_inv in H1]. }
  destruct ok; take_branch H.
  2:{ inv_bind H as u w4 H4. discriminate. }
  inv_bind H as lf w1 H2. destruct lf as [ok fsrc0]. apply LoadFile_inv in H2 as (-> & Hf).
  destruct ok; take_branch H.
  2:{ inv_bind H as u w4 H4. discriminate. }
  inv_bind H as cs w2 H3. destruct cs as [ok shv].
  apply CompileShader_inv in H3 as (Hs3 & Hn3 & _ & _ & Hshv & _).
  destruct ok; take_branch H.
  2:{ inv_bind H as u w4 H4. discriminate. }
  inv_bind H as cs w3 H4. destruct cs as [ok shg].
  assert (next_name w3 = (if String.eqb gf EmptyString then next_name w2
                          else next_name w2 + 1)
          /\ shaders w3 = (if String.eqb gf EmptyString then shaders w2
                           else <[next_name w2 := (GL_GEOMETRY_SHADER, gsrc0)]> (shaders w2))
          /\ (ok = true -> shg = if String.eqb gf EmptyString then 0 else next_name w2))
    as (Hn4 & Hs4 & Hshg).
  { destruct (String.eqb gf EmptyString); simpl in H4.
    - injection H4 as _ <- <-. subst p0. simpl. repeat split; lia.
    - apply CompileShader_inv in H4 as (Hs4 & Hn4 & _ & _ & -> & _).
      split; [lia|]. split; [exact Hs4|]. now intros ->. }
  destruct ok; take_branch H.
  2:{ inv_bind H as u w4 H5. discriminate. }
  specialize (Hshg eq_refl).
  inv_bind H as cs w4 H5. destruct cs as [ok shf].
  apply CompileShader_inv in H5 as (Hs5 & Hn5 & Hp5 & _ & Hshf & _).
  destruct ok; take_branch H.
  2:{ inv_bind H as u w5 H6. discriminate. }
  inv_bind H as prog w5 H6. apply glCreateProgram_inv in H6 as (Hprog & Hp6 & Hs6 & Hn6 & _).
  inv_bind H as u1 w6 H7. apply glAttachShader_inv in H7 as (Hp7 & Hs7 & _).
  inv_bind H as u2 w7 H8. apply glAttachShader_inv in H8 as (Hp8 & Hs8 & _).
  inv_bind H as u3 w8 H9.
  assert (programs w8 = (if String.eqb gf EmptyString then programs w7
                         else alter (fun o => mk_program_object (attached o ++ [shg])
                                                (linked_from o)) prog (programs w7))
          /\ shaders w8 = shaders w7) as [Hp9 Hs9].
  { destruct (String.eqb gf EmptyString); simpl in H9.
    - injection H9 as _ <-. split; reflexivity.
    - apply glAttachShader_inv in H9 as (Hp9 & Hs9 & _). simpl in Hp9. split; assumption. }
  inv_bind H as u4 w9 H10. apply glLinkProgram_inv in H10 as (Hp10 & _).
  inv_bind H as linked w10 H11.
  destruct linked; take_branch H.
  2:{ do 7 (apply bind_inv_Ok in H as (? & ? & _ & H)). discriminate. }
  pose proof (CheckLinkStatus_true _ _ _ _ H11) as Hl.
  apply quiet_CheckLinkStatus in H11 as ((_ & Hp11 & _) & _).
  inv_bind H as actA w11 H12. injection H12 as <- <-.
  inv_bind H as a w12 H13. rewrite reflect_attribs_spec in H13. injection H13 as <- <-.
  inv_bind H as actU w13 H14. injection H14 as <- <-.
  inv_bind H as u w14 H15. rewrite reflect_uniforms_spec in H15. injection H15 as <- <-.
  injection H as <- <-. simpl in Hl, Hp7, Hp8, Hp9, Hp10 |- *.
  assert (vsrc0 = default EmptyString (files E !! vf) /\ is_Some (files E !! vf)) as [-> Hvf]
    by (destruct (files E !! vf); [injection Hv as ->; eauto|discriminate]).
  assert (fsrc0 = default EmptyString (files E !! ff) /\ is_Some (files E !! ff)) as [-> Hff]
    by (destruct (files E !! ff); [injection Hf as ->; eauto|discriminate]).
  set (vsrc := default EmptyString (files E !! vf)) in *.
  set (fsrc := default EmptyString (files E !! ff)) in *.
  assert (attached_sources w8 prog
          = [(GL_VERTEX_SHADER, vsrc); (GL_FRAGMENT_SHADER, fsrc)]
            ++ (if String.eqb gf EmptyString then []
                else [(GL_GEOMETRY_SHADER, default EmptyString (files E !! gf))])
          /\ (gf <> EmptyString -> is_Some (files E !! gf))) as [Hsrc Hgf].
  { unfold attached_sources. subst p0. simpl in *.
    destruct (String.eqb gf EmptyString) eqn:Hgeq.
    - split; [|intros Hne; apply String.eqb_eq in Hgeq; contradiction].
      rewrite Hp9, Hp8, Hp7, Hp6, !alter_insert_eq, lookup_insert_eq. simpl.
      rewrite Hs9, Hs8, Hs7, Hs6, Hs5, Hs4, Hs3. subst shv shf.
      rewrite lookup_insert_ne by lia. rewrite lookup_insert_eq. simpl.
      now rewrite lookup_insert_eq.
    - assert (gsrc0 = default EmptyString (files E !! gf) /\ is_Some (files E !! gf))
        as [-> Hgf]
        by (destruct (files E !! gf); [injection Hg as ->; eauto|discriminate]).
      split; [|intros _; exact Hgf].
      rewrite Hp9, Hp8, Hp7, Hp6, !alter_insert_eq, lookup_insert_eq. simpl.
      rewrite Hs9, Hs8, Hs7, Hs6, Hs5, Hs4, Hs3. subst shv shf shg.
      rewrite !lookup_insert_ne by lia. rewrite lookup_insert_eq. simpl.
      rewrite lookup_insert_eq. simpl.
      rewrite lookup_insert_ne by lia. now rewrite lookup_insert_eq. }
  rewrite Hsrc in Hp10.
  set (srcs := [(GL_VERTEX_SHADER, vsrc); (GL_FRAGMENT_SHADER, fsrc)] ++ _) in *.
  assert (linked_sources w10 prog = Some srcs) as Hlinked.
  { unfold linked_sources in *. rewrite Hp11. rewrite Hp10 in Hl |- *.
    assert (exists o, programs w8 !! prog = Some o) as [o Ho].
    { rewrite Hp9. destruct (String.eqb gf EmptyString);
        rewrite Hp8, Hp7, Hp6, !alter_insert_eq, lookup_insert_eq; eauto. }
    rewrite lookup_alter_eq, Ho in Hl |- *. simpl in *.
    destruct (drv_link E srcs).1; [reflexivity|]. destruct Hl; discriminate. }
  split; [exact Hvf|]. split; [exact Hff|]. split; [exact Hgf|].
  split; [exact Hlinked|].
  unfold uniform_location, attrib_location. rewrite Hlinked. simpl.
  change (Z.to_nat (MAX_NAME_SIZE - 1)) with 1027%nat.
  split; [|split; [|split; [|split]]].
  - intros name Hin. apply reflected_lookup. left. now rewrite active_names_fmap.
  - intros name Hnin. apply reflected_lookup_None; [|subst p0; apply lookup_empty].
    now rewrite active_names_fmap.
  - intros name Hin. apply reflected_lookup. left. now rewrite active_names_fmap.
  - intros name Hnin. apply reflected_lookup_None; [|subst p0; apply lookup_empty].
    now rewrite active_names_fmap.
  - intros ->. exact Hshg.
Qed.

End Loaded.

End ReflectFacts.

Module MissingFile.
Import Num NumFacts GL Run Program ProgramFacts LoadFacts ReflectFacts.
Section WithEnv.
Context (E : Env).

(** [LoadVertGeomFrag] gives up at the first file it cannot read, before it
    has created anything. *)
Lemma LoadVertGeomFrag_missing p vf gf ff w :
  files E !! vf = None \/ (gf <> EmptyString /\ files E !! gf = None) \/ files E !! ff = None ->
  exists w0 line,
    Delete p w = Ok (mk_Program 0 0 0 0 0 EmptyString ∅ ∅) w0
    /\ LoadVertGeomFrag E p vf gf ff w
       = Ok (false, mk_Program 0 0 0 0 0
                      (if negb (String.eqb gf EmptyString)
                       then vf +:+ " + " +:+ gf +:+ " + " +:+ ff
                       else vf +:+ " + " +:+ ff) ∅ ∅)
            (write_log line w0).
Proof.
  intros Hmiss. destruct (returns_Delete p w) as (p0 & w0 & HD).
  pose proof (Delete_inv _ _ _ _ HD) as (-> & _).
  unfold LoadVertGeomFrag. cbv zeta. erewrite bind_Ok by exact HD.
  unfold LoadFile, Log.printf. exists w0.
  destruct (files E !! vf) as [vsrc|]; [|eexists; split; [exact HD|reflexivity]].
  destruct (String.eqb gf EmptyString) eqn:Hg.
  - destruct Hmiss as [?|[[Hne _]|Hff]]; [discriminate| |].
    { apply String.eqb_eq in Hg. contradiction. }
    rewrite Hff. eexists; (split; [exact HD|reflexivity]).
  - destruct (files E !! gf) as [gsrc|]; [|eexists; (split; [exact HD|reflexivity])].
    destruct Hmiss as [?|[[_ ?]|Hff]]; [discriminate..|].
    rewrite Hff. eexists; (split; [exact HD|reflexivity]).
Qed.

End WithEnv.
End MissingFile.

Module BufferFacts.
Import Num NumFacts glm GL radix_sort Device Run Program ProgramFacts LoadFacts.

(** Computations that leave every buffer object alone. *)
Definition keeps_buffers {A} (m : M A) : Prop :=
  forall w a w', m w = Ok a w' -> buffers w' = buffers w.

Lemma keeps_buffers_quiet {A} (m : M A) : quiet m -> keeps_buffers m.
Proof. intros Hq w a w' H. now destruct (Hq _ _ _ H) as [(Hb & _) _]. Qed.

Lemma keeps_buffers_bind {A B} (m : M A) (k : A -> M B) :
  keeps_buffers m -> (forall a, keeps_buffers (k a)) -> keeps_buffers (m ≫= k).
Proof.
  intros Hm Hk w b w' H. inv_bind H as a w1 H1.
  rewrite (Hk _ _ _ _ H). exact (Hm _ _ _ H1).
Qed.

Lemma keeps_buffers_when b m : keeps_buffers m -> keeps_buffers (when b m).
Proof. intros Hm. destruct b; [exact Hm|apply keeps_buffers_quiet, quiet_ret]. Qed.

Section WithEnv.
Context (E : Env).

Lemma keeps_buffers_Delete p : keeps_buffers (Delete p).
Proof. intros w a w' H. now apply Delete_inv in H as (_ & _ & Hb & _). Qed.

Lemma keeps_buffers_CompileShader ty src out dbg :
  keeps_buffers (CompileShader E ty src out dbg).
Proof. intros w [ok sh] w' H. now apply CompileShader_inv in H as (_ & _ & _ & Hb & _). Qed.

Lemma keeps_buffers_glCreateProgram : keeps_buffers glCreateProgram.
Proof. intros w a w' H. now apply glCreateProgram_inv in H as (_ & _ & _ & _ & Hb & _). Qed.

Lemma keeps_buffers_glAttachShader prog s : keeps_buffers (glAttachShader prog s).
Proof. intros w a w' [= _ <-]. reflexivity. Qed.

Lemma keeps_buffers_glLinkProgram prog : keeps_buffers (glLinkProgram E prog).
Proof. intros w a w' [= _ <-]. reflexivity. Qed.

Ltac keeps :=
  repeat first
    [ apply keeps_buffers_Delete | apply keeps_buffers_CompileShader
    | apply keeps_buffers_glCreateProgram
    | apply keeps_buffers_glAttachShader | apply keeps_buffers_glLinkProgram
    | apply keeps_buffers_when
    | apply keeps_buffers_quiet;
      first [ apply quiet_ret | apply quiet_get | apply quiet_printf
            | apply quiet_CheckLinkStatus | apply quiet_reflect_uniforms
            | apply quiet_reflect_attribs | apply quiet_DumpShaderSource ]
    | match goal with
      | |- keeps_buffers (let '(_, _) := ?x in _) => destruct x
      | |- keeps_buffers (if ?b then _ else _) => destruct b
      | |- keeps_buffers (LoadFile _ _ _) => apply keeps_buffers_quiet, quiet_ret
      | |- keeps_buffers (_ ≫= _) => apply keeps_buffers_bind; [|intros ?]
      end ].

Lemma keeps_buffers_LoadVertGeomFrag p vf gf ff :
  keeps_buffers (LoadVertGeomFrag E p vf gf ff).
Proof. unfold LoadVertGeomFrag. cbv zeta. keeps. Qed.

Lemma keeps_buffers_LoadCompute p file : keeps_buffers (LoadCompute E p file).
Proof. unfold LoadCompute. keeps. Qed.

(** An [Init] that answers [false] has built nothing: no buffer was
    created or written, and the renderer holds no vertex array object, no
    key or value buffer and no sorter that it did not hold before. *)
Lemma splat_Init_failed ind r cloud w r' w' :
  SplatRenderer.Init E ind r cloud w = Ok (false, r') w' ->
  buffers w' = buffers w
  /\ exists prog, r' = SplatRenderer.set_splatProg (Some prog) r
                  /\ no_reflection prog.
Proof.
  unfold SplatRenderer.Init. intros H.
  inv_bind H as a w0 H0. destruct a as [ok prog].
  destruct ok; take_branch H.
  - inv_bind H as r1 w1 H1. inv_bind H as kb w2 H2. inv_bind H as vb w3 H3. discriminate.
  - pose proof (keeps_buffers_LoadVertGeomFrag _ _ _ _ _ _ _ H0) as Hb.
    apply LoadVertGeomFrag_failed in H0 as [Hn _].
    inv_bind H as u w1 H1. injection H1 as _ <-. injection H as <- <-.
    split; [exact Hb|]. exists prog. split; [reflexivity|exact Hn].
Qed.

Lemma point_Init_failed ind1 ind2 r cloud w r' w' :
  PointRenderer.Init E ind1 ind2 r cloud w = Ok (false, r') w' ->
  buffers w' = buffers w
  /\ PointRenderer.pointVao r' = PointRenderer.pointVao r
  /\ PointRenderer.keyBuffer r' = PointRenderer.keyBuffer r
  /\ PointRenderer.valBuffer r' = PointRenderer.valBuffer r
  /\ PointRenderer.posBuffer r' = PointRenderer.posBuffer r
  /\ PointRenderer.posVec r' = PointRenderer.posVec r.
Proof.
  unfold PointRenderer.Init. intros H.
  inv_bind H as ok w0 H0. injection H0 as <- <-.
  destruct (bool_decide _); take_branch H.
  2:{ inv_bind H as u w1 H1. injection H1 as _ <-. injection H as <- <-. repeat split. }
  inv_bind H as tex w1 H1. injection H1 as <- <-.
  inv_bind H as a w2 H2. destruct a as [ok prog].
  pose proof (keeps_buffers_LoadVertGeomFrag _ _ _ _ _ _ _ H2) as Hb2.
  destruct ok; take_branch H.
  2:{ inv_bind H as u w3 H3. injection H3 as _ <-. injection H as <- <-.
      split; [exact Hb2|]. repeat split. }
  inv_bind H as a w3 H3. destruct a as [ok presort].
  pose proof (keeps_buffers_LoadCompute _ _ _ _ _ H3) as Hb3.
  destruct ok; take_branch H.
  2:{ inv_bind H as u w4 H4. injection H4 as _ <-. injection H as <- <-.
      split; [simpl; now rewrite Hb3, Hb2|]. repeat split. }
  inv_bind H as r1 w4 H4. inv_bind H as kb w5 H5. inv_bind H as vb w6 H6.
  inv_bind H as pb w7 H7. discriminate.
Qed.

End WithEnv.
End BufferFacts.

Module KeyFacts.
Import Num NumFacts glm DepthKey DepthKeyFacts.


End KeyFacts.

Module ReInit.
Import Num NumFacts glm GL radix_sort Device Run ProgramFacts InitFacts.

Lemma build_vecs_loop_overrun eye forward pv n : forall i dv iv,
  (length dv < i + n)%nat -> (i <= length dv)%nat ->
  SplatRenderer.build_vecs_loop eye forward pv n i dv iv = None.
Proof.
  induction n as [|n IH]; intros i dv iv Hlt Hle; [lia|].
  simpl. destruct (pv !! i) as [p|]; [simpl|reflexivity].
  destruct (i <? length dv)%nat eqn:Hi; [|reflexivity].
  apply Nat.ltb_lt in Hi.
  destruct (i <? length iv)%nat; [simpl|reflexivity].
  apply IH; rewrite length_insert; lia.
Qed.

Lemma length_resize n v : length (SplatRenderer.resize n v) = n.
Proof.
  unfold SplatRenderer.resize. rewrite length_app, length_take, length_replicate. lia.
Qed.

Section WithEnv.
Context (E : Env) `{sorter_impl : !ParallelSorter}.

(** [BuildVertexArrayObject] appends to the positions the renderer
    holds. *)
Lemma splat_BuildVertexArrayObject_appends r cloud w r' w' :
  SplatRenderer.BuildVertexArrayObject E r cloud w = Ok r' w' ->
  SplatRenderer.positionVec r'
  = SplatRenderer.positionVec r ++ (SplatRenderer.position <$> cloud)
  /\ SplatRenderer.depthVec r' = SplatRenderer.depthVec r.
Proof.
  unfold SplatRenderer.BuildVertexArrayObject. cbv zeta. intros Hrun.
  do 13 (apply bind_inv_Ok in Hrun as (? & ? & _ & Hrun)).
  injection Hrun as <- _. split; reflexivity.
Qed.

Lemma splat_Init_appends ind r cloud w r' w' :
  SplatRenderer.Init E ind r cloud w = Ok (true, r') w' ->
  SplatRenderer.positionVec r'
  = SplatRenderer.positionVec r ++ (SplatRenderer.position <$> cloud)
  /\ length (SplatRenderer.depthVec r') = length cloud.
Proof.
  unfold SplatRenderer.Init. intros H.
  inv_bind H as a w0 H0. destruct a as [ok prog].
  destruct ok; take_branch H.
  2:{ apply bind_inv_Ok in H as (? & ? & _ & H). discriminate. }
  inv_bind H as r1 w1 H1. inv_bind H as kb w2 H2. inv_bind H as vb w3 H3.
  injection H as <- _.
  apply splat_BuildVertexArrayObject_appends in H1 as [Hp Hd].
  simpl. split; [exact Hp|apply length_resize].
Qed.

Lemma splat_Render_after_second_Init ind r cloud w r' w' cam vp nf fv :
  SplatRenderer.positionVec r <> [] ->
  SplatRenderer.Init E ind r cloud w = Ok (true, r') w' ->
  SplatRenderer.Render E r' cam vp nf fv w' = Undefined.
Proof.
  intros Hne H. apply splat_Init_appends in H as [Hp Hd].
  unfold SplatRenderer.Render, SplatRenderer.build_vecs.
  rewrite build_vecs_loop_overrun; [reflexivity| |lia].
  rewrite Hd, Hp, length_app, length_fmap.
  destruct (SplatRenderer.positionVec r); [contradiction|simpl; lia].
Qed.

End WithEnv.
End ReInit.

Module Claims.
Import Num NumFacts glm GL radix_sort Device Run Scene.
#[local] Existing Instance SortFacts.insertion_sorter.




(** Calls that move data into, between or inside buffers. *)
Definition touches_buffers (c : call) : bool :=
  match c with
  | BufferData _ _ _ | BufferSubData _ _ | CopyBufferSubData _ _ _ _ _
  | RadixSort _ _ _ | DispatchCompute _ _ _ => true
  | _ => false
  end.



Section FrameLemmas.
Context (E : Env) `{sorter_impl : !ParallelSorter}.

Lemma splat_frames_untouched L cams vp nf fv : forall r w,
  SplatFacts.Inv E L r w ->
  exists r' w',
    Frames.splat_frames E cams vp nf fv r w = Ok r' w'
    /\ forall name, name <> obj (SplatFacts.L_key L) -> name <> obj (SplatFacts.L_val L) ->
         name <> obj (SplatFacts.L_elem L) -> buffers w' !! name = buffers w !! name.
Proof.
  induction cams as [|cam cams IH]; intros r w I.
  - exists r, w. split; [reflexivity|]. reflexivity.
  - destruct (SplatFacts.splat_Render_spec E L r w cam vp nf fv I)
      as (w1 & _ & _ & _ & _ & Hrun & Hb & _ & I1).
    destruct (IH _ _ I1) as (r' & w' & Hrest & Hsame).
    exists r', w'. simpl. erewrite bind_Ok by exact Hrun.
    split; [exact Hrest|]. intros name Hk Hv He.
    rewrite (Hsame name Hk Hv He), Hb. now rewrite !lookup_insert_ne by congruence.
Qed.

Lemma point_frames_untouched L cams vp nf fv : forall r w,
  PointFacts.Inv E L r w ->
  exists w',
    Frames.point_frames E cams vp nf fv r w = Ok r w'
    /\ forall name, name <> obj (PointFacts.L_key L) -> name <> obj (PointFacts.L_val L) ->
         name <> obj (PointFacts.L_elem L) -> buffers w' !! name = buffers w !! name.
Proof.
  induction cams as [|cam cams IH]; intros r w I.
  - exists w. split; reflexivity.
  - destruct (PointFacts.point_Render_spec E L r w cam vp nf fv I)
      as (w1 & _ & _ & _ & _ & _ & _ & _ & ks & vs & Hrun & _ & _ & _ & Hb & _ & I1).
    destruct (IH _ _ I1) as (w' & Hrest & Hsame).
    exists w'. simpl. erewrite bind_Ok by exact Hrun.
    split; [exact Hrest|]. intros name Hk Hv He.
    rewrite (Hsame name Hk Hv He), Hb. now rewrite !lookup_insert_ne by congruence.
Qed.

End FrameLemmas.

(** C8.  Over any number of frames, [Render] of either renderer leaves
    every buffer other than the key buffer, the value buffer and the
    element buffer as it found it; in particular the attribute buffers of
    the vertex array object (position, colour and, for splats, the three
    covariance columns) and the position storage buffer of the point
    renderer still hold what [Init] put there. *)
Theorem C8_render_frame (E : Env) `{!ParallelSorter}
    (Ls : SplatFacts.Layout) (rs : SplatRenderer.SplatRenderer) (ws : World)
    (Lp : PointFacts.Layout) (rp : PointRenderer.PointRenderer) (wp : World)
    (cams : list mat4) (vp : vec4) (nf : Q * Q) (fv : Q) :
  SplatFacts.Inv E Ls rs ws ->
  PointFacts.Inv E Lp rp wp ->
  (exists r' w',
     Frames.splat_frames E cams vp nf fv rs ws = Ok r' w'
     /\ (forall name,
           name <> obj (SplatFacts.L_key Ls) -> name <> obj (SplatFacts.L_val Ls) ->
           name <> obj (SplatFacts.L_elem Ls) -> buffers w' !! name = buffers ws !! name)
     /\ Forall (fun '(_, b) => buffers w' !! obj b = buffers ws !! obj b)
               (attribBuffers (SplatFacts.L_vao Ls)))
  /\
  (exists w',
     Frames.point_frames E cams vp nf fv rp wp = Ok rp w'
     /\ (forall name,
           name <> obj (PointFacts.L_key Lp) -> name <> obj (PointFacts.L_val Lp) ->
           name <> obj (PointFacts.L_elem Lp) -> buffers w' !! name = buffers wp !! name)
     /\ Forall (fun '(_, b) => buffers w' !! obj b = buffers wp !! obj b)
               (attribBuffers (PointFacts.L_vao Lp))
     /\ buffers w' !! obj (PointFacts.L_pos Lp) = buffers wp !! obj (PointFacts.L_pos Lp)).
Proof.
  intros Is Ip. split.
  - clear Ip. rename Ls into L, rs into r, ws into w, Is into I.
    destruct (splat_frames_untouched E L cams vp nf fv r w I) as (r' & w' & Hrun & Hsame).
    exists r', w'. split; [exact Hrun|]. split; [exact Hsame|].
    eapply Forall_impl; [exact (SplatFacts.inv_attribs _ _ _ _ I)|].
    intros [l b] (Hk & Hv & He). now apply Hsame.
  - clear Is. rename Lp into L, rp into r, wp into w, Ip into I.
    destruct (point_frames_untouched E L cams vp nf fv r w I) as (w' & Hrun & Hsame).
    exists w'. split; [exact Hrun|]. split; [exact Hsame|]. split.
    + eapply Forall_impl; [exact (PointFacts.inv_attribs _ _ _ _ I)|].
      intros [l b] (Hk & Hv & He). now apply Hsame.
    + apply Hsame; [exact (PointFacts.inv_pos_key _ _ _ _ I)
                   | exact (PointFacts.inv_pos_val _ _ _ _ I)
                   | exact (PointFacts.inv_pos_elem _ _ _ _ I)].
Qed.

Lemma C8_render_frame_witness :
  exists Ls Lp,
    SplatFacts.Inv env Ls splat_scene.1 splat_scene.2
    /\ PointFacts.Inv env Lp point_scene.1 point_scene.2
    /\ (exists r' w',
          Frames.splat_frames env [camera; camera_at_4] viewport nearFar fovy
            splat_scene.1 splat_scene.2 = Ok r' w'
          /\ Forall (fun '(_, b) => buffers w' !! obj b = buffers splat_scene.2 !! obj b)
                    (attribBuffers (SplatFacts.L_vao Ls)))
    /\ (exists w',
          Frames.point_frames env [camera; camera_at_4] viewport nearFar fovy
            point_scene.1 point_scene.2 = Ok point_scene.1 w'
          /\ Forall (fun '(_, b) => buffers w' !! obj b = buffers point_scene.2 !! obj b)
                    (attribBuffers (PointFacts.L_vao Lp))
          /\ buffers w' !! obj (PointFacts.L_pos Lp)
             = buffers point_scene.2 !! obj (PointFacts.L_pos Lp)).
Proof.
  destruct SceneFacts.splat_scene_Inv as (Ls & Is & _).
  destruct SceneFacts.point_scene_Inv as (Lp & Ip & _).
  exists Ls, Lp. split; [exact Is|]. split; [exact Ip|].
  destruct (C8_render_frame env Ls splat_scene.1 splat_scene.2 Lp point_scene.1 point_scene.2
              [camera; camera_at_4] viewport nearFar fovy Is Ip)
    as [(r' & w' & Hs & _ & Has) (w'' & Hp & _ & Hap & Hpos)].
  split; [exists r', w'; auto|exists w''; auto].
Defined.

(** C6.  In every frame of either renderer the sort is followed by one
    [glCopyBufferSubData] from the value buffer, bound to
    [GL_COPY_READ_BUFFER], to the element buffer of the vertex array object,
    bound to [GL_COPY_WRITE_BUFFER], of [N * sizeof(uint32_t)] bytes from
    offset 0 to offset 0.  Nothing after it in the frame moves buffer data,
    so the draw reads the permutation the sort of this frame left; the host
    copy of the indices still holds the identity. *)
Theorem C6_device_side_copy (E : Env) `{!ParallelSorter}
    (Ls : SplatFacts.Layout) (rs : SplatRenderer.SplatRenderer) (ws : World)
    (Lp : PointFacts.Layout) (rp : PointRenderer.PointRenderer) (wp : World)
    (cam : mat4) (vp : vec4) (nf : Q * Q) (fv : Q) :
  SplatFacts.Inv E Ls rs ws ->
  PointFacts.Inv E Lp rp wp ->
  (let n := Z.of_nat (length (SplatRenderer.positionVec rs)) in
   exists r' w' pre post order,
     SplatRenderer.Render E rs cam vp nf fv ws = Ok r' w'
     /\ calls w' = calls ws ++ pre ++
          [RadixSort (obj (SplatFacts.L_key Ls)) (obj (SplatFacts.L_val Ls)) n;
           BindBuffer GL_COPY_READ_BUFFER (obj (SplatFacts.L_val Ls));
           BindBuffer GL_COPY_WRITE_BUFFER (obj (SplatFacts.L_elem Ls));
           CopyBufferSubData GL_COPY_READ_BUFFER GL_COPY_WRITE_BUFFER 0 0
             (n * sizeof_uint32)] ++ post
     /\ Forall (fun c => touches_buffers c = false) post
     /\ order = (sort_pairs (zip (SplatFacts.frame_keys rs cam) (seqZ 0 n))).*2
     /\ Z.of_nat (length order) = n
     /\ buffers w' !! obj (SplatFacts.L_val Ls) = Some (cells_of_u32s order)
     /\ buffers w' !! obj (SplatFacts.L_elem Ls) = Some (cells_of_u32s order)
     /\ SplatRenderer.indexVec r' = seqZ 0 n)
  /\
  (let n := Z.of_nat (length (PointRenderer.posVec rp)) in
   exists w' pre post order,
     PointRenderer.Render E rp cam vp nf fv wp = Ok rp w'
     /\ calls w' = calls wp ++ pre ++
          [RadixSort (obj (PointFacts.L_key Lp)) (obj (PointFacts.L_val Lp)) n;
           BindBuffer GL_COPY_READ_BUFFER (obj (PointFacts.L_val Lp));
           BindBuffer GL_COPY_WRITE_BUFFER (obj (PointFacts.L_elem Lp));
           CopyBufferSubData GL_COPY_READ_BUFFER GL_COPY_WRITE_BUFFER 0 0
             (n * sizeof_uint32)] ++ post
     /\ Forall (fun c => touches_buffers c = false) post
     /\ Z.of_nat (length order) = n
     /\ buffers w' !! obj (PointFacts.L_val Lp) = Some (cells_of_u32s order)
     /\ buffers w' !! obj (PointFacts.L_elem Lp) = Some (cells_of_u32s order)).
Proof.
  intros Is Ip.
  split.
  - clear Ip. rename Ls into L, rs into r, ws into w, Is into I. intros n. subst n.
    destruct (SplatFacts.splat_Render_spec E L r w cam vp nf fv I)
      as (w' & l1 & l2 & l3 & l4 & Hrun & Hb & Hc & I').
    pose proof (SplatFacts.inv_val_elem _ _ _ _ I) as Hve.
    pose proof (SplatFacts.inv_key_val _ _ _ _ I) as Hkv.
    pose proof (SplatFacts.inv_key_elem _ _ _ _ I) as Hke.
    eexists _, w', [_; _], [_; _; _; _; _; _], _.
    split; [exact Hrun|]. split; [rewrite Hc; reflexivity|].
    split; [repeat constructor|]. split; [reflexivity|].
    split. { rewrite length_fmap, sorted_length; [reflexivity|].
             unfold SplatFacts.frame_keys. apply length_fmap. }
    split. { rewrite Hb. rewrite !lookup_insert_ne by congruence. apply lookup_insert_eq. }
    split. { rewrite Hb. apply lookup_insert_eq. }
    reflexivity.
  - clear Is. rename Lp into L, rp into r, wp into w, Ip into I. intros n. subst n.
    destruct (PointFacts.point_Render_spec E L r w cam vp nf fv I)
      as (w' & lf & le & l1 & l2 & l3 & l4 & l5 & ks & vs
          & Hrun & Hlk & Hpv & _ & Hb & Hc & I').
    pose proof (PointFacts.inv_val_elem _ _ _ _ I) as Hve.
    pose proof (PointFacts.inv_key_val _ _ _ _ I) as Hkv.
    pose proof (PointFacts.inv_key_elem _ _ _ _ I) as Hke.
    eexists w', [_; _; _; _; _; _; _; _], [_; _; _; _; _; _; _; _; _],
      ((sort_pairs (zip ks vs)).*2).
    split; [exact Hrun|]. split; [rewrite Hc; reflexivity|].
    split; [repeat constructor|].
    split. { rewrite length_fmap, (PointFacts.sorted_length' _ _ (length (PointRenderer.posVec r)));
             [reflexivity|exact Hlk|]. now apply PointFacts.point_perm_seqZ_length. }
    split. { rewrite Hb. rewrite !lookup_insert_ne by congruence. apply lookup_insert_eq. }
    rewrite Hb. apply lookup_insert_eq.
Qed.

Lemma C6_device_side_copy_witness :
  exists Ls Lp,
    SplatFacts.Inv env Ls splat_scene.1 splat_scene.2
    /\ PointFacts.Inv env Lp point_scene.1 point_scene.2
    /\ (exists r' w' pre post,
          SplatRenderer.Render env splat_scene.1 camera viewport nearFar fovy splat_scene.2
            = Ok r' w'
          /\ calls w' = calls splat_scene.2 ++ pre ++
               [RadixSort (obj (SplatFacts.L_key Ls)) (obj (SplatFacts.L_val Ls)) 3;
                BindBuffer GL_COPY_READ_BUFFER (obj (SplatFacts.L_val Ls));
                BindBuffer GL_COPY_WRITE_BUFFER (obj (SplatFacts.L_elem Ls));
                CopyBufferSubData GL_COPY_READ_BUFFER GL_COPY_WRITE_BUFFER 0 0 12] ++ post
          /\ buffers w' !! obj (SplatFacts.L_elem Ls) = buffers w' !! obj (SplatFacts.L_val Ls))
    /\ (exists w' pre post,
          PointRenderer.Render env point_scene.1 camera viewport nearFar fovy point_scene.2
            = Ok point_scene.1 w'
          /\ calls w' = calls point_scene.2 ++ pre ++
               [RadixSort (obj (PointFacts.L_key Lp)) (obj (PointFacts.L_val Lp)) 3;
                BindBuffer GL_COPY_READ_BUFFER (obj (PointFacts.L_val Lp));
                BindBuffer GL_COPY_WRITE_BUFFER (obj (PointFacts.L_elem Lp));
                CopyBufferSubData GL_COPY_READ_BUFFER GL_COPY_WRITE_BUFFER 0 0 12] ++ post
          /\ buffers w' !! obj (PointFacts.L_elem Lp) = buffers w' !! obj (PointFacts.L_val Lp)).
Proof.
  destruct SceneFacts.splat_scene_Inv as (Ls & Is & Hs).
  destruct SceneFacts.point_scene_Inv as (Lp & Ip & Hp).
  exists Ls, Lp. split; [exact Is|]. split; [exact Ip|].
  destruct (C6_device_side_copy env Ls splat_scene.1 splat_scene.2 Lp point_scene.1
              point_scene.2 camera viewport nearFar fovy Is Ip)
    as [(r' & w' & pre & post & order & Hrun & Hc & _ & _ & _ & Hv & He & _)
        (w'' & pre' & post' & order' & Hrun' & Hc' & _ & _ & Hv' & He')].
  rewrite Hs in Hc. rewrite Hp in Hc'.
  split.
  - exists r', w', pre, post. split; [exact Hrun|]. split; [exact Hc|]. now rewrite Hv, He.
  - exists w'', pre', post'. split; [exact Hrun'|]. split; [exact Hc'|]. now rewrite Hv', He'.
Defined.



(** C9.  With no primitives, a frame of either renderer returns and leaves
    every buffer as it was.  The splat renderer uploads two empty arrays,
    the point renderer dispatches zero work groups; the sort is called with
    count 0, the copy moves 0 bytes and the one draw call has count 0. *)
Theorem C9_empty_cloud (E : Env) `{!ParallelSorter}
    (Ls : SplatFacts.Layout) (rs : SplatRenderer.SplatRenderer) (ws : World)
    (Lp : PointFacts.Layout) (rp : PointRenderer.PointRenderer) (wp : World)
    (cam : mat4) (vp : vec4) (nf : Q * Q) (fv : Q) :
  SplatFacts.Inv E Ls rs ws -> SplatRenderer.positionVec rs = [] ->
  PointFacts.Inv E Lp rp wp -> PointRenderer.posVec rp = [] ->
  (
     exists r' w' l1 l2 l3 l4,
       SplatRenderer.Render E rs cam vp nf fv ws = Ok r' w'
       /\ buffers w' = buffers ws
       /\ SplatRenderer.depthVec r' = [] /\ SplatRenderer.indexVec r' = []
       /\ calls w' = calls ws ++
            [BufferSubData (obj (SplatFacts.L_key Ls)) [];
             BufferSubData (obj (SplatFacts.L_val Ls)) [];
             RadixSort (obj (SplatFacts.L_key Ls)) (obj (SplatFacts.L_val Ls)) 0;
             BindBuffer GL_COPY_READ_BUFFER (obj (SplatFacts.L_val Ls));
             BindBuffer GL_COPY_WRITE_BUFFER (obj (SplatFacts.L_elem Ls));
             CopyBufferSubData GL_COPY_READ_BUFFER GL_COPY_WRITE_BUFFER 0 0 0;
             UseProgram (Program.program (SplatFacts.L_prog Ls));
             Uniform l1 (UMat4 (inverse E cam));
             Uniform l2 (UMat4 (perspective E fv (z4 vp / w4 vp)%Q nf.1 nf.2));
             Uniform l3 (UVec4 (mk_vec4 (w4 vp / tanf E (fv / 2))%Q nf.1 nf.2 0));
             Uniform l4 (UVec4 vp);
             GL.DrawElements (obj (SplatFacts.L_elem Ls)) 0])
  /\
  (
     exists w' lf le l1 l2 l3 l4 l5,
       PointRenderer.Render E rp cam vp nf fv wp = Ok rp w'
       /\ buffers w' = buffers wp
       /\ calls w' = calls wp ++
            [UseProgram (Program.program (PointFacts.L_presort Lp));
             Uniform lf (UVec3 (DepthKey.forward_of cam));
             Uniform le (UVec3 (DepthKey.eye_of cam));
             BindBufferBase GL_SHADER_STORAGE_BUFFER 0 (obj (PointFacts.L_pos Lp));
             BindBufferBase GL_SHADER_STORAGE_BUFFER 1 (obj (PointFacts.L_key Lp));
             BindBufferBase GL_SHADER_STORAGE_BUFFER 2 (obj (PointFacts.L_val Lp));
             DispatchCompute 0 1 1;
             MemoryBarrier;
             RadixSort (obj (PointFacts.L_key Lp)) (obj (PointFacts.L_val Lp)) 0;
             BindBuffer GL_COPY_READ_BUFFER (obj (PointFacts.L_val Lp));
             BindBuffer GL_COPY_WRITE_BUFFER (obj (PointFacts.L_elem Lp));
             CopyBufferSubData GL_COPY_READ_BUFFER GL_COPY_WRITE_BUFFER 0 0 0;
             UseProgram (Program.program (PointFacts.L_prog Lp));
             Uniform l1 (UMat4 (inverse E cam));
             Uniform l2 (UMat4 (perspective E fv (z4 vp / w4 vp)%Q nf.1 nf.2));
             Uniform l3 (UFloat 0.02);
             Uniform l4 (UFloat (1 / (z4 vp / w4 vp)));
             ActiveTexture 0;
             BindTexture (PointFacts.L_tex Lp);
             Uniform l5 (UInt 0);
             GL.DrawElements (obj (PointFacts.L_elem Lp)) 0]).
Proof.
  intros Is Hes Ip Hep.
  assert (forall l : list (Z * Z), l ≡ₚ [] -> l = []) as Hnil
    by (intros l Hl; now apply Permutation_nil_r in Hl).
  split.
  - clear Ip Hep. rename Ls into L, rs into r, ws into w, Is into I, Hes into Hempty.
    destruct (SplatFacts.splat_Render_spec E L r w cam vp nf fv I)
      as (w' & l1 & l2 & l3 & l4 & Hrun & Hb & Hc & _).
    destruct (SplatFacts.inv_key_buf _ _ _ _ I) as (ks & Hks & Hlks).
    destruct (SplatFacts.inv_val_buf _ _ _ _ I) as (vs & Hvs & Hpvs).
    destruct (SplatFacts.inv_elem_buf _ _ _ _ I) as (es & Hes & Hpes).
    unfold SplatFacts.frame_keys in *. rewrite Hempty in *. simpl in *.
    rewrite (Hnil _ (sort_pairs_perm [])) in *. simpl in *.
    destruct ks; [|discriminate].
    apply Permutation_nil_r in Hpvs, Hpes. subst vs es.
    exists (SplatFacts.after_frame r cam), w', l1, l2, l3, l4. split; [exact Hrun|].
    split. { rewrite Hb. rewrite (insert_id (buffers w)) by exact Hvs.
             rewrite (insert_id (buffers w)) by exact Hks.
             now rewrite insert_id by exact Hes. }
    split; [simpl; unfold SplatFacts.frame_keys; now rewrite Hempty|].
    split; [simpl; now rewrite Hempty|]. exact Hc.
  - clear Is Hes. rename Lp into L, rp into r, wp into w, Ip into I, Hep into Hempty.
    destruct (PointFacts.point_Render_spec E L r w cam vp nf fv I)
      as (w' & lf & le & l1 & l2 & l3 & l4 & l5 & ks & vs & Hrun & Hlk & Hpv & _ & Hb & Hc & _).
    destruct (PointFacts.inv_key_buf _ _ _ _ I) as (ks0 & Hks & Hlks).
    destruct (PointFacts.inv_val_buf _ _ _ _ I) as (vs0 & Hvs & Hpvs).
    destruct (PointFacts.inv_elem_buf _ _ _ _ I) as (es & Hes & Hpes).
    rewrite Hempty in *. simpl in *.
    destruct ks; [|discriminate]. destruct ks0; [|discriminate].
    apply Permutation_nil_r in Hpv, Hpvs, Hpes. subst vs vs0 es. simpl in *.
    rewrite (Hnil _ (sort_pairs_perm [])) in *. simpl in *.
    exists w', lf, le, l1, l2, l3, l4, l5. split; [exact Hrun|].
    split. { rewrite Hb. rewrite (insert_id (buffers w)) by exact Hvs.
             rewrite (insert_id (buffers w)) by exact Hks.
             now rewrite insert_id by exact Hes. }
    exact Hc.
Qed.

Lemma C9_empty_cloud_witness :
  exists Ls Lp,
    SplatFacts.Inv env Ls empty_splat_scene.1 empty_splat_scene.2
    /\ PointFacts.Inv env Lp empty_point_scene.1 empty_point_scene.2
    /\ SplatRenderer.positionVec empty_splat_scene.1 = []
    /\ PointRenderer.posVec empty_point_scene.1 = []
    /\ (exists r' w',
          SplatRenderer.Render env empty_splat_scene.1 camera viewport nearFar fovy
            empty_splat_scene.2 = Ok r' w'
          /\ buffers w' = buffers empty_splat_scene.2)
    /\ (exists w',
          PointRenderer.Render env empty_point_scene.1 camera viewport nearFar fovy
            empty_point_scene.2 = Ok empty_point_scene.1 w'
          /\ buffers w' = buffers empty_point_scene.2).
Proof.
  destruct SceneFacts.empty_splat_scene_Inv as (Ls & Is & Hs).
  destruct SceneFacts.empty_point_scene_Inv as (Lp & Ip & Hp).
  exists Ls, Lp. do 4 (split; [assumption|]).
  destruct (C9_empty_cloud env Ls empty_splat_scene.1 empty_splat_scene.2 Lp
              empty_point_scene.1 empty_point_scene.2 camera viewport nearFar fovy
              Is Hs Ip Hp)
    as [(r' & w' & ? & ? & ? & ? & Hrun & Hb & _)
        (w'' & ? & ? & ? & ? & ? & ? & ? & Hrun' & Hb' & _)].
  split; [exists r', w'; auto|exists w''; auto].
Defined.

(** C4 (counterexample).  The release build, the splat program loaded and
    bound.  ["modelMat"] is no uniform of the program, so the lookup falls
    back to location 0, which is where ["viewMat"] lives: the call that
    follows stores the matrix there and raises no error. *)
Lemma C4_fallback_location_is_live :
  let E := release_env in
  let prog := default (Program.new 0) (SplatRenderer.splatProg release_splat_scene.1) in
  let w := default fresh_world (final_world (Program.Bind prog release_splat_scene.2)) in
  let w' := default fresh_world
              (final_world ((l ← Program.GetUniformLoc E prog "modelMat";
                             Program.SetUniformLoc E l (UMat4 camera_at_4)) w)) in
  debug_build E = false
  /\ Program.uniforms prog !! "modelMat"%string = None
  /\ Program.loc <$> Program.uniforms prog !! "viewMat"%string = Some 0
  /\ Program.GetUniformLoc E prog "modelMat" w
     = Ok 0 (write_log ("could not find uniform modelMat for program " +:+
                        Program.debugName prog +:+ Program.nl) w)
  /\ uniform_vals w !! (Program.program prog, 0) = None
  /\ uniform_vals w' !! (Program.program prog, 0) = Some (UMat4 camera_at_4)
  /\ errors w' = [].
Proof. cbv zeta. repeat split; vm_compute; reflexivity. Qed.

(** C4 (amended).  A name that is in neither reflection table: in a debug
    build [GetUniformLoc] stops at its assertion before it prints, and
    [GetAttribLoc] stops at its assertion after it has printed; in a
    release build both print and return location 0.  Location 0 is not the
    location GL ignores (-1): the [glUniform*] call made with it is
    recorded, and either stores the value in the variable of the current
    program that lives at location 0 or raises [GL_INVALID_OPERATION]. *)
Theorem C4_unresolved_lookup (E : Env) (p : Program.Program) (name : string) (v : uval)
    (w : World) :
  Program.uniforms p !! name = None ->
  Program.attribs p !! name = None ->
  let umsg := ("could not find uniform " +:+ name +:+ " for program " +:+
               Program.debugName p +:+ Program.nl)%string in
  let amsg := ("could not find attrib " +:+ name +:+ " for program " +:+
               Program.debugName p +:+ Program.nl)%string in
  (debug_build E = true ->
     Program.GetUniformLoc E p name w = AssertFailed w
     /\ Program.GetAttribLoc E p name w = AssertFailed (write_log amsg w))
  /\ (debug_build E = false ->
     Program.GetUniformLoc E p name w = Ok 0 (write_log umsg w)
     /\ Program.GetAttribLoc E p name w = Ok 0 (write_log amsg w)
     /\ exists w',
          (l ← Program.GetUniformLoc E p name; Program.SetUniformLoc E l v) w = Ok tt w'
          /\ calls w' = calls w ++ [Uniform 0 v]
          /\ (uniform_vals w' = <[(current_program w, 0) := v]> (uniform_vals w)
              /\ errors w' = errors w
              \/ uniform_vals w' = uniform_vals w
                 /\ errors w' = errors w ++ [GL_INVALID_OPERATION])).
Proof.
  intros Hu Ha umsg amsg.
  unfold Program.GetUniformLoc, Program.GetAttribLoc, Program.SetUniformLoc.
  rewrite Hu, Ha. fold umsg amsg. unfold GL.assert, Log.cerr.
  split; intros Hd.
  - unfold mbind, M_bind, bind, modify. rewrite Hd. simpl. split; reflexivity.
  - unfold mbind, M_bind, bind, modify, glUniform. rewrite Hd. simpl.
    split; [reflexivity|]. split; [reflexivity|].
    eexists. split; [reflexivity|].
    destruct (uniform_type_at E (record (Uniform 0 v) (write_log umsg w)) 0) as [ty|];
      [destruct (uval_has_type v ty)|]; simpl; auto.
Qed.

Lemma C4_unresolved_lookup_witness :
  Program.uniforms (Program.new 0) !! "viewMat"%string = None
  /\ Program.attribs (Program.new 0) !! "viewMat"%string = None
  /\ Program.GetUniformLoc env (Program.new 0) "viewMat" fresh_world = AssertFailed fresh_world
  /\ Program.GetUniformLoc release_env (Program.new 0) "viewMat" fresh_world
     = Ok 0 (write_log ("could not find uniform viewMat for program " +:+ Program.nl)
               fresh_world).
Proof.
  split; [reflexivity|]. split; [reflexivity|].
  split.
  - apply (C4_unresolved_lookup env (Program.new 0) "viewMat" (UInt 0) fresh_world
             eq_refl eq_refl); reflexivity.
  - apply (C4_unresolved_lookup release_env (Program.new 0) "viewMat" (UInt 0) fresh_world
             eq_refl eq_refl); reflexivity.
Defined.



(** C7 (the failing input).  [N = 4294967295] passes the assertion of
    [BuildVertexArrayObject], [N <= UINT32_MAX].  The 32-bit sum
    [N + 255] wraps to 254, so no work group is dispatched where
    [ceil(N / 256)] is 16777216. *)
Lemma C7_group_count_wraps :
  let N := 4294967295 in
  N <= UINT32_MAX
  /\ PointRenderer.num_groups N = 0
  /\ (N + (LOCAL_SIZE - 1)) / LOCAL_SIZE = 16777216.
Proof. cbv zeta. repeat split. discriminate. Qed.

(** C10 (counterexample).  On a driver that rejects the fragment stage the
    load fails after the vertex and the geometry stage have been compiled:
    their handles stay in the object and the three shader objects stay in
    the context.  On a driver that does not link, the load fails with the
    program handle set as well. *)
Lemma C10_failed_load_keeps_handles :
  let load E := Program.LoadVertGeomFrag E (Program.new 0) "shader/splat_vert.glsl"
                  "shader/splat_geom.glsl" "shader/splat_frag.glsl" fresh_world in
  answer (load env_bad_frag) = Some false
  /\ Program.vertShader <$> loaded (load env_bad_frag) = Some 1
  /\ Program.geomShader <$> loaded (load env_bad_frag) = Some 2
  /\ Program.program <$> loaded (load env_bad_frag) = Some 0
  /\ (fun w => size (shaders w)) <$> final_world (load env_bad_frag) = Some 3%nat
  /\ answer (load env_no_link) = Some false
  /\ Program.program <$> loaded (load env_no_link) = Some 4
  /\ Program.fragShader <$> loaded (load env_no_link) = Some 3.
Proof. cbv zeta. repeat split; vm_compute; reflexivity. Qed.

(** C10 (amended).  Both loads start with the five calls of [Delete] on
    the handles the object held.  When a load answers [false], both
    reflection tables of the object are empty, so [GetUniformLoc] and
    [GetAttribLoc] take the unresolved branch for every name, and each
    handle of the object is either null or names an object this very load
    created: the stages compiled before the failure, and the program when
    the failure is the link. *)
Theorem C10_failed_load (E : Env) (p : Program.Program) (vf gf ff cf : string) (w : World)
    (p' : Program.Program) (w' : World) :
  Program.LoadVertGeomFrag E p vf gf ff w = Ok (false, p') w'
  \/ Program.LoadCompute E p cf w = Ok (false, p') w' ->
  (exists rest, calls w' = calls w ++ ProgramFacts.delete_calls p ++ rest)
  /\ Program.uniforms p' = ∅ /\ Program.attribs p' = ∅
  /\ ProgramFacts.handles_new w p'
  /\ (forall name,
        Program.GetUniformLoc E p' name
        = (GL.assert E false;;
           Log.cerr ("could not find uniform " +:+ name +:+ " for program " +:+
                     Program.debugName p' +:+ Program.nl);;
           mret 0))
  /\ (forall name,
        Program.GetAttribLoc E p' name
        = (Log.cerr ("could not find attrib " +:+ name +:+ " for program " +:+
                     Program.debugName p' +:+ Program.nl);;
           GL.assert E false;;
           mret 0)).
Proof.
  intros H.
  assert ((exists rest, calls w' = calls w ++ ProgramFacts.delete_calls p ++ rest)
          /\ ProgramFacts.no_reflection p' /\ ProgramFacts.handles_new w p')
    as (Hd & (Hu & Ha) & Hh).
  { destruct H as [H|H].
    - split; [exact (ProgramFacts.LoadVertGeomFrag_deletes_first E _ _ _ _ _ _ _ H)|].
      exact (ProgramFacts.LoadVertGeomFrag_failed E _ _ _ _ _ _ _ H).
    - split; [exact (ProgramFacts.LoadCompute_deletes_first E _ _ _ _ _ H)|].
      exact (ProgramFacts.LoadCompute_failed E _ _ _ _ _ H). }
  split; [exact Hd|]. split; [exact Hu|]. split; [exact Ha|]. split; [exact Hh|].
  unfold Program.GetUniformLoc, Program.GetAttribLoc. rewrite Hu, Ha.
  split; intros name; now rewrite lookup_empty.
Qed.

Lemma C10_failed_load_witness :
  exists p' w',
    Program.LoadVertGeomFrag env_bad_frag (Program.new 0) "shader/splat_vert.glsl"
      "shader/splat_geom.glsl" "shader/splat_frag.glsl" fresh_world = Ok (false, p') w'
    /\ Program.uniforms p' = ∅ /\ Program.attribs p' = ∅
    /\ Program.GetAttribLoc env_bad_frag p' "position" w'
       = AssertFailed (write_log ("could not find attrib position for program " +:+
                                  Program.debugName p' +:+ Program.nl) w').
Proof.
  pose (load := Program.LoadVertGeomFrag env_bad_frag (Program.new 0)
                  "shader/splat_vert.glsl" "shader/splat_geom.glsl"
                  "shader/splat_frag.glsl" fresh_world).
  exists (default (Program.new 0) (loaded load)), (default fresh_world (final_world load)).
  assert (load = Ok (false, default (Program.new 0) (loaded load))
                    (default fresh_world (final_world load))) as Hload
    by (vm_compute; reflexivity).
  split; [exact Hload|].
  destruct (C10_failed_load env_bad_frag (Program.new 0) "shader/splat_vert.glsl"
              "shader/splat_geom.glsl" "shader/splat_frag.glsl" "" fresh_world _ _
              (or_introl Hload)) as (_ & Hu & Ha & _ & _ & Hattr).
  split; [exact Hu|]. split; [exact Ha|].
  rewrite Hattr. reflexivity.
Defined.

End Claims.

Module Extras.
Import Num NumFacts glm GL radix_sort Device Run Program ProgramFacts LoadFacts ReflectFacts.
Import Scene.
#[local] Existing Instance SortFacts.insertion_sorter.

(** X1.  [CompileShader] always returns.  It creates one shader object,
    gives it the source and compiles it, with the three GL calls in that
    order, and never deletes it.  It answers [true] exactly when the driver
    reports the shader compiled and, in a debug build, left no info log;
    only then is the new handle stored in [*shaderOut]. *)
Theorem X1_CompileShader (E : Env) (ty : shader_type) (src : string) (out : Z)
    (dbg : string) (w : World) :
  let ok := compile_answer E ty src in
  exists w',
    CompileShader E ty src out dbg w = Ok (ok, if ok then next_name w else out) w'
    /\ shaders w' = <[next_name w := (ty, src)]> (shaders w)
    /\ next_name w' = next_name w + 1
    /\ programs w' = programs w /\ buffers w' = buffers w
    /\ calls w' = calls w ++ [CreateShader ty (next_name w); ShaderSource (next_name w) src;
                              CompileShaderCall (next_name w)].
Proof.
  intros ok. destruct (returns_CompileShader E ty src out dbg w) as ([ok' sh] & w' & H).
  pose proof (CompileShader_answer E _ _ _ _ _ _ _ _ H) as ->.
  pose proof (CompileShader_inv E _ _ _ _ _ _ _ _ H) as (Hs & Hn & Hp & Hb & -> & Hc).
  exists w'. auto 10.
Qed.

(** X2.  [CheckLinkStatus] always returns, and all it does is print.  It
    answers [true] exactly when the program is linked and, in a debug
    build, the info log has at most one character. *)
Theorem X2_CheckLinkStatus (E : Env) (p : Program) (w : World) :
  exists lines,
    CheckLinkStatus E p w = Ok (link_answer E w (program p)) (write_logs lines w).
Proof.
  destruct (returns_CheckLinkStatus E p w) as (ok & w' & H).
  pose proof (CheckLinkStatus_answer E _ _ _ _ H) as ->.
  destruct (logs_only_CheckLinkStatus E p _ _ _ H) as [lines ->].
  now exists lines.
Qed.


(** X4.  [Delete] always returns the object with every handle null and
    both tables empty.  It issues its five delete calls in the order
    vertex, geometry, fragment, compute, program, creates no name, leaves
    the buffers alone and takes the program object out of the context.  A
    second [Delete] right after it is harmless: deleting handle 0 changes
    no object and raises no GL error. *)
Theorem X4_Delete (p : Program) (w : World) :
  let cleared := mk_Program 0 0 0 0 0 EmptyString ∅ ∅ in
  exists w0 w1,
    Delete p w = Ok cleared w0
    /\ calls w0 = calls w ++ delete_calls p
    /\ next_name w0 = next_name w /\ buffers w0 = buffers w
    /\ (program p <> 0 -> programs w0 !! program p = None)
    /\ Delete cleared w0 = Ok cleared w1
    /\ same_objects w0 w1 /\ errors w1 = errors w0.
Proof.
  intros cleared. destruct (returns_Delete p w) as (p0 & w0 & HD).
  pose proof (Delete_inv _ _ _ _ HD) as (-> & Hn & Hb & Hc & Hp).
  exists w0,
    (record (DeleteProgram 0)
       (record (DeleteShader 0) (record (DeleteShader 0) (record (DeleteShader 0)
          (record (DeleteShader 0) w0))))).
  split; [exact HD|]. split; [exact Hc|].
  split; [exact Hn|]. split; [exact Hb|]. split; [exact Hp|].
  split; [reflexivity|]. repeat split.
Qed.

(** X5.  When [LoadVertGeomFrag] answers [true], all of its files were
    read and the program is linked from the vertex, the fragment and (when
    one is named) the geometry stage, attached in that order.  Every name
    the driver reports as an active uniform or attribute, cut to the 1027
    characters the name buffer holds, is then resolved by [GetUniformLoc]
    or [GetAttribLoc] to the location the driver gives that name, without
    any effect; every other name is in neither table. *)
Theorem X5_LoadVertGeomFrag_reflection (E : Env) (p : Program) (vf gf ff : string)
    (w : World) (p' : Program) (w' : World) :
  LoadVertGeomFrag E p vf gf ff w = Ok (true, p') w' ->
  let srcs := stages E vf gf ff in
  is_Some (files E !! vf) /\ is_Some (files E !! ff)
  /\ (gf <> EmptyString -> is_Some (files E !! gf))
  /\ linked_sources w' (program p') = Some srcs
  /\ (forall name w0, name ∈ active_uniform_names E srcs ->
        GetUniformLoc E p' name w0 = Ok (drv_uniform_location E srcs name) w0)
  /\ (forall name w0, name ∈ active_attrib_names E srcs ->
        GetAttribLoc E p' name w0 = Ok (drv_attrib_location E srcs name) w0)
  /\ (forall name, name ∉ active_uniform_names E srcs -> uniforms p' !! name = None)
  /\ (forall name, name ∉ active_attrib_names E srcs -> attribs p' !! name = None).
Proof.
  intros H srcs.
  destruct (LoadVertGeomFrag_loaded E _ _ _ _ _ _ _ H)
    as (Hvf & Hff & Hgf & Hl & Hu & Hun & Ha & Han & _).
  split; [exact Hvf|]. split; [exact Hff|]. split; [exact Hgf|]. split; [exact Hl|].
  split; [|split; [|split; assumption]].
  - intros name w0 Hin. specialize (Hu name Hin). unfold GetUniformLoc.
    destruct (uniforms p' !! name) as [v|]; [|discriminate].
    now injection Hu as ->.
  - intros name w0 Hin. specialize (Ha name Hin). unfold GetAttribLoc.
    destruct (attribs p' !! name) as [v|]; [|discriminate].
    now injection Ha as ->.
Qed.

Lemma X5_LoadVertGeomFrag_reflection_witness :
  exists p' w',
    LoadVertGeomFrag env (Program.new 0) "shader/splat_vert.glsl"
      "shader/splat_geom.glsl" "shader/splat_frag.glsl" fresh_world = Ok (true, p') w'
    /\ GetUniformLoc env p' "projMat" w' = Ok 1 w'
    /\ GetAttribLoc env p' "color" w' = Ok 1 w'
    /\ uniforms p' !! "modelMat"%string = None.
Proof.
  pose (load := LoadVertGeomFrag env (Program.new 0) "shader/splat_vert.glsl"
                  "shader/splat_geom.glsl" "shader/splat_frag.glsl" fresh_world).
  exists (default (Program.new 0) (loaded load)), (default fresh_world (final_world load)).
  assert (load = Ok (true, default (Program.new 0) (loaded load))
                    (default fresh_world (final_world load))) as Hload
    by (vm_compute; reflexivity).
  split; [exact Hload|].
  destruct (X5_LoadVertGeomFrag_reflection env (Program.new 0) "shader/splat_vert.glsl"
              "shader/splat_geom.glsl" "shader/splat_frag.glsl" fresh_world _ _ Hload)
    as (_ & _ & _ & _ & Hu & Ha & Hun & _).
  split; [|split].
  - rewrite (Hu "projMat"%string); [vm_compute; reflexivity|].
    apply list_elem_of_In. vm_compute. right. left. reflexivity.
  - rewrite (Ha "color"%string); [vm_compute; reflexivity|].
    apply list_elem_of_In. vm_compute. right. left. reflexivity.
  - apply Hun. intros Hin. apply list_elem_of_In in Hin. vm_compute in Hin.
    repeat destruct Hin as [Hin|Hin]; try discriminate Hin. exact Hin.
Defined.


(** X6.  When [LoadCompute] answers [true], the program is linked from one
    compute stage whose source is the file's text, or the empty string when
    the file could not be read.  [GetUniformLoc] then resolves every active
    uniform the driver reports to the driver's location, without any
    effect; no other name is in the uniform table, and the attribute table
    is empty. *)
Theorem X6_LoadCompute_reflection (E : Env) (p : Program) (file : string) (w : World)
    (p' : Program) (w' : World) :
  LoadCompute E p file w = Ok (true, p') w' ->
  let srcs := [(GL_COMPUTE_SHADER, default EmptyString (files E !! file))] in
  linked_sources w' (program p') = Some srcs
  /\ (forall name w0, name ∈ active_uniform_names E srcs ->
        GetUniformLoc E p' name w0 = Ok (drv_uniform_location E srcs name) w0)
  /\ (forall name, name ∉ active_uniform_names E srcs -> uniforms p' !! name = None)
  /\ attribs p' = ∅.
Proof.
  intros H srcs.
  destruct (LoadCompute_loaded E _ _ _ _ _ H) as (Hl & Hu & Hun & Ha & _).
  split; [exact Hl|]. split; [|split; assumption].
  intros name w0 Hin. specialize (Hu name Hin). unfold GetUniformLoc.
  destruct (uniforms p' !! name) as [v|]; [|discriminate].
  now injection Hu as ->.
Qed.

Lemma X6_LoadCompute_reflection_witness :
  exists p' w',
    LoadCompute env (Program.new 0) "shader/presort_compute.glsl" fresh_world
    = Ok (true, p') w'
    /\ linked_sources w' (program p') = Some [(GL_COMPUTE_SHADER, "pre-sort kernel"%string)]
    /\ GetUniformLoc env p' "eye" w' = Ok 5 w'
    /\ attribs p' = ∅.
Proof.
  pose (load := LoadCompute env (Program.new 0) "shader/presort_compute.glsl" fresh_world).
  exists (default (Program.new 0) (loaded load)), (default fresh_world (final_world load)).
  assert (load = Ok (true, default (Program.new 0) (loaded load))
                    (default fresh_world (final_world load))) as Hload
    by (vm_compute; reflexivity).
  split; [exact Hload|].
  destruct (X6_LoadCompute_reflection env (Program.new 0) "shader/presort_compute.glsl"
              fresh_world _ _ Hload) as (Hl & Hu & _ & Ha).
  split; [exact Hl|]. split; [|exact Ha].
  rewrite (Hu "eye"%string); [vm_compute; reflexivity|].
  apply list_elem_of_In. vm_compute. do 5 right. left. reflexivity.
Defined.

(** X7.  [LoadVertGeomFrag] gives up at the first file it cannot read:
    it answers [false] after [Delete] and one log line, having created no
    shader and no program, so every handle of the object is null and the
    tables are empty.  An empty geometry file name is not looked up. *)
Theorem X7_LoadVertGeomFrag_missing_file (E : Env) (p : Program) (vf gf ff : string)
    (w : World) :
  files E !! vf = None \/ (gf <> EmptyString /\ files E !! gf = None) \/ files E !! ff = None ->
  exists w0 line,
    Delete p w = Ok (mk_Program 0 0 0 0 0 EmptyString ∅ ∅) w0
    /\ LoadVertGeomFrag E p vf gf ff w
       = Ok (false, mk_Program 0 0 0 0 0
                      (if negb (String.eqb gf EmptyString)
                       then vf +:+ " + " +:+ gf +:+ " + " +:+ ff
                       else vf +:+ " + " +:+ ff) ∅ ∅)
            (write_log line w0).
Proof. apply MissingFile.LoadVertGeomFrag_missing. Qed.

Lemma X7_LoadVertGeomFrag_missing_file_witness :
  files env_without_vert !! "shader/splat_vert.glsl"%string = None
  /\ answer (LoadVertGeomFrag env_without_vert (Program.new 0) "shader/splat_vert.glsl"
               "shader/splat_geom.glsl" "shader/splat_frag.glsl" fresh_world) = Some false.
Proof.
  assert (files env_without_vert !! "shader/splat_vert.glsl"%string = None) as Hmiss
    by (vm_compute; reflexivity).
  split; [exact Hmiss|].
  destruct (X7_LoadVertGeomFrag_missing_file env_without_vert (Program.new 0)
              "shader/splat_vert.glsl" "shader/splat_geom.glsl" "shader/splat_frag.glsl"
              fresh_world (or_introl Hmiss)) as (w0 & line & _ & ->).
  reflexivity.
Defined.

(** X8.  [LoadVertFrag] is [LoadVertGeomFrag] without a geometry stage:
    when it answers [true] the program is linked from the vertex and the
    fragment stage only, and the geometry handle is null. *)
Theorem X8_LoadVertFrag (E : Env) (p : Program) (vf ff : string) (w : World)
    (p' : Program) (w' : World) :
  LoadVertFrag E p vf ff w = Ok (true, p') w' ->
  linked_sources w' (program p')
  = Some [(GL_VERTEX_SHADER, default EmptyString (files E !! vf));
          (GL_FRAGMENT_SHADER, default EmptyString (files E !! ff))]
  /\ geomShader p' = 0
  /\ debugName p' = (vf +:+ " + " +:+ ff)%string.
Proof.
  unfold LoadVertFrag. intros H.
  destruct (LoadVertGeomFrag_loaded E _ _ _ _ _ _ _ H) as (_ & _ & _ & Hl & _ & _ & _ & _ & Hg).
  split; [exact Hl|]. split; [now apply Hg|].
  revert H. unfold LoadVertGeomFrag. cbv zeta. intros H.
  inv_bind H as p0 w0 H0. apply Delete_inv in H0 as (Hp0 & _).
  inv_bind H as lf w1 H1. destruct lf as [ok vsrc]. destruct ok; take_branch H.
  2:{ inv_bind H as u w4 H4. discriminate. }
  inv_bind H as lf2 w2 H2. destruct lf2 as [ok gsrc]. destruct ok; take_branch H.
  2:{ inv_bind H as u w4 H4. discriminate. }
  inv_bind H as lf3 w3 H3. destruct lf3 as [ok fsrc]. destruct ok; take_branch H.
  2:{ inv_bind H as u w4 H4. discriminate. }
  inv_bind H as cs w4 H4. destruct cs as [ok shv]. destruct ok; take_branch H.
  2:{ inv_bind H as u w5 H5. discriminate. }
  inv_bind H as cs2 w5 H5. destruct cs2 as [ok shg]. destruct ok; take_branch H.
  2:{ inv_bind H as u w6 H6. discriminate. }
  inv_bind H as cs3 w6 H6. destruct cs3 as [ok shf]. destruct ok; take_branch H.
  2:{ inv_bind H as u w7 H7. discriminate. }
  do 5 (apply bind_inv_Ok in H as (? & ? & _ & H)).
  inv_bind H as linked w7 H7. destruct linked; take_branch H.
  2:{ do 7 (apply bind_inv_Ok in H as (? & ? & _ & H)). discriminate. }
  do 4 (apply bind_inv_Ok in H as (? & ? & _ & H)).
  injection H as <- _. reflexivity.
Qed.

Lemma X8_LoadVertFrag_witness :
  exists p' w',
    LoadVertFrag env (Program.new 0) "shader/point_vert.glsl" "shader/point_frag.glsl"
      fresh_world = Ok (true, p') w'
    /\ linked_sources w' (program p')
       = Some [(GL_VERTEX_SHADER, "point vertex stage"%string);
               (GL_FRAGMENT_SHADER, "point fragment stage"%string)]
    /\ geomShader p' = 0.
Proof.
  pose (load := LoadVertFrag env (Program.new 0) "shader/point_vert.glsl"
                  "shader/point_frag.glsl" fresh_world).
  exists (default (Program.new 0) (loaded load)), (default fresh_world (final_world load)).
  assert (load = Ok (true, default (Program.new 0) (loaded load))
                    (default fresh_world (final_world load))) as Hload
    by (vm_compute; reflexivity).
  split; [exact Hload|].
  destruct (X8_LoadVertFrag env (Program.new 0) "shader/point_vert.glsl"
              "shader/point_frag.glsl" fresh_world _ _ Hload) as (Hl & Hg & _).
  split; [exact Hl|exact Hg].
Defined.


(** X9.  When [SplatRenderer::Init] answers [false] it has only replaced
    the program: no buffer object was created or written, the renderer's
    vectors, vertex array object, key and value buffer and sorter are what
    they were, and the new program has empty tables. *)
Theorem X9_splat_Init_failed (E : Env) (ind : Z) (r : SplatRenderer.SplatRenderer)
    (cloud : list SplatRenderer.Gaussian) (w : World) (r' : SplatRenderer.SplatRenderer)
    (w' : World) :
  SplatRenderer.Init E ind r cloud w = Ok (false, r') w' ->
  buffers w' = buffers w
  /\ exists prog, r' = SplatRenderer.set_splatProg (Some prog) r
                  /\ uniforms prog = ∅ /\ attribs prog = ∅.
Proof. apply BufferFacts.splat_Init_failed. Qed.

Lemma X9_splat_Init_failed_witness :
  exists r' w',
    SplatRenderer.Init env_bad_frag 0 SplatRenderer.new splats fresh_world = Ok (false, r') w'
    /\ buffers w' = ∅
    /\ SplatRenderer.splatVao r' = None /\ SplatRenderer.positionVec r' = [].
Proof.
  pose (init := SplatRenderer.Init env_bad_frag 0 SplatRenderer.new splats fresh_world).
  exists (default SplatRenderer.new (loaded init)), (default fresh_world (final_world init)).
  assert (init = Ok (false, default SplatRenderer.new (loaded init))
                    (default fresh_world (final_world init))) as Hinit
    by (vm_compute; reflexivity).
  split; [exact Hinit|].
  destruct (X9_splat_Init_failed env_bad_frag 0 SplatRenderer.new splats fresh_world _ _ Hinit)
    as (Hb & prog & -> & _).
  split; [exact Hb|]. split; reflexivity.
Defined.

(** X10.  When [PointRenderer::Init] answers [false], whether the texture,
    the point program or the pre-sort program stopped it, no buffer object
    was created or written and the renderer holds no vertex array object,
    buffer or position that it did not hold before. *)
Theorem X10_point_Init_failed (E : Env) (ind1 ind2 : Z) (r : PointRenderer.PointRenderer)
    (cloud : list PointRenderer.Point) (w : World) (r' : PointRenderer.PointRenderer)
    (w' : World) :
  PointRenderer.Init E ind1 ind2 r cloud w = Ok (false, r') w' ->
  buffers w' = buffers w
  /\ PointRenderer.pointVao r' = PointRenderer.pointVao r
  /\ PointRenderer.keyBuffer r' = PointRenderer.keyBuffer r
  /\ PointRenderer.valBuffer r' = PointRenderer.valBuffer r
  /\ PointRenderer.posBuffer r' = PointRenderer.posBuffer r
  /\ PointRenderer.posVec r' = PointRenderer.posVec r.
Proof. apply BufferFacts.point_Init_failed. Qed.

Lemma X10_point_Init_failed_witness :
  exists r' w',
    PointRenderer.Init env_no_link 0 0 PointRenderer.new points fresh_world
    = Ok (false, r') w'
    /\ buffers w' = ∅ /\ PointRenderer.pointVao r' = None.
Proof.
  pose (init := PointRenderer.Init env_no_link 0 0 PointRenderer.new points
                  fresh_world).
  exists (default PointRenderer.new (loaded init)), (default fresh_world (final_world init)).
  assert (init = Ok (false, default PointRenderer.new (loaded init))
                    (default fresh_world (final_world init))) as Hinit
    by (vm_compute; reflexivity).
  split; [exact Hinit|].
  destruct (X10_point_Init_failed env_no_link 0 0 PointRenderer.new points
              fresh_world _ _ Hinit) as (Hb & Hv & _).
  split; [exact Hb|exact Hv].
Defined.

(** X11.  After [SplatRenderer::Init] has answered [true] on a new renderer
    for at most [UINT32_MAX] gaussians, the renderer holds their positions
    in order, and any sequence of [Render] calls returns: no index is out
    of range and, provided the four uniforms of the draw are in the
    program's table in a debug build, no assertion fails. *)
Theorem X11_splat_Init_then_Render (E : Env) `{!ParallelSorter} (ind : Z)
    (cloud : list SplatRenderer.Gaussian) (w : World) (r : SplatRenderer.SplatRenderer)
    (w' : World) (cams : list mat4) (vp : vec4) (nf : Q * Q) (fv : Q) :
  Z.of_nat (length cloud) <= UINT32_MAX ->
  SplatRenderer.Init E ind SplatRenderer.new cloud w = Ok (true, r) w' ->
  (forall prog, SplatRenderer.splatProg r = Some prog ->
                Forall (resolves E prog) SplatFacts.draw_uniforms) ->
  SplatRenderer.positionVec r = SplatRenderer.position <$> cloud
  /\ exists r' w'',
       Frames.splat_frames E cams vp nf fv r w' = Ok r' w''
       /\ SplatRenderer.positionVec r' = SplatRenderer.position <$> cloud.
Proof.
  intros Hn Hinit Hres.
  destruct (InitFacts.splat_Init_establishes E ind cloud w r w' Hn Hinit Hres)
    as (L & I & Hpos).
  split; [exact Hpos|].
  destruct (Frames.splat_frames_Inv E L cams vp nf fv r w' I) as (r' & w'' & Hrun & _ & Hp).
  exists r', w''. split; [exact Hrun|]. now rewrite Hp.
Qed.

Lemma X11_splat_Init_then_Render_witness :
  exists r' w'',
    Frames.splat_frames env [camera; camera_at_4; camera] viewport nearFar fovy
      splat_scene.1 splat_scene.2 = Ok r' w''
    /\ SplatRenderer.positionVec r' = SplatRenderer.position <$> splats.
Proof.
  apply (X11_splat_Init_then_Render env 0 splats fresh_world splat_scene.1 splat_scene.2
           [camera; camera_at_4; camera] viewport nearFar fovy).
  - vm_compute. discriminate.
  - exact SceneFacts.splat_scene_Init.
  - intros prog Hp. apply SceneFacts.env_resolves_all.
    assert (prog = default (Program.new 0) (SplatRenderer.splatProg splat_scene.1)) as ->
      by (now rewrite Hp).
    vm_compute. reflexivity.
Defined.

(** X12.  After [PointRenderer::Init] has answered [true] on a new renderer
    for at most [UINT32_MAX] points, the renderer holds their positions as
    [vec4] with [w = 1], and any sequence of [Render] calls returns and
    leaves the renderer as it is, provided the uniforms of the pre-sort
    and of the draw are in the tables in a debug build. *)
Theorem X12_point_Init_then_Render (E : Env) `{!ParallelSorter} (ind1 ind2 : Z)
    (cloud : list PointRenderer.Point) (w : World) (r : PointRenderer.PointRenderer)
    (w' : World) (cams : list mat4) (vp : vec4) (nf : Q * Q) (fv : Q) :
  Z.of_nat (length cloud) <= UINT32_MAX ->
  PointRenderer.Init E ind1 ind2 PointRenderer.new cloud w = Ok (true, r) w' ->
  (forall prog, PointRenderer.pointProg r = Some prog ->
                Forall (resolves E prog) PointFacts.draw_uniforms) ->
  (forall prog, PointRenderer.preSortProg r = Some prog ->
                Forall (resolves E prog) PointFacts.presort_uniforms) ->
  PointRenderer.posVec r = PointRenderer.pos_of <$> cloud
  /\ exists w'', Frames.point_frames E cams vp nf fv r w' = Ok r w''.
Proof.
  intros Hn Hinit Hres Hres'.
  destruct (InitFacts.point_Init_establishes E ind1 ind2 cloud w r w' Hn Hinit Hres Hres')
    as (L & I & Hpos).
  split; [exact Hpos|].
  destruct (Frames.point_frames_Inv E L cams vp nf fv r w' I) as (w'' & Hrun & _).
  now exists w''.
Qed.

Lemma X12_point_Init_then_Render_witness :
  exists w'',
    Frames.point_frames env [camera; camera_at_4; camera] viewport nearFar fovy
      point_scene.1 point_scene.2 = Ok point_scene.1 w''.
Proof.
  apply (X12_point_Init_then_Render env 0 0 points fresh_world point_scene.1 point_scene.2
           [camera; camera_at_4; camera] viewport nearFar fovy).
  - vm_compute. discriminate.
  - exact SceneFacts.point_scene_Init.
  - intros prog Hp. apply SceneFacts.env_resolves_all.
    assert (prog = default (Program.new 0) (PointRenderer.pointProg point_scene.1)) as ->
      by (now rewrite Hp).
    vm_compute. reflexivity.
  - intros prog Hp. apply SceneFacts.env_resolves_all.
    assert (prog = default (Program.new 0) (PointRenderer.preSortProg point_scene.1)) as ->
      by (now rewrite Hp).
    vm_compute. reflexivity.
Defined.

(** X13.  For every point count [N] with [N + 255 <= UINT32_MAX] the
    dispatch of the pre-sort is [ceil(N / 256)] work groups: the fewest
    whose [256 * groups] invocations cover all [N] points. *)
Theorem X13_num_groups (N : Z) :
  0 <= N -> N + 255 <= UINT32_MAX ->
  PointRenderer.num_groups N = (N + 255) / 256
  /\ N <= PointRenderer.num_groups N * LOCAL_SIZE
  /\ (PointRenderer.num_groups N - 1) * LOCAL_SIZE < N.
Proof.
  intros H0 H1. destruct (PointFacts.num_groups_in_range N H0 H1) as [Hg Hr].
  split; [exact Hg|]. unfold LOCAL_SIZE in *. lia.
Qed.

Lemma X13_num_groups_witness :
  PointRenderer.num_groups 257 = 2
  /\ 257 <= PointRenderer.num_groups 257 * LOCAL_SIZE
  /\ (PointRenderer.num_groups 257 - 1) * LOCAL_SIZE < 257.
Proof.
  apply (X13_num_groups 257); vm_compute; discriminate.
Defined.



(** X15.  [BuildVertexArrayObject] appends to the positions the renderer
    already holds, while [Init] sizes the key array for the new cloud
    only.  So after a second [Init] on a renderer that held positions the
    next [Render] runs its loop past the end of [depthVec]: its behaviour
    is undefined. *)
Theorem X15_splat_second_Init (E : Env) `{!ParallelSorter} (ind : Z)
    (r : SplatRenderer.SplatRenderer) (cloud : list SplatRenderer.Gaussian) (w : World)
    (r' : SplatRenderer.SplatRenderer) (w' : World) (cam : mat4) (vp : vec4) (nf : Q * Q)
    (fv : Q) :
  SplatRenderer.positionVec r <> [] ->
  SplatRenderer.Init E ind r cloud w = Ok (true, r') w' ->
  SplatRenderer.positionVec r'
  = SplatRenderer.positionVec r ++ (SplatRenderer.position <$> cloud)
  /\ length (SplatRenderer.depthVec r') = length cloud
  /\ SplatRenderer.Render E r' cam vp nf fv w' = Undefined.
Proof.
  intros Hne Hinit.
  destruct (ReInit.splat_Init_appends E ind r cloud w r' w' Hinit) as [Hp Hd].
  split; [exact Hp|]. split; [exact Hd|].
  now apply (ReInit.splat_Render_after_second_Init E ind r cloud w).
Qed.

Lemma X15_splat_second_Init_witness :
  exists r' w',
    SplatRenderer.Init env 0 splat_scene.1 splats splat_scene.2 = Ok (true, r') w'
    /\ length (SplatRenderer.positionVec r') = 6%nat
    /\ length (SplatRenderer.depthVec r') = 3%nat
    /\ SplatRenderer.Render env r' camera viewport nearFar fovy w' = Undefined.
Proof.
  pose (init := SplatRenderer.Init env 0 splat_scene.1 splats splat_scene.2).
  exists (default SplatRenderer.new (loaded init)), (default fresh_world (final_world init)).
  assert (init = Ok (true, default SplatRenderer.new (loaded init))
                    (default fresh_world (final_world init))) as Hinit
    by (vm_compute; reflexivity).
  split; [exact Hinit|].
  assert (SplatRenderer.positionVec splat_scene.1 <> []) as Hne
    by (vm_compute; discriminate).
  destruct (X15_splat_second_Init env 0 splat_scene.1 splats splat_scene.2 _ _ camera
              viewport nearFar fovy Hne Hinit) as (Hp & Hd & Hr).
  split; [rewrite Hp; vm_compute; reflexivity|]. split; [exact Hd|exact Hr].
Defined.

(** X16.  Both loads always return, whatever the files and the driver
    answer.  Each begins by deleting what the program held, so its GL calls
    start with the five deletes of the old handles, and neither creates nor
    writes a buffer object. *)
Theorem X16_load_deletes_first (E : Env) (p : Program.Program) (vf gf ff file : string)
    (w : World) :
  (exists r w' rest,
     Program.LoadVertGeomFrag E p vf gf ff w = Ok r w'
     /\ calls w' = calls w ++ ProgramFacts.delete_calls p ++ rest
     /\ buffers w' = buffers w)
  /\ (exists r w' rest,
        Program.LoadCompute E p file w = Ok r w'
        /\ calls w' = calls w ++ ProgramFacts.delete_calls p ++ rest
        /\ buffers w' = buffers w).
Proof.
  split.
  - destruct (LoadFacts.returns_LoadVertGeomFrag E p vf gf ff w) as (r & w' & Hl).
    destruct (ProgramFacts.LoadVertGeomFrag_deletes_first E _ _ _ _ _ _ _ Hl) as [rest Hc].
    exists r, w', rest. split; [exact Hl|]. split; [exact Hc|].
    exact (BufferFacts.keeps_buffers_LoadVertGeomFrag E p vf gf ff _ _ _ Hl).
  - destruct (LoadFacts.returns_LoadCompute E p file w) as (r & w' & Hl).
    destruct (ProgramFacts.LoadCompute_deletes_first E _ _ _ _ _ Hl) as [rest Hc].
    exists r, w', rest. split; [exact Hl|]. split; [exact Hc|].
    exact (BufferFacts.keeps_buffers_LoadCompute E p file _ _ _ Hl).
Qed.

End Extras.
